(** * twitter-space-download: the HLS polling core of [main.go]

    A shallow embedding of [HLSDownloader] (methods [Start],
    [processChunks], [getPlaylist], [switchToReplay], [downloadChunk],
    [Close]) and of the tail of [main], together with the properties of
    the specification that concern them.

    Go strings are byte strings; they are modelled by [string] (a list of
    8-bit [ascii]).  Go [int] values that occur here (indices, the retry
    counter, HTTP status codes, durations) stay far below 2^63 and are
    modelled by [Z].  A run-time panic, an error value and running out of
    fuel are three distinct results. *)

From Stdlib Require Import ZArith String Ascii List Lia Bool.
From stdpp Require Import base gmap strings list pretty.

Open Scope string_scope.
Open Scope list_scope.
Open Scope Z_scope.

(** ** The Go [strings] functions used by the downloader *)

Module GoStrings.

Definition byte (n : nat) : string := String (ascii_of_nat n) "".

(** The line feed and carriage return bytes. *)
Definition LF : ascii := ascii_of_nat 10.
Definition CR : ascii := ascii_of_nat 13.

(** [len(s)] *)
Definition len (s : string) : Z := Z.of_nat (String.length s).

(** [s[n:]] for [n <= len(s)] *)
Fixpoint skip (n : nat) (s : string) : string :=
  match n, s with
  | O, _ => s
  | S n', String _ s' => skip n' s'
  | S _, EmptyString => EmptyString
  end.

(** [s[:n]] for [n <= len(s)] *)
Fixpoint keep (n : nat) (s : string) : string :=
  match n, s with
  | O, _ => EmptyString
  | S n', String c s' => String c (keep n' s')
  | S _, EmptyString => EmptyString
  end.

(** The slice expression [s[:i]]; [None] is the run-time panic
    "slice bounds out of range". *)
Definition slice_to (s : string) (i : Z) : option string :=
  if (0 <=? i) && (i <=? len s) then Some (keep (Z.to_nat i) s) else None.

(** [strings.HasPrefix(s, prefix)] *)
Definition HasPrefix (s prefix : string) : bool := String.prefix prefix s.

(** [strings.HasSuffix(s, suffix)] *)
Definition HasSuffix (s suffix : string) : bool :=
  (String.length suffix <=? String.length s)%nat
  && String.eqb (skip (String.length s - String.length suffix) s) suffix.

(** [strings.Index(s, substr)]: the first position, or -1. *)
Fixpoint Index (s substr : string) : Z :=
  if HasPrefix s substr then 0
  else match s with
       | EmptyString => -1
       | String _ s' => let r := Index s' substr in
                        if r <? 0 then -1 else r + 1
       end.

(** [strings.Contains(s, substr)] is [Index(s, substr) >= 0]. *)
Definition Contains (s substr : string) : bool := 0 <=? Index s substr.

(** [strings.LastIndex(s, substr)]: the last position, or -1. *)
Fixpoint LastIndex (s substr : string) : Z :=
  match s with
  | EmptyString => if HasPrefix s substr then 0 else -1
  | String _ s' => let r := LastIndex s' substr in
                   if 0 <=? r then r + 1
                   else if HasPrefix s substr then 0 else -1
  end.

(** [strings.Replace(s, old, new, 1)]: the first occurrence of [old]
    is replaced. *)
Fixpoint Replace1 (s old new : string) : string :=
  if HasPrefix s old then new +:+ skip (String.length old) s
  else match s with
       | EmptyString => EmptyString
       | String c s' => String c (Replace1 s' old new)
       end.

(** The UTF-8 encodings of the runes for which [unicode.IsSpace] holds:
    U+0009..U+000D, U+0020, U+0085, U+00A0, U+1680, U+2000..U+200A,
    U+2028, U+2029, U+202F, U+205F, U+3000. *)
Definition space_runes : list string :=
  [ byte 9; byte 10; byte 11; byte 12; byte 13; byte 32;
    byte 194 +:+ byte 133; byte 194 +:+ byte 160;
    byte 225 +:+ byte 154 +:+ byte 128 ]
  ++ map (fun k => byte 226 +:+ byte 128 +:+ byte (128 + k)) (seq 0 11)
  ++ [ byte 226 +:+ byte 128 +:+ byte 168; byte 226 +:+ byte 128 +:+ byte 169;
       byte 226 +:+ byte 128 +:+ byte 175; byte 226 +:+ byte 129 +:+ byte 159;
       byte 227 +:+ byte 128 +:+ byte 128 ].

(** One leading white-space rune removed, when there is one.  [runes]
    is [space_runes], or its byte-reversed form when trimming the end
    of a reversed string. *)
Fixpoint strip_rune (runes : list string) (s : string) : option string :=
  match runes with
  | [] => None
  | e :: runes' => if HasPrefix s e then Some (skip (String.length e) s)
                   else strip_rune runes' s
  end.

Fixpoint trim_left (runes : list string) (fuel : nat) (s : string) : string :=
  match fuel with
  | O => s
  | S fuel' => match strip_rune runes s with
               | Some s' => trim_left runes fuel' s'
               | None => s
               end
  end.

(** [strings.TrimSpace(s)]: leading and trailing white-space runes
    removed. *)
Definition TrimSpace (s : string) : string :=
  let l := trim_left space_runes (String.length s) s in
  String.rev (trim_left (map String.rev space_runes) (String.length l) (String.rev l)).

(** [filepath.Base(path)] with [/] as the only separator. *)
Fixpoint strip_slashes (rev_path : string) : string :=
  match rev_path with
  | String "/" p => strip_slashes p
  | _ => rev_path
  end.

Fixpoint until_slash (rev_path : string) : string :=
  match rev_path with
  | EmptyString => EmptyString
  | String c p => if Ascii.eqb c "/" then EmptyString else String c (until_slash p)
  end.

Definition Base (path : string) : string :=
  if String.eqb path "" then "."
  else let p := strip_slashes (String.rev path) in
       if String.eqb p "" then "/"
       else String.rev (until_slash p).

(** The verb [%d] of [fmt] on an [int]. *)
Definition fmt_d (n : Z) : string := pretty n.

End GoStrings.

Import GoStrings.

(** ** [bufio.Scanner] with the default [ScanLines] split function *)

Module Bufio.

(** [bufio.MaxScanTokenSize] *)
Definition MaxScanTokenSize : Z := 64 * 1024.

(** The input cut at every line feed; a final line without line feed
    is a line when it is not empty. *)
Fixpoint split_LF (cur : string) (s : string) : list string :=
  match s with
  | EmptyString => if String.eqb cur "" then [] else [cur]
  | String c s' => if Ascii.eqb c LF then cur :: split_LF "" s'
                   else split_LF (cur +:+ String c "") s'
  end.

(** [dropCR]: one trailing carriage return removed. *)
Definition dropCR (line : string) : string :=
  if HasSuffix line (String CR "")
  then keep (String.length line - 1) line else line.

(** The lines up to the first one that does not fit the buffer: there
    [Scan] reports [ErrTooLong] and the loop [for scanner.Scan()]
    ends. *)
Fixpoint fitting (lines : list string) : list string :=
  match lines with
  | [] => []
  | l :: lines' => if len l <? MaxScanTokenSize then l :: fitting lines' else []
  end.

(** The successive values of [scanner.Text()] in
    [for scanner.Scan() { ... }] over [strings.NewReader(content)]. *)
Definition ScanLines (content : string) : list string :=
  map dropCR (fitting (split_LF "" content)).

End Bufio.

Import Bufio.

(** ** The environment of a download session *)

(** What [d.client.Do(req)] gives back.  [body] is what reading
    [resp.Body] delivers; [copy_err] is the error, if any, with which
    streaming that body into an open sink ends (a failed read of the
    body, or a failed write). *)
Inductive HttpResult :=
| DoError (err : string)
| Response (status : Z) (body : string) (copy_err : option string).

Record Env := {
  (** the error of [http.NewRequest("GET", url, nil)], if the URL does
      not parse *)
  new_request_error : string -> option string;
  (** the result of the n-th call of [d.client.Do], for the URL asked *)
  client_do : nat -> string -> HttpResult;
  (** whether another goroutine calls [d.Close()] at the n-th point
      where the session can observe it *)
  close_called : nat -> bool
}.

(** The lines written through [d.logger], one constructor per call. *)
Inductive logline :=
| LogStarting
| LogOutputFile (name : string)
| LogStopped
| LogRetry (retryCount : Z) (err : string)
| LogCompleted
| LogChunkFailed (err : string)
| LogFoundPlaylist (playlistPath : string)
| LogFoundSegments (n : Z)
| LogSwitching
| LogNewURL (replayURL : string)
| LogDownloadFailed (err : string).

(** What a session does, in order.  [EvAcquire] and [EvMarked] record
    the call [d.downloadChunk(chunkURL)] made for [chunk] by
    [processChunks] and the assignment [d.seenChunks[chunk] = true]. *)
Inductive event :=
| EvLog (l : logline)
| EvGet (url : string)
| EvSleep (duration : Z)
| EvAcquire (chunk chunkURL : string)
| EvMarked (chunk : string).

(** The output file ([*os.File]): closing a closed file and writing to
    it fail with "file already closed". *)
Record File := {
  f_name : string;
  f_data : string;
  f_closed : bool;
  f_close_calls : nat
}.

(** [d.writer]: nil, or the output file of the session.  The file
    itself lives in the world, [main] holds a second reference to it. *)
Inductive FileWriter := nilWriter | fileWriter.

(** [d.stopChan]; nothing is ever sent on it. *)
Inductive chan := Open | Closed.

Record HLSDownloader := {
  baseURL : string;
  writer : FileWriter;
  seenChunks : gmap string bool;
  isCompleted : bool;
  stopChan : chan
}.

Record World := {
  dl : HLSDownloader;
  sink : File;
  trace : list event;
  calls : nat;
  ticks : nat
}.

Definition set_baseURL (b : string) (d : HLSDownloader) : HLSDownloader :=
  {| baseURL := b; writer := writer d; seenChunks := seenChunks d;
     isCompleted := isCompleted d; stopChan := stopChan d |}.

Definition set_seenChunks (m : gmap string bool) (d : HLSDownloader) : HLSDownloader :=
  {| baseURL := baseURL d; writer := writer d; seenChunks := m;
     isCompleted := isCompleted d; stopChan := stopChan d |}.

Definition set_isCompleted (b : bool) (d : HLSDownloader) : HLSDownloader :=
  {| baseURL := baseURL d; writer := writer d; seenChunks := seenChunks d;
     isCompleted := b; stopChan := stopChan d |}.

Definition set_stopChan (c : chan) (d : HLSDownloader) : HLSDownloader :=
  {| baseURL := baseURL d; writer := writer d; seenChunks := seenChunks d;
     isCompleted := isCompleted d; stopChan := c |}.

Definition with_dl (f : HLSDownloader -> HLSDownloader) (w : World) : World :=
  {| dl := f (dl w); sink := sink w; trace := trace w; calls := calls w; ticks := ticks w |}.

Definition with_sink (f : File -> File) (w : World) : World :=
  {| dl := dl w; sink := f (sink w); trace := trace w; calls := calls w; ticks := ticks w |}.

Definition emit (e : event) (w : World) : World :=
  {| dl := dl w; sink := sink w; trace := trace w ++ [e]; calls := calls w; ticks := ticks w |}.

Definition log (l : logline) : World -> World := emit (EvLog l).

Definition sleep (duration : Z) : World -> World := emit (EvSleep duration).

Definition called (url : string) (w : World) : World :=
  {| dl := dl w; sink := sink w; trace := trace w ++ [EvGet url];
     calls := S (calls w); ticks := ticks w |}.

Definition tick (w : World) : World :=
  {| dl := dl w; sink := sink w; trace := trace w; calls := calls w; ticks := S (ticks w) |}.

(** [d.seenChunks[chunk]]: false for a missing key. *)
Definition seen (d : HLSDownloader) (chunk : string) : bool :=
  default false (seenChunks d !! chunk).

(** The result of a method: it returns, panics, or the model runs out of
    fuel.  The world reached is kept in every case. *)
Inductive Outcome (A : Type) :=
| Ret (a : A) (w : World)
| Panic (w : World)
| OutOfFuel (w : World).
Arguments Ret {A} a w.
Arguments Panic {A} w.
Arguments OutOfFuel {A} w.

Definition M (A : Type) : Type := World -> Outcome A.

Definition ret {A} (a : A) : M A := fun w => Ret a w.

Definition bind {A B} (m : M A) (k : A -> M B) : M B :=
  fun w => match m w with
           | Ret a w' => k a w'
           | Panic w' => Panic w'
           | OutOfFuel w' => OutOfFuel w'
           end.

Notation "'let!' x ':=' m 'in' k" := (bind m (fun x => k))
  (at level 10, x name, m at level 100, k at level 200).
Notation "'run!' m 'in' k" := (bind m (fun _ => k))
  (at level 10, m at level 100, k at level 200).

Definition world_of {A} (o : Outcome A) : World :=
  match o with Ret _ w | Panic w | OutOfFuel w => w end.

(** A Go [error]: nil, or its [Error()] text. *)
Definition error : Type := option string.

(** ** Constants *)

Definition Second : Z := 1000000000.
Definition MAX_RETRIES : Z := 10.
Definition RETRY_INTERVAL : Z := 5 * Second.
Definition CHUNK_INTERVAL : Z := 3 * Second.
Definition StatusOK : Z := 200.

(** [fmt.Errorf("HTTP error: %d, Body: %s", status, body)] *)
Definition http_error (status : Z) (body : string) : string :=
  "HTTP error: " +:+ fmt_d status +:+ ", Body: " +:+ body.

(** [fmt.Sprintf("%s/%s", base, ref)] *)
Definition join_url (base ref : string) : string := base +:+ "/" +:+ ref.

Definition no_segments_error : string := "No audio segments or valid playlist found".

(** ** [Close] *)

(** [close(c)] panics on a closed channel. *)
Definition close_chan (c : chan) : option chan :=
  match c with Open => Some Closed | Closed => None end.

(** [Close] of [os.File] *)
Definition file_Close (f : File) : File :=
  {| f_name := f_name f; f_data := f_data f; f_closed := true;
     f_close_calls := S (f_close_calls f) |}.

Definition Close : M unit := fun w =>
  let closed :=
    match stopChan (dl w) with
    | Closed => Some Closed               (* case <-d.stopChan *)
    | Open => close_chan (stopChan (dl w)) (* default *)
    end in
  match closed with
  | None => Panic w
  | Some c =>
      let w1 := with_dl (set_stopChan c) w in
      match writer (dl w1) with
      | nilWriter => Ret tt w1
      | fileWriter => Ret tt (with_sink file_Close w1)
      end
  end.

(** A point where a [Close] called by another goroutine takes effect. *)
Definition yield (env : Env) : M unit := fun w =>
  if close_called env (ticks w) then Close (tick w) else Ret tt (tick w).

(** ** [getPlaylist] *)

(** The state of the first scan: the segments collected, [isChunk], and
    [d.isCompleted]. *)
Definition scan_line (st : list string * bool * bool) (text : string)
  : list string * bool * bool :=
  let '(chunks, isChunk, completed) := st in
  let line := TrimSpace text in
  if String.eqb line "" then st
  else if HasPrefix line "#EXTINF:" then (chunks, true, completed)
  else
    let '(chunks1, isChunk1) :=
      if isChunk && negb (HasPrefix line "#")
      then (chunks ++ [line], false) else (chunks, isChunk) in
    (chunks1, isChunk1, if Contains line "#EXT-X-ENDLIST" then true else completed).

Definition scan_segments (lines : list string) (completed : bool)
  : list string * bool * bool :=
  fold_left scan_line lines ([], false, completed).

(** Lines 284-295: the base URL and the segment names when the first
    segment is an absolute URL. *)
Definition rebase (base : string) (chunks : list string) : string * list string :=
  match chunks with
  | [] => (base, chunks)
  | firstChunk :: _ =>
      if HasPrefix firstChunk "http" then
        let lastSlashIndex := LastIndex firstChunk "/" in
        if negb (lastSlashIndex =? -1)
        then (keep (Z.to_nat lastSlashIndex) firstChunk, map Base chunks)
        else (base, chunks)
      else (base, chunks)
  end.

(** The second scan: the first line that names a nested playlist. *)
Fixpoint find_playlist (lines : list string) : option string :=
  match lines with
  | [] => None
  | text :: lines' =>
      let line := TrimSpace text in
      if HasSuffix line ".m3u8" && negb (Contains line "master_playlist")
      then Some line else find_playlist lines'
  end.

Fixpoint getPlaylist (env : Env) (fuel : nat) (playlistURL : string) (w : World)
  : Outcome (list string + string) :=
  match fuel with
  | O => OutOfFuel w
  | S fuel' =>
    match new_request_error env playlistURL with
    | Some err => Ret (inr err) w
    | None =>
      let w1 := called playlistURL w in
      match client_do env (calls w) playlistURL with
      | DoError err => Ret (inr err) w1
      | Response status content _ =>
        if negb (status =? StatusOK) then Ret (inr (http_error status content)) w1
        else
          let '(chunks, _, completed) :=
            scan_segments (ScanLines content) (isCompleted (dl w1)) in
          let w2 := with_dl (set_isCompleted completed) w1 in
          let '(base, chunks) := rebase (baseURL (dl w2)) chunks in
          let w3 := with_dl (set_baseURL base) w2 in
          match chunks with
          | [] =>
              match find_playlist (ScanLines content) with
              | Some line =>
                  let playlistPath :=
                    if HasPrefix line "http" then line
                    else join_url (baseURL (dl w3)) line in
                  getPlaylist env fuel' playlistPath
                              (log (LogFoundPlaylist playlistPath) w3)
              | None => Ret (inr no_segments_error) w3
              end
          | _ :: _ =>
              Ret (inl chunks) (log (LogFoundSegments (Z.of_nat (length chunks))) w3)
          end
      end
    end
  end.

(** ** [downloadChunk] and [processChunks] *)

(** [io.Copy(d.writer, resp.Body)]: nothing is written for an empty
    body; a nil writer panics at the first write. *)
Definition io_Copy (body : string) (copy_err : error) : M error := fun w =>
  if String.eqb body "" then Ret copy_err w
  else match writer (dl w) with
       | nilWriter => Panic w
       | fileWriter =>
           if f_closed (sink w)
           then Ret (Some ("write " +:+ f_name (sink w) +:+ ": file already closed")) w
           else Ret copy_err
                    (with_sink (fun f => {| f_name := f_name f;
                                            f_data := f_data f +:+ body;
                                            f_closed := f_closed f;
                                            f_close_calls := f_close_calls f |}) w)
       end.

Definition downloadChunk (env : Env) (chunkURL : string) : M error := fun w =>
  match new_request_error env chunkURL with
  | Some err => Ret (Some err) w
  | None =>
    let w1 := called chunkURL w in
    match client_do env (calls w) chunkURL with
    | DoError err => Ret (Some err) w1
    | Response status body copy_err =>
      if negb (status =? StatusOK) then Ret (Some (http_error status body)) w1
      else (run! yield env in io_Copy body copy_err) w1
    end
  end.

Fixpoint processChunks (env : Env) (chunks : list string) : M error :=
  match chunks with
  | [] => ret None
  | chunk :: rest =>
    run! yield env in
    fun w =>
      match stopChan (dl w) with
      | Closed => Ret None w
      | Open =>
        if seen (dl w) chunk then processChunks env rest w
        else
          let chunkURL := join_url (baseURL (dl w)) chunk in
          (let! err := downloadChunk env chunkURL in
           match err with
           | Some e =>
               if Contains e "file already closed" then ret None
               else fun w' => processChunks env rest (log (LogChunkFailed e) w')
           | None =>
               fun w' => processChunks env rest
                 (emit (EvMarked chunk)
                    (with_dl (fun d => set_seenChunks (<[chunk := true]> (seenChunks d)) d) w'))
           end) (emit (EvAcquire chunk chunkURL) w)
      end
  end.

(** ** [switchToReplay] and [Start] *)

Definition switchToReplay (playlistURL : string) : M string := fun w =>
  let replayURL := Replace1 playlistURL "type=live" "type=replay" in
  let replayURL :=
    if Contains replayURL "dynamic_playlist.m3u8"
    then Replace1 replayURL "dynamic_playlist.m3u8" "master_playlist.m3u8"
    else replayURL in
  let w1 := log (LogNewURL replayURL) (log LogSwitching w) in
  match slice_to replayURL (LastIndex replayURL "/") with
  | None => Panic w1
  | Some base => Ret replayURL (with_dl (set_baseURL base) w1)
  end.

Definition retries_exceeded (err : string) : string :=
  "Failed to get playlist, exceeded max retries: " +:+ err.

(** The loop [for !d.isCompleted { ... }]; [retryCount] stays within
    0..10 at the head of the loop. *)
Fixpoint Start_loop (env : Env) (fuel : nat) (playlistURL : string)
         (retryCount : Z) (hasTriedReplay : bool) (w : World) : Outcome error :=
  match fuel with
  | O => OutOfFuel w
  | S fuel' =>
    if isCompleted (dl w) then Ret None (log LogCompleted w)
    else
      (run! yield env in
       fun w =>
         match stopChan (dl w) with
         | Closed => Ret None (log LogStopped w)
         | Open =>
           (let! got := getPlaylist env fuel playlistURL in
            match got with
            | inr err =>
              if Contains err "No audio segments found" && negb hasTriedReplay then
                let! playlistURL := switchToReplay playlistURL in
                Start_loop env fuel' playlistURL 0 true
              else
                let retryCount := retryCount + 1 in
                if retryCount >? MAX_RETRIES then ret (Some (retries_exceeded err))
                else fun w =>
                  Start_loop env fuel' playlistURL retryCount hasTriedReplay
                    (sleep RETRY_INTERVAL (log (LogRetry retryCount err) w))
            | inl chunks =>
              let! err := processChunks env chunks in
              match err with
              | Some e => ret (Some e)
              | None => fun w =>
                  Start_loop env fuel' playlistURL 0 hasTriedReplay
                    (if isCompleted (dl w) then w else sleep CHUNK_INTERVAL w)
              end
            end) w
         end) w
  end.

Definition Start (env : Env) (fuel : nat) (playlistURL : string) : M error := fun w =>
  match slice_to playlistURL (LastIndex playlistURL "/") with
  | None => Panic w
  | Some base =>
    let w1 := log LogStarting (with_dl (set_baseURL base) w) in
    match writer (dl w1) with
    | nilWriter => Panic w1
    | fileWriter => Start_loop env fuel playlistURL 0 false
                      (log (LogOutputFile (f_name (sink w1))) w1)
    end
  end.

(** ** [NewHLSDownloader] and the end of [main] *)

Definition NewHLSDownloader (writer : FileWriter) : HLSDownloader :=
  {| baseURL := ""; writer := writer; seenChunks := ∅;
     isCompleted := false; stopChan := Open |}.

(** The world after [CreateFileWriter] and [NewHLSDownloader] in [main]. *)
Definition new_session (fileName : string) : World :=
  {| dl := NewHLSDownloader fileWriter;
     sink := {| f_name := fileName; f_data := ""; f_closed := false; f_close_calls := 0 |};
     trace := []; calls := 0; ticks := 0 |}.

Inductive ExitStatus := Exit0 | Exit1 | Crashed | Running.

(** The deferred calls of [main], last one first: [downloader.Close()],
    then [writer.Close()]. *)
Definition run_deferred (w : World) : World :=
  with_sink file_Close (world_of (Close w)).

(** Lines 580-595 of [main]: [os.Exit(1)] does not run the deferred
    calls; a normal return and a panic do. *)
Definition main_download (env : Env) (fuel : nat) (playlistURL fileName : string)
  : ExitStatus * World :=
  match Start env fuel playlistURL (new_session fileName) with
  | Ret (Some err) w => (Exit1, log (LogDownloadFailed err) w)
  | Ret None w => (Exit0, run_deferred w)
  | Panic w => (Crashed, run_deferred w)
  | OutOfFuel w => (Running, w)
  end.

(** * Vocabulary of the properties, and concrete sessions *)

(** ** Traces, ledgers and what a session may change *)

(** Whether the byte [c] occurs in [s]. *)
Fixpoint has_byte (c : ascii) (s : string) : bool :=
  match s with
  | EmptyString => false
  | String a s' => Ascii.eqb a c || has_byte c s'
  end.

(** The ledger after the events [t], provided every acquisition in [t]
    is of a segment that is not marked at that moment. *)
Fixpoint ledger_run (m : gmap string bool) (t : list event) : option (gmap string bool) :=
  match t with
  | [] => Some m
  | EvAcquire r _ :: t' => if default false (m !! r) then None else ledger_run m t'
  | EvMarked r :: t' => ledger_run (<[r := true]> m) t'
  | _ :: t' => ledger_run m t'
  end.

(** The number of switches to replay mode announced in [t]. *)
Fixpoint switches (t : list event) : nat :=
  match t with
  | [] => O
  | EvLog LogSwitching :: t' => S (switches t')
  | _ :: t' => switches t'
  end.

(** The number of requests sent in [t]. *)
Fixpoint requests (t : list event) : nat :=
  match t with
  | [] => O
  | EvGet _ :: t' => S (requests t')
  | _ :: t' => requests t'
  end.

(** Nobody calls [Close] while the session runs, as in [main]. *)
Definition never_closed (env : Env) : Prop := forall n, close_called env n = false.

(** [evolves env k w w']: [w'] is reached from [w] by appending events
    that respect the ledger and announce at most [k] switches, without
    touching what no method touches. *)
Definition evolves (env : Env) (k : nat) (w w' : World) : Prop :=
  exists t,
    trace w' = trace w ++ t
    /\ ledger_run (seenChunks (dl w)) t = Some (seenChunks (dl w'))
    /\ (switches t <= k)%nat
    /\ calls w' = (calls w + requests t)%nat
    /\ writer (dl w') = writer (dl w)
    /\ f_name (sink w') = f_name (sink w)
    /\ (isCompleted (dl w) = true -> isCompleted (dl w') = true)
    /\ (stopChan (dl w) = Closed -> stopChan (dl w') = Closed)
    /\ (f_closed (sink w) = true -> f_closed (sink w') = true)
    /\ (never_closed env ->
        stopChan (dl w') = stopChan (dl w) /\ f_closed (sink w') = f_closed (sink w)
        /\ f_close_calls (sink w') = f_close_calls (sink w)).

(** From [w] to [w']: no segment marked in [w] is acquired, no segment
    is acquired after it has been marked, and the ledger only grows. *)
Definition dedup_respected (w w' : World) : Prop :=
  exists t,
    trace w' = trace w ++ t
    /\ (forall r u, seen (dl w) r = true -> ~ In (EvAcquire r u) t)
    /\ (forall t1 r t2 u, t = t1 ++ EvMarked r :: t2 -> ~ In (EvAcquire r u) t2)
    /\ (forall r, seen (dl w) r = true -> seen (dl w') r = true)
    /\ (forall r, In (EvMarked r) t -> seen (dl w') r = true).

(** ** One fetch *)

(** The world after the response has been scanned: lines 245-295. *)
Definition scanned (url : string) (completed : bool) (base : string) (w : World) : World :=
  with_dl (set_baseURL base) (with_dl (set_isCompleted completed) (called url w)).

(** The URL of the nested playlist named by [line]: lines 302-305. *)
Definition nested_path (base line : string) : string :=
  if HasPrefix line "http" then line else join_url base line.

(** A raw line as the scanning loop sees it. *)
Definition line_text (raw : string) : string := TrimSpace (dropCR raw).

(** The raw lines of a manifest made of announcement/reference pairs. *)
Definition pair_lines (pairs : list (string * string)) : list string :=
  flat_map (fun p => [fst p; snd p]) pairs.

(** The references of the pairs, as the scanning loop sees them. *)
Definition references (pairs : list (string * string)) : list string :=
  map (fun p => line_text (snd p)) pairs.

(** [n] times the byte [c]. *)
Fixpoint replicate_byte (n : nat) (c : ascii) : string :=
  match n with O => EmptyString | S n' => String c (replicate_byte n' c) end.

(** ** Failed attempts *)

(** The error with which a fetch fails before any line is scanned: the
    client fails, or the status is not 200. *)
Definition transient_error (r : HttpResult) : option string :=
  match r with
  | DoError err => Some err
  | Response status body _ =>
      if negb (status =? StatusOK) then Some (http_error status body) else None
  end.

(** The fetches of [url] numbered [n], [n+1], ... fail with [errs]. *)
Fixpoint fetches_fail (env : Env) (url : string) (n : nat) (errs : list string) : Prop :=
  match errs with
  | [] => True
  | e :: errs' => transient_error (client_do env n url) = Some e
                  /\ fetches_fail env url (S n) errs'
  end.

(** One failed attempt that is retried: the request, the error line,
    the wait. *)
Definition retry_step (url : string) (retryCount : Z) (err : string) (w : World) : World :=
  sleep RETRY_INTERVAL (log (LogRetry retryCount err) (called url (tick w))).

(** The world after the failed attempts [errs], all retried. *)
Fixpoint after_retries (url : string) (retryCount : Z) (errs : list string) (w : World)
  : World :=
  match errs with
  | [] => w
  | e :: errs' => after_retries url (retryCount + 1) errs'
                                (retry_step url (retryCount + 1) e w)
  end.

(** What these attempts add to the trace. *)
Fixpoint retry_trace (url : string) (retryCount : Z) (errs : list string) : list event :=
  match errs with
  | [] => []
  | e :: errs' => [EvGet url; EvLog (LogRetry (retryCount + 1) e); EvSleep RETRY_INTERVAL]
                  ++ retry_trace url (retryCount + 1) errs'
  end.

(** From [w] to [w'], at most [k] switches to replay mode are announced. *)
Definition switched_at_most (k : nat) (w w' : World) : Prop :=
  exists t, trace w' = trace w ++ t /\ (switches t <= k)%nat.

(** ** Concrete sessions *)

(** The environment in which the n-th request is answered by the n-th
    element of [answers], nobody cancels and every URL parses. *)
Definition script (answers : list HttpResult) : Env :=
  {| new_request_error := fun _ => None;
     client_do := fun n _ => nth n answers (DoError "connection refused");
     close_called := fun _ => false |}.

(** A manifest text: every line followed by a line feed. *)
Fixpoint manifest (lines : list string) : string :=
  match lines with
  | [] => EmptyString
  | l :: lines' => l +:+ String LF (manifest lines')
  end.

(** A response with status 200 whose body streams without error. *)
Definition ok (body : string) : HttpResult := Response StatusOK body None.

(** The playlist URL of the scenarios of the specification. *)
Definition live_url : string := "https://h/a/type=live/dynamic_playlist.m3u8?x=1".

(** The value returned, when the method returns. *)
Definition result {A} (o : Outcome A) : option A :=
  match o with Ret a _ => Some a | _ => None end.

(** One segment, then the end of the list. *)
Definition complete_manifest : string :=
  manifest ["#EXTINF:1"; "seg1.aac"; "#EXT-X-ENDLIST"].

(** Two fetches that find no segments, then the complete manifest. *)
Definition two_empty_manifests : Env :=
  script [ok ""; ok ""; ok complete_manifest; ok "data"].

(** An error the driver takes for "no segments", then a manifest
    without segments at the replay URL, then the complete manifest. *)
Definition empty_after_replay : Env :=
  script [DoError "No audio segments found"; ok ""; ok complete_manifest; ok "data"].

(** [live_url] as [switchToReplay] rewrites it. *)
Definition replay_url : string := "https://h/a/type=replay/master_playlist.m3u8?x=1".

(** The session of [empty_after_replay] when it has switched to replay
    mode. *)
Definition after_switch : World :=
  with_dl (set_baseURL "https://h/a/type=replay")
    (log (LogNewURL replay_url)
       (log LogSwitching
          (called live_url
             (tick (log (LogOutputFile "out.aac")
                      (log LogStarting
                         (with_dl (set_baseURL "https://h/a/type=live")
                                  (new_session "out.aac")))))))).

(** A manifest that only names the master playlist. *)
Definition only_master : Env :=
  script [ok (manifest ["#EXTM3U"; "master_playlist.m3u8"]);
          ok (manifest ["#EXTINF:1"; "seg1.aac"])].

(** A manifest that names the master playlist, then two other
    playlists. *)
Definition two_playlists : Env :=
  script [ok (manifest ["#EXTM3U"; "master_playlist.m3u8"; "a.m3u8"; "b.m3u8"]);
          ok (manifest ["#EXTINF:1"; "seg1.aac"])].

(** A new session whose base URL is set. *)
Definition based : World := with_dl (set_baseURL "https://h/a") (new_session "out.aac").

(** A manifest that names another playlist. *)
Definition nested : Env :=
  script [ok (manifest ["#EXTM3U"; "playlist_16.m3u8"]);
          ok (manifest ["#EXTINF:1"; "seg1.aac"])].

(** The end-of-list marker on an [#EXTINF:] line. *)
Definition endlist_on_announcement : Env :=
  script [ok (manifest ["#EXTINF:1,#EXT-X-ENDLIST"; "seg1.aac"])].

(** A relative reference first, an absolute one second. *)
Definition absolute_second : Env :=
  script [ok (manifest ["#EXTINF:1"; "seg1.aac"; "#EXTINF:1"; "http://cdn/x/seg2.aac"])].

(** Absolute references, and the end of the list. *)
Definition absolute_segments : Env :=
  script [ok (manifest ["#EXTINF:1"; "http://cdn/x/seg1.aac";
                        "#EXTINF:1"; "http://cdn/x/seg2.aac"; "#EXT-X-ENDLIST"])].

(** Two polls; the second manifest lists the first segment again. *)
Definition growing_manifest : Env :=
  script [ok (manifest ["#EXTINF:1"; "seg1.aac"]); ok "d1";
          ok (manifest ["#EXTINF:1"; "seg1.aac"; "#EXTINF:1"; "seg2.aac"; "#EXT-X-ENDLIST"]);
          ok "d2"].

(** Two segments, no end of list. *)
Definition two_segments : Env :=
  script [ok (manifest ["#EXTINF:1"; "seg1.aac"; "#EXTINF:1"; "seg2.aac"])].

(** Every request fails. *)
Definition unreachable : Env := script [].

(** One pair whose announcement line is as long as the scanner's
    buffer. *)
Definition long_announcement : string :=
  "#EXTINF:" +:+ replicate_byte (Z.to_nat MaxScanTokenSize) "a".

(** That pair as a manifest. *)
Definition long_manifest : string :=
  long_announcement +:+ String LF ("seg1.aac" +:+ String LF "").

(** Every request is answered by [long_manifest]. *)
Definition overlong_line : Env :=
  {| new_request_error := fun _ => None;
     client_do := fun _ _ => Response StatusOK long_manifest None;
     close_called := fun _ => false |}.

(** ** Vocabulary of the further properties *)

(** The method does not panic. *)
Definition no_panic {A} (o : Outcome A) : Prop :=
  match o with Panic _ => False | _ => True end.

(** [accounted env w w']: from [w] to [w'] the output file has only
    been appended to (not at all once closed), and every mark put in
    the ledger follows a request for that segment that was answered
    with status 200 and streamed without error. *)
Definition accounted (env : Env) (w w' : World) : Prop :=
  exists t d,
    trace w' = trace w ++ t
    /\ (calls w <= calls w')%nat
    /\ f_data (sink w') = f_data (sink w) +:+ d
    /\ (f_closed (sink w) = true -> d = "")
    /\ (f_closed (sink w) = true -> f_closed (sink w') = true)
    /\ (forall r, In (EvMarked r) t ->
          exists n u body,
            (calls w <= n < calls w')%nat
            /\ client_do env n u = Response StatusOK body None
            /\ In (EvAcquire r u) t).

(** One refused request, then a manifest with one segment and the
    segment itself, then refused requests again. *)
Definition flaky : Env :=
  script [DoError "connection refused"; ok (manifest ["#EXTINF:1"; "seg1.aac"]); ok "d1"].

(** The session of [flaky] after its successful fetch. *)
Definition flaky_fetched : World :=
  world_of (getPlaylist flaky 2 live_url
              (tick (after_retries live_url 0 ["connection refused"]
                                   (new_session "out.aac")))).

(** The same session after its segment has been processed. *)
Definition flaky_processed : World :=
  world_of (processChunks flaky ["seg1.aac"] flaky_fetched).

(** Every request is answered by a manifest that names a playlist and
    no segment. *)
Definition playlist_loop : Env :=
  {| new_request_error := fun _ => None;
     client_do := fun _ _ => ok (manifest ["#EXTM3U"; "loop.m3u8"]);
     close_called := fun _ => false |}.

(** An ended stream without any segment. *)
Definition ended_empty : Env := script [ok (manifest ["#EXTM3U"; "#EXT-X-ENDLIST"])].

(** ** [extractSpaceID] and the name of the output file *)

(** [strings.Split(s, sep)] for a non-empty [sep]: the parts of [s]
    between the successive occurrences of [sep], found from the left
    with [strings.Index].  There are at most [len(s)] occurrences. *)
Fixpoint Split_go (fuel : nat) (s sep : string) : list string :=
  match fuel with
  | O => [s]
  | S fuel' =>
      let m := Index s sep in
      if m <? 0 then [s]
      else keep (Z.to_nat m) s
           :: Split_go fuel' (skip (Z.to_nat m + String.length sep) s) sep
  end.

Definition Split (s sep : string) : list string := Split_go (String.length s) s sep.

(** [strings.ReplaceAll(s, old, new)] for a non-empty [old]: every
    occurrence found from the left is replaced. *)
Fixpoint ReplaceAll_go (fuel : nat) (s old new : string) : string :=
  match fuel with
  | O => s
  | S fuel' =>
      let m := Index s old in
      if m <? 0 then s
      else keep (Z.to_nat m) s +:+ new
           +:+ ReplaceAll_go fuel' (skip (Z.to_nat m + String.length old) s) old new
  end.

Definition ReplaceAll (s old new : string) : string :=
  ReplaceAll_go (String.length s) s old new.

(** The index expression [a[i]]; [None] is the run-time panic "index
    out of range". *)
Definition index {A} (a : list A) (i : nat) : option A := nth_error a i.

(** [strings.Split(strings.Split(s, "/")[0], "?")[0]] *)
Definition first_path_element (s : string) : option string :=
  match index (Split s "/") 0 with
  | None => None
  | Some p => index (Split p "?") 0
  end.

(** [extractSpaceID]: lines 537-545.  [None] is a panic. *)
Definition extractSpaceID (spaceURL : string) : option string :=
  if Contains spaceURL "/spaces/" then
    let parts := Split spaceURL "/spaces/" in
    if (1 <? Z.of_nat (length parts)) then
      match index parts 1 with
      | None => None
      | Some p => first_path_element p
      end
    else Some ""
  else Some "".

(** The file name that [CreateFileWriter] passes to [os.Create]: lines
    151-158.  [None] is a panic. *)
Definition fileName_of (spaceURL : string) : option string :=
  let parts := Split spaceURL "/spaces/" in
  if (1 <? Z.of_nat (length parts)) then
    match index parts 1 with
    | None => None
    | Some p =>
        match first_path_element p with
        | None => None
        | Some spaceID => Some (ReplaceAll spaceID "-peek" "" +:+ ".aac")
        end
    end
  else Some "recording.aac".

(** The longest prefix of [s] without the byte [c]. *)
Fixpoint before (c : ascii) (s : string) : string :=
  match s with
  | EmptyString => EmptyString
  | String a s' => if Ascii.eqb a c then EmptyString else String a (before c s')
  end.

(** What follows the first occurrence of [sep] in [s]. *)
Definition after_first (sep s : string) : string :=
  skip (Z.to_nat (Index s sep) + String.length sep) s.

(** The space identifier of a URL: what follows the first [/spaces/],
    up to the next [/] or [?]. *)
Definition space_id (spaceURL : string) : string :=
  before "?" (before "/" (after_first "/spaces/" spaceURL)).

(** ** The API client: [FetchSpaceData] and [GetStreamURL] *)

(** What [json.Unmarshal] stores in an [interface{}]: nil, [bool],
    [float64] (kept as its text), [string], [[]interface{}] and
    [map[string]interface{}]. *)
#[warnings="-register-all"] Inductive JSON :=
| JNull
| JBool (b : bool)
| JNumber (literal : string)
| JString (s : string)
| JArray (items : list JSON)
| JObject (fields : gmap string JSON).

(** The type assertions [v.(string)], [v.(bool)] and
    [v.(map[string]interface{})] on the value found at a key, with the
    [ok] result: they fail on a missing key. *)
Definition as_string (v : option JSON) : option string :=
  match v with Some (JString s) => Some s | _ => None end.

Definition as_bool (v : option JSON) : option bool :=
  match v with Some (JBool b) => Some b | _ => None end.

Definition as_object (v : option JSON) : option (gmap string JSON) :=
  match v with Some (JObject m) => Some m | _ => None end.

(** What [api.client.Do(req)] gives back; [read_err] is the error of
    [io.ReadAll(resp.Body)], if any. *)
Inductive ApiResult :=
| ApiDoError (err : string)
| ApiResponse (status : Z) (body : string) (read_err : option string).

(** The network and the JSON decoder as the API client sees them.  The
    headers that [setHeaders] puts on every request come from the
    configuration and are the same for all requests. *)
Record ApiEnv := {
  (** the error of [http.NewRequest("GET", url, nil)], if any *)
  api_new_request_error : string -> option string;
  (** the result of the n-th call of [api.client.Do], for the URL asked *)
  api_do : nat -> string -> ApiResult;
  (** [json.Unmarshal(body, &result)] with [result] a
      [map[string]interface{}]: its error, or the map *)
  json_Unmarshal : string -> string + gmap string JSON
}.

(** The requests sent so far, oldest first. *)
Definition ApiWorld : Type := list string.

(** The double quote. *)
Definition dq : string := String (ascii_of_nat 34) "".

(** The strings of [parts] with [sep] between them. *)
Fixpoint join_with (sep : string) (parts : list string) : string :=
  match parts with
  | [] => EmptyString
  | [p] => p
  | p :: parts' => p +:+ sep +:+ join_with sep parts'
  end.

(** A line of a raw string, given as the texts between its double
    quotes. *)
Definition quoted (texts : list string) : string := join_with dq texts.

(** The lines of a raw string. *)
Definition unlines (lines : list string) : string := join_with (String LF "") lines.

(** The raw string of lines 446-455 with [spaceID] in the place of
    [%s]. *)
Definition variables (spaceID : string) : string :=
  unlines
    [ "{";
      quoted ["        "; "id"; ": "; spaceID; ","];
      quoted ["        "; "isMetatagsQuery"; ": true,"];
      quoted ["        "; "withSuperFollowsUserFields"; ": true,"];
      quoted ["        "; "withDownvotePerspective"; ": false,"];
      quoted ["        "; "withReactionsMetadata"; ": false,"];
      quoted ["        "; "withReactionsPerspective"; ": false,"];
      quoted ["        "; "withSuperFollowsTweetFields"; ": true,"];
      quoted ["        "; "withReplays"; ": true"];
      "    }" ].

(** The raw string of lines 457-476. *)
Definition features : string :=
  unlines
    [ "{";
      quoted ["        "; "spaces_2022_h2_clipping"; ": true,"];
      quoted ["        "; "spaces_2022_h2_spaces_communities"; ": true,"];
      quoted ["        "; "responsive_web_twitter_blue_verified_badge_is_enabled"; ": true,"];
      quoted ["        "; "verified_phone_label_enabled"; ": false,"];
      quoted ["        "; "view_counts_public_visibility_enabled"; ": true,"];
      quoted ["        "; "longform_notetweets_consumption_enabled"; ": false,"];
      quoted ["        "; "tweetypie_unmention_optimization_enabled"; ": true,"];
      quoted ["        "; "responsive_web_uc_gql_enabled"; ": true,"];
      quoted ["        "; "vibe_api_enabled"; ": true,"];
      quoted ["        "; "responsive_web_edit_tweet_api_enabled"; ": true,"];
      quoted ["        "; "graphql_is_translatable_rweb_tweet_is_translatable_enabled"; ": true,"];
      quoted ["        "; "view_counts_everywhere_api_enabled"; ": true,"];
      quoted ["        "; "standardized_nudges_misinfo"; ": true,"];
      quoted ["        "; "tweet_with_visibility_results_prefer_gql_limited_actions_policy_enabled"; ": false,"];
      quoted ["        "; "responsive_web_graphql_timeline_navigation_enabled"; ": true,"];
      quoted ["        "; "interactive_text_enabled"; ": true,"];
      quoted ["        "; "responsive_web_text_conversations_enabled"; ": false,"];
      quoted ["        "; "responsive_web_enhance_cards_enabled"; ": false"];
      "    }" ].

(** [shouldEscape(c, encodeQueryComponent)] is false for letters,
    digits and [- _ . ~] only. *)
Definition unreserved (c : ascii) : bool :=
  let n := nat_of_ascii c in
  ((97 <=? n) && (n <=? 122) || (65 <=? n) && (n <=? 90) || (48 <=? n) && (n <=? 57)
   || (n =? 45) || (n =? 95) || (n =? 46) || (n =? 126))%nat.

Definition upperhex (n : nat) : ascii :=
  nth n (list_ascii_of_string "0123456789ABCDEF") "0"%char.

Definition escape_byte (c : ascii) : string :=
  if unreserved c then String c ""
  else if Ascii.eqb c " " then "+"
  else String "%" (String (upperhex (nat_of_ascii c / 16))
                          (String (upperhex (nat_of_ascii c mod 16)) "")).

(** [url.QueryEscape(s)] *)
Fixpoint QueryEscape (s : string) : string :=
  match s with
  | EmptyString => EmptyString
  | String c s' => escape_byte c +:+ QueryEscape s'
  end.

(** [url.Values]: the keys with their values, in the order in which the
    keys were first added. *)
Definition Values : Type := list (string * list string).

(** [v.Add(key, value)] *)
Fixpoint Values_Add (key value : string) (v : Values) : Values :=
  match v with
  | [] => [(key, [value])]
  | (k, vs) :: v' => if String.eqb k key then (k, vs ++ [value]) :: v'
                     else (k, vs) :: Values_Add key value v'
  end.

(** The entries sorted by key, as [slices.Sort(keys)] orders them. *)
Fixpoint insert_by_key (e : string * list string) (sorted : Values) : Values :=
  match sorted with
  | [] => [e]
  | e' :: sorted' => if String.leb (fst e) (fst e') then e :: sorted
                     else e' :: insert_by_key e sorted'
  end.

Definition sort_by_key (v : Values) : Values := fold_right insert_by_key [] v.

(** [v.Encode()] *)
Definition Values_Encode (v : Values) : string :=
  join_with "&"
    (flat_map (fun e => map (fun value => QueryEscape (fst e) +:+ "=" +:+ QueryEscape value)
                            (snd e))
              (sort_by_key v)).

(** The URL that [FetchSpaceData] requests: lines 478-483. *)
Definition space_data_url (spaceID : string) : string :=
  "https://twitter.com/i/api/graphql/xjTKygiBMpX44KU8ywLohQ/AudioSpaceById"
  +:+ "?" +:+ Values_Encode (Values_Add "features" features
                               (Values_Add "variables" (variables spaceID) [])).

(** The URL that [GetStreamURL] requests: line 404. *)
Definition stream_status_url (mediaKey : string) : string :=
  "https://twitter.com/i/api/1.1/live_video_stream/status/" +:+ mediaKey.

(** [FetchSpaceData]: lines 445-522.  The result is the metadata map or
    the text of the error. *)
Definition FetchSpaceData (api : ApiEnv) (spaceID : string) (w : ApiWorld)
  : (gmap string JSON + string) * ApiWorld :=
  let url := space_data_url spaceID in
  match api_new_request_error api url with
  | Some err => (inr err, w)
  | None =>
    let w1 := w ++ [url] in
    match api_do api (length w) url with
    | ApiDoError err => (inr ("Request failed: " +:+ err), w1)
    | ApiResponse _ body (Some err) => (inr ("Failed to read response: " +:+ err), w1)
    | ApiResponse _ body None =>
      match json_Unmarshal api body with
      | inl err => (inr ("Failed to parse JSON: " +:+ err), w1)
      | inr result =>
        match as_object (result !! "data") with
        | None => (inr "No data field in response", w1)
        | Some data =>
          match as_object (data !! "audioSpace") with
          | None => (inr "No audioSpace field in response", w1)
          | Some audioSpace =>
            match as_object (audioSpace !! "metadata") with
            | None => (inr "Unable to find metadata field", w1)
            | Some metadata => (inl metadata, w1)
            end
          end
        end
      end
    end
  end.

(** Lines 377-384: the state of the space. *)
Definition space_state (space : gmap string JSON) : option string :=
  match as_string (space !! "state") with
  | Some state => Some state
  | None => as_string (space !! "status")
  end.

(** Lines 386-389. *)
Definition isReplayAvailable (space : gmap string JSON) : bool :=
  match as_bool (space !! "is_space_available_for_replay") with
  | Some available => available
  | None => true
  end.

(** Lines 395-402: the media key. *)
Definition space_media_key (space : gmap string JSON) : option string :=
  match as_string (space !! "media_key") with
  | Some mediaKey => Some mediaKey
  | None => as_string (space !! "broadcast_id")
  end.

Definition ended_no_replay_error : string :=
  "[ERROR] Space has ended, and no replay is available".

(** Lines 404-442 of [GetStreamURL]: the request for the status of the
    stream and the location found in its answer. *)
Definition request_stream_status (api : ApiEnv) (mediaKey : string) (w : ApiWorld)
  : (string + string) * ApiWorld :=
  let apiURL := stream_status_url mediaKey in
  match api_new_request_error api apiURL with
  | Some err => (inr err, w)
  | None =>
    let w1 := w ++ [apiURL] in
    match api_do api (length w) apiURL with
    | ApiDoError err => (inr ("Request failed: " +:+ err), w1)
    | ApiResponse _ body (Some err) => (inr ("Failed to read response: " +:+ err), w1)
    | ApiResponse status body None =>
      if negb (status =? StatusOK) then (inr (http_error status body), w1)
      else
        match json_Unmarshal api body with
        | inl err => (inr ("Failed to parse JSON: " +:+ err), w1)
        | inr result =>
          match as_object (result !! "source") with
          | None => (inr "Invalid source format", w1)
          | Some source =>
            match as_string (source !! "location") with
            | None => (inr "Invalid location format", w1)
            | Some location => (inl location, w1)
            end
          end
        end
    end
  end.

(** [GetStreamURL]: lines 371-443.  The result is the location or the
    text of the error. *)
Definition GetStreamURL (api : ApiEnv) (spaceID : string) (w : ApiWorld)
  : (string + string) * ApiWorld :=
  match FetchSpaceData api spaceID w with
  | (inr err, w1) => (inr ("Failed to fetch Space data: " +:+ err), w1)
  | (inl space, w1) =>
    match space_state space with
    | None => (inr "Unable to find state information", w1)
    | Some state =>
      if String.eqb state "Ended" && negb (isReplayAvailable space)
      then (inr ended_no_replay_error, w1)
      else
        match space_media_key space with
        | None => (inr "Unable to find media key", w1)
        | Some mediaKey => request_stream_status api mediaKey w1
        end
    end
  end.

(** An API whose first answer is the metadata [space] and whose second
    answer is [status] with the location [location]; the bodies are the
    texts ["metadata"] and ["stream"]. *)
Definition api_of (space : gmap string JSON) (status : Z) (location : string) : ApiEnv :=
  {| api_new_request_error := fun _ => None;
     api_do := fun n _ => match n with
                          | O => ApiResponse StatusOK "metadata" None
                          | _ => ApiResponse status "stream" None
                          end;
     json_Unmarshal := fun body =>
       if String.eqb body "metadata"
       then inr {[ "data" := JObject {[ "audioSpace" :=
                     JObject {[ "metadata" := JObject space ]} ]} ]}
       else inr {[ "source" := JObject {[ "location" := JString location ]} ]} |}.

(** A running space, an ended space that cannot be replayed, and an
    ended space whose replay flag is missing. *)
Definition running_space : gmap string JSON :=
  {[ "state" := JString "Running"; "media_key" := JString "28_1" ]}.

Definition ended_space : gmap string JSON :=
  {[ "state" := JString "Ended"; "media_key" := JString "28_1";
     "is_space_available_for_replay" := JBool false ]}.

Definition ended_unflagged_space : gmap string JSON :=
  {[ "status" := JString "Ended"; "broadcast_id" := JString "1yN" ]}.

(** ** [main] *)

(** What [main] prints before it starts the download, when it gives up. *)
Inductive MainMessage :=
| MsgUsage
| MsgNoSpaceID
| MsgStreamURLFailed (err : string)
| MsgCreateFailed (err : string).

(** The world of [main]: the API, the network of the download, and the
    error of [os.Create] for a file name, if any. *)
Record MainEnv := {
  main_api : ApiEnv;
  main_net : Env;
  create_error : string -> option string
}.

Record MainResult := {
  exit_status : ExitStatus;
  message : option MainMessage;
  (** the requests sent to the API *)
  api_requests : ApiWorld;
  (** the name of the file created by [os.Create] *)
  created : option string;
  (** the session of the download, when it was started *)
  session : option World
}.

Definition gave_up (msg : MainMessage) (api_requests : ApiWorld) : MainResult :=
  {| exit_status := Exit1; message := Some msg; api_requests := api_requests;
     created := None; session := None |}.

Definition crashed (api_requests : ApiWorld) : MainResult :=
  {| exit_status := Crashed; message := None; api_requests := api_requests;
     created := None; session := None |}.

(** [main]: lines 547-596, for the command line [args] ([os.Args]).
    [CreateHTTPClient] parses the constant [PROXY_URL] and does not
    fail. *)
Definition main (env : MainEnv) (fuel : nat) (args : list string) : MainResult :=
  if negb (Z.of_nat (length args) =? 2) then gave_up MsgUsage []
  else
    match index args 1 with
    | None => crashed []
    | Some spaceURL =>
      match extractSpaceID spaceURL with
      | None => crashed []
      | Some spaceID =>
        if String.eqb spaceID "" then gave_up MsgNoSpaceID []
        else
          match GetStreamURL (main_api env) spaceID [] with
          | (inr err, requests) => gave_up (MsgStreamURLFailed err) requests
          | (inl playlistURL, requests) =>
            match fileName_of spaceURL with
            | None => crashed requests
            | Some fileName =>
              match create_error env fileName with
              | Some err => gave_up (MsgCreateFailed err) requests
              | None =>
                let '(status, w) :=
                  main_download (main_net env) fuel playlistURL fileName in
                {| exit_status := status; message := None; api_requests := requests;
                   created := Some fileName; session := Some w |}
              end
            end
          end
      end
    end.

(** The recording of a one-segment stream, from the command line to
    the closed file. *)
Definition recording : MainEnv :=
  {| main_api := api_of running_space 200 live_url;
     main_net := script [ok complete_manifest; ok "data"];
     create_error := fun _ => None |}.

(** The same, when the API gives a location without any [/]. *)
Definition bad_location : MainEnv :=
  {| main_api := api_of running_space 200 "playlist.m3u8";
     main_net := script [ok complete_manifest; ok "data"];
     create_error := fun _ => None |}.

(** The output file after [body] has been streamed into it. *)
Definition written (body : string) (w : World) : World :=
  if String.eqb body "" then w
  else with_sink (fun f => {| f_name := f_name f; f_data := f_data f +:+ body;
                              f_closed := f_closed f;
                              f_close_calls := f_close_calls f |}) w.

(** The ledger with [chunk] marked. *)
Definition marked (chunk : string) (w : World) : World :=
  emit (EvMarked chunk)
       (with_dl (fun d => set_seenChunks (<[chunk := true]> (seenChunks d)) d) w).

(** The segment is cut off after ["par"] the first time it is asked
    for, and streamed whole the second time. *)
Definition cut_off : Env :=
  script [Response StatusOK "par" (Some "unexpected EOF"); ok "partial"].

(** The session of [recording] when [main] returns. *)
Definition recorded : World :=
  snd (main_download (main_net recording) 5 live_url "1OdKrXYZ.aac").

(** The API [api] with the status of every answer replaced by
    [status]. *)
Definition with_status (status : Z) (api : ApiEnv) : ApiEnv :=
  {| api_new_request_error := api_new_request_error api;
     api_do := fun n url =>
       match api_do api n url with
       | ApiResponse _ body read_err => ApiResponse status body read_err
       | failed => failed
       end;
     json_Unmarshal := json_Unmarshal api |}.

(** The session of [growing_manifest] after [Close]. *)
Definition stopped : World := world_of (Close (new_session "out.aac")).

(** * Properties *)

(** ** Strings without a given byte *)

Section Bytes.

Lemma prefix_byte c a s :
  HasPrefix (String a s) (String c "") = Ascii.eqb a c.
Proof.
  unfold HasPrefix; simpl. destruct (ascii_dec c a) as [->|Hne].
  - rewrite Ascii.eqb_refl. now destruct s.
  - symmetry. apply Ascii.eqb_neq. congruence.
Qed.

Lemma Index_lower s sub : -1 <= Index s sub.
Proof.
  induction s as [|a s IH]; cbn [Index].
  - destruct (HasPrefix "" sub); lia.
  - destruct (HasPrefix (String a s) sub); [lia|].
    destruct (Index s sub <? 0) eqn:E; [lia|]. apply Z.ltb_ge in E. lia.
Qed.

Lemma Contains_byte c s : Contains s (String c "") = has_byte c s.
Proof.
  unfold Contains. induction s as [|a s IH].
  - reflexivity.
  - cbn [Index has_byte]. rewrite prefix_byte.
    destruct (Ascii.eqb a c); [reflexivity|]. simpl orb. rewrite <- IH.
    pose proof (Index_lower s (String c "")).
    destruct (Index s (String c "") <? 0) eqn:E.
    + apply Z.ltb_lt in E. symmetry. apply Z.leb_gt. lia.
    + apply Z.ltb_ge in E. transitivity true; [|symmetry]; apply Z.leb_le; lia.
Qed.

Lemma LastIndex_no_byte c s :
  has_byte c s = false -> LastIndex s (String c "") = -1.
Proof.
  induction s as [|a s IH]; [reflexivity|].
  cbn [has_byte LastIndex]. intros H. apply orb_false_iff in H as [Ha Hs].
  rewrite (IH Hs), prefix_byte, Ha. reflexivity.
Qed.

Lemma LastIndex_has_byte c s :
  has_byte c s = true -> 0 <= LastIndex s (String c "").
Proof.
  induction s as [|a s IH]; [discriminate|].
  cbn [has_byte LastIndex]. rewrite prefix_byte. intros H.
  destruct (Z.leb_spec 0 (LastIndex s (String c ""))) as [Hle|Hlt]; [lia|].
  destruct (Ascii.eqb a c); [lia|]. simpl in H. specialize (IH H). lia.
Qed.

Lemma has_byte_app c s1 s2 :
  has_byte c (s1 +:+ s2) = has_byte c s1 || has_byte c s2.
Proof.
  induction s1 as [|a s1 IH]; [reflexivity|].
  simpl. rewrite IH. apply orb_assoc.
Qed.

Lemma has_byte_skip c n s :
  has_byte c s = false -> has_byte c (skip n s) = false.
Proof.
  revert s; induction n as [|n IH]; intros [|a s] H; simpl; auto.
  simpl in H. apply orb_false_iff in H as [_ H]. auto.
Qed.

Lemma has_byte_Replace1 c s old new :
  has_byte c s = false -> has_byte c new = false ->
  has_byte c (Replace1 s old new) = false.
Proof.
  intros Hs Hnew. induction s as [|a s IH].
  - cbn [Replace1]. destruct (HasPrefix "" old); [|reflexivity].
    rewrite has_byte_app, Hnew. now apply has_byte_skip.
  - cbn [Replace1]. destruct (HasPrefix (String a s) old).
    + rewrite has_byte_app, Hnew. now apply has_byte_skip.
    + simpl in *. apply orb_false_iff in Hs as [-> Hs]. auto.
Qed.

Lemma LastIndex_bounds s sub : -1 <= LastIndex s sub <= len s.
Proof.
  unfold len. induction s as [|a s IH]; cbn [LastIndex String.length].
  - destruct (HasPrefix "" sub); simpl; lia.
  - destruct (Z.leb_spec 0 (LastIndex s sub)); [lia|].
    destruct (HasPrefix (String a s) sub); lia.
Qed.

Lemma slice_to_minus_one s : slice_to s (-1) = None.
Proof. reflexivity. Qed.

End Bytes.

(** ** C10: a playlist URL without a slash *)

(** C10.  For every playlist URL that contains no [/], [Start] panics at
    its first statement (the slice [playlistURL[:-1]]), before anything
    is logged or fetched, and does not return an error; the URL rewrite
    of [switchToReplay] panics on such a URL in the same way, at the
    slice of the rewritten URL. *)
Theorem start_without_slash_panics env fuel playlistURL w :
  Contains playlistURL "/" = false ->
  Start env fuel playlistURL w = Panic w
  /\ exists w', switchToReplay playlistURL w = Panic w'
                /\ dl w' = dl w /\ sink w' = sink w.
Proof.
  intros H. rewrite Contains_byte in H. split.
  - unfold Start. now rewrite (LastIndex_no_byte _ _ H).
  - unfold switchToReplay.
    set (r1 := Replace1 playlistURL "type=live" "type=replay").
    set (r2 := if Contains r1 "dynamic_playlist.m3u8" then _ else r1).
    assert (H1 : has_byte "/" r1 = false) by (now apply has_byte_Replace1).
    assert (H2 : has_byte "/" r2 = false).
    { subst r2. destruct (Contains r1 _); [now apply has_byte_Replace1 | exact H1]. }
    rewrite (LastIndex_no_byte _ _ H2). simpl. eexists; split; [reflexivity|].
    split; reflexivity.
Qed.

Lemma start_without_slash_panics_witness :
  Start {| new_request_error := fun _ => None;
           client_do := fun _ _ => DoError "unreachable";
           close_called := fun _ => false |} 3 "playlist.m3u8" (new_session "out.aac")
  = Panic (new_session "out.aac").
Proof.
  apply (start_without_slash_panics _ 3%nat "playlist.m3u8" (new_session "out.aac")).
  reflexivity.
Defined.

(** ** What a session may do to its world *)

Section Evolves.

Variable env : Env.

Lemma ledger_run_app m t1 t2 :
  ledger_run m (t1 ++ t2) =
  match ledger_run m t1 with Some m1 => ledger_run m1 t2 | None => None end.
Proof.
  revert m; induction t1 as [|e t1 IH]; intros m; [reflexivity|].
  destruct e; simpl; auto. destruct (default false (m !! chunk)); auto.
Qed.

Lemma switches_app t1 t2 : switches (t1 ++ t2) = (switches t1 + switches t2)%nat.
Proof.
  induction t1 as [|e t1 IH]; [reflexivity|].
  destruct e as [[]| | | |]; simpl; lia.
Qed.

Lemma requests_app t1 t2 : requests (t1 ++ t2) = (requests t1 + requests t2)%nat.
Proof.
  induction t1 as [|e t1 IH]; [reflexivity|]. destruct e; simpl; lia.
Qed.

Lemma evolves_refl k w : evolves env k w w.
Proof.
  exists []. rewrite app_nil_r. simpl. repeat split; auto; lia.
Qed.

Lemma evolves_trans k1 k2 k w w1 w2 :
  evolves env k1 w w1 -> evolves env k2 w1 w2 -> (k1 + k2 <= k)%nat ->
  evolves env k w w2.
Proof.
  intros (t1 & T1 & L1 & S1 & N1 & W1 & F1 & C1 & P1 & D1 & Q1)
         (t2 & T2 & L2 & S2 & N2 & W2 & F2 & C2 & P2 & D2 & Q2) Hk.
  exists (t1 ++ t2). rewrite T2, T1, app_assoc, ledger_run_app, L1, switches_app,
    requests_app.
  repeat split; auto; try congruence; try lia.
  - destruct (Q1 H), (Q2 H); congruence.
  - destruct (Q1 H) as (_ & ? & _), (Q2 H) as (_ & ? & _); congruence.
  - destruct (Q1 H) as (_ & _ & ?), (Q2 H) as (_ & _ & ?); congruence.
Qed.

(** One more event, possibly with a change of the downloader. *)
Lemma evolves_event k w0 w w' e :
  evolves env k w0 w ->
  trace w' = trace w ++ [e] ->
  ledger_run (seenChunks (dl w)) [e] = Some (seenChunks (dl w')) ->
  switches [e] = O ->
  calls w' = (calls w + requests [e])%nat ->
  writer (dl w') = writer (dl w) ->
  sink w' = sink w ->
  (isCompleted (dl w) = true -> isCompleted (dl w') = true) ->
  stopChan (dl w') = stopChan (dl w) ->
  evolves env k w0 w'.
Proof.
  intros H T L S N W F C P. apply (evolves_trans k 0 k w0 w w'); [exact H| |lia].
  exists [e]. rewrite F, P, S. repeat split; auto.
Qed.

(** A change that leaves the trace alone. *)
Lemma evolves_silent k w0 w w' :
  evolves env k w0 w ->
  trace w' = trace w ->
  seenChunks (dl w') = seenChunks (dl w) ->
  calls w' = calls w ->
  writer (dl w') = writer (dl w) ->
  f_name (sink w') = f_name (sink w) ->
  (isCompleted (dl w) = true -> isCompleted (dl w') = true) ->
  (stopChan (dl w) = Closed -> stopChan (dl w') = Closed) ->
  (f_closed (sink w) = true -> f_closed (sink w') = true) ->
  (never_closed env ->
   stopChan (dl w') = stopChan (dl w) /\ f_closed (sink w') = f_closed (sink w)
   /\ f_close_calls (sink w') = f_close_calls (sink w)) ->
  evolves env k w0 w'.
Proof.
  intros H T L N W F C P D Q. apply (evolves_trans k 0 k w0 w w'); [exact H| |lia].
  exists []. rewrite app_nil_r, L. simpl. repeat split; auto; try apply Q; auto; lia.
Qed.

Lemma evolves_log k w0 w l :
  l <> LogSwitching -> evolves env k w0 w -> evolves env k w0 (log l w).
Proof.
  intros Hl H. eapply evolves_event; eauto; try reflexivity. now destruct l.
Qed.

Lemma evolves_sleep k w0 w d :
  evolves env k w0 w -> evolves env k w0 (sleep d w).
Proof. intros H. eapply evolves_event; eauto; reflexivity. Qed.

Lemma evolves_called k w0 w url :
  evolves env k w0 w -> evolves env k w0 (called url w).
Proof.
  intros H. eapply evolves_event; eauto; try reflexivity. simpl. lia.
Qed.

Lemma evolves_tick k w0 w : evolves env k w0 w -> evolves env k w0 (tick w).
Proof. intros H. eapply evolves_silent; eauto. Qed.

Lemma evolves_baseURL k w0 w b :
  evolves env k w0 w -> evolves env k w0 (with_dl (set_baseURL b) w).
Proof. intros H. eapply evolves_silent; eauto. Qed.

Lemma evolves_completed k w0 w b :
  (isCompleted (dl w) = true -> b = true) ->
  evolves env k w0 w -> evolves env k w0 (with_dl (set_isCompleted b) w).
Proof. intros Hb H. eapply evolves_silent; eauto. Qed.

Lemma evolves_acquire k w0 w chunk url :
  seen (dl w) chunk = false ->
  evolves env k w0 w -> evolves env k w0 (emit (EvAcquire chunk url) w).
Proof.
  intros Hs H. eapply evolves_event; eauto; try reflexivity.
  unfold seen in Hs. simpl. now rewrite Hs.
Qed.

Lemma evolves_marked k w0 w chunk :
  evolves env k w0 w ->
  evolves env k w0
    (emit (EvMarked chunk)
       (with_dl (fun d => set_seenChunks (<[chunk := true]> (seenChunks d)) d) w)).
Proof. intros H. eapply evolves_event; eauto; reflexivity. Qed.

End Evolves.

(** ** The methods evolve the world *)

Section Methods.

Variable env : Env.

Lemma scan_line_completed st text :
  snd st = true -> snd (scan_line st text) = true.
Proof.
  destruct st as [[chunks isChunk] completed]. simpl. intros ->.
  destruct (String.eqb _ ""); [reflexivity|].
  destruct (HasPrefix _ "#EXTINF:"); [reflexivity|].
  destruct (isChunk && _); simpl; now destruct (Contains _ _).
Qed.

Lemma scan_fold_completed lines st :
  snd st = true -> snd (fold_left scan_line lines st) = true.
Proof.
  revert st; induction lines as [|l lines IH]; intros st H; [exact H|].
  simpl. apply IH. now apply scan_line_completed.
Qed.

Lemma evolves_yield k w0 w :
  evolves env k w0 w -> evolves env k w0 (world_of (yield env w)).
Proof.
  intros H. unfold yield. destruct (close_called env (ticks w)) eqn:E.
  - assert (Hn : ~ never_closed env) by (intros Hn; rewrite Hn in E; discriminate).
    unfold Close. destruct (stopChan (dl (tick w))) eqn:Ec; simpl;
      destruct (writer (dl w)) eqn:Ew; simpl;
      (eapply evolves_silent; [exact H|..]; simpl; auto; try tauto).
  - simpl. now apply evolves_tick.
Qed.

Lemma evolves_getPlaylist k w0 fuel :
  forall url w,
    evolves env k w0 w -> evolves env k w0 (world_of (getPlaylist env fuel url w)).
Proof.
  induction fuel as [|fuel IH]; intros url w H; [exact H|].
  simpl. destruct (new_request_error env url); [exact H|].
  destruct (client_do env (calls w) url) as [err|status content ce]; simpl.
  - now apply evolves_called.
  - destruct (negb (status =? StatusOK)); simpl; [now apply evolves_called|].
    destruct (scan_segments (ScanLines content) (isCompleted (dl w)))
      as [[chunks isChunk] completed] eqn:Es.
    assert (Hc : isCompleted (dl w) = true -> completed = true).
    { intros Hw. unfold scan_segments in Es. rewrite Hw in Es.
      pose proof (scan_fold_completed (ScanLines content) ([], false, true) eq_refl) as Hf.
      rewrite Es in Hf. exact Hf. }
    destruct (rebase _ chunks) as [base chunks'] eqn:Er.
    assert (H3 : evolves env k w0
                   (with_dl (set_baseURL base)
                      (with_dl (set_isCompleted completed) (called url w)))).
    { apply evolves_baseURL, evolves_completed; [exact Hc|]. now apply evolves_called. }
    destruct chunks' as [|c cs].
    + destruct (find_playlist (ScanLines content)); [|exact H3].
      apply IH. apply evolves_log; [discriminate|exact H3].
    + simpl. apply evolves_log; [discriminate|exact H3].
Qed.

Lemma evolves_io_Copy k w0 w body ce :
  evolves env k w0 w -> evolves env k w0 (world_of (io_Copy body ce w)).
Proof.
  intros H. unfold io_Copy. destruct (String.eqb body ""); [exact H|].
  destruct (writer (dl w)); [exact H|]. destruct (f_closed (sink w)) eqn:Ec; [exact H|].
  simpl. eapply evolves_silent; [exact H|..]; simpl; auto.
Qed.

Lemma evolves_downloadChunk k w0 w url :
  evolves env k w0 w -> evolves env k w0 (world_of (downloadChunk env url w)).
Proof.
  intros H. unfold downloadChunk. destruct (new_request_error env url); [exact H|].
  destruct (client_do env (calls w) url) as [err|status body ce]; simpl;
    [now apply evolves_called|].
  destruct (negb (status =? StatusOK)); simpl; [now apply evolves_called|].
  unfold bind.
  pose proof (evolves_yield k w0 _ (evolves_called _ k w0 w url H)) as Hy.
  destruct (yield env (called url w)) as [[] w1|w1|w1]; simpl in Hy; try exact Hy.
  now apply evolves_io_Copy.
Qed.

Lemma evolves_processChunks k w0 chunks :
  forall w,
    evolves env k w0 w -> evolves env k w0 (world_of (processChunks env chunks w)).
Proof.
  induction chunks as [|chunk rest IH]; intros w H; [exact H|].
  cbn [processChunks]. unfold bind at 1.
  pose proof (evolves_yield k w0 w H) as Hy.
  destruct (yield env w) as [[] w1|w1|w1]; simpl in Hy; try exact Hy.
  destruct (stopChan (dl w1)); [|exact Hy].
  destruct (seen (dl w1) chunk) eqn:Hs; [now apply IH|].
  unfold bind.
  pose proof (evolves_downloadChunk k w0 _ (join_url (baseURL (dl w1)) chunk)
                (evolves_acquire _ k w0 w1 chunk (join_url (baseURL (dl w1)) chunk)
                                 Hs Hy)) as Hd.
  destruct (downloadChunk env _ _) as [[e|] w2|w2|w2]; simpl in Hd; try exact Hd.
  - destruct (Contains e "file already closed"); [exact Hd|].
    apply IH. apply evolves_log; [discriminate|exact Hd].
  - apply IH. now apply evolves_marked.
Qed.

Lemma evolves_switchToReplay k w0 w url :
  evolves env k w0 w ->
  evolves env (S k) w0 (world_of (switchToReplay url w)).
Proof.
  intros H. unfold switchToReplay.
  match goal with |- context [LogNewURL ?x] => set (r := x) end.
  assert (H1 : evolves env (S k) w0 (log (LogNewURL r) (log LogSwitching w))).
  { apply evolves_log; [discriminate|].
    apply (evolves_trans env k 1 (S k) w0 w); [exact H| |lia].
    exists [EvLog LogSwitching]. simpl. repeat split; auto. }
  destruct (slice_to r _); simpl; [|exact H1]. now apply evolves_baseURL.
Qed.

Lemma evolves_Start_loop fuel :
  forall k url retryCount (hasTriedReplay : bool) w0 w,
    evolves env k w0 w ->
    evolves env (k + (if hasTriedReplay then 0 else 1))%nat w0
            (world_of (Start_loop env fuel url retryCount hasTriedReplay w)).
Proof.
  induction fuel as [|fuel IH]; intros k url rc htr w0 w H.
  - simpl. eapply evolves_trans; [exact H|apply (evolves_refl env 0%nat)|]. lia.
  - assert (Hk : forall w', evolves env k w0 w' ->
              evolves env (k + (if htr then 0 else 1))%nat w0 w').
    { intros w' H'. eapply evolves_trans; [exact H'|apply (evolves_refl env 0%nat)|].
      destruct htr; lia. }
    cbn [Start_loop]. destruct (isCompleted (dl w)).
    { simpl. apply Hk. apply evolves_log; [discriminate|exact H]. }
    unfold bind at 1.
    pose proof (evolves_yield k w0 w H) as Hy.
    destruct (yield env w) as [[] w1|w1|w1]; simpl in Hy; try (apply Hk; exact Hy).
    destruct (stopChan (dl w1)).
    2:{ simpl. apply Hk. apply evolves_log; [discriminate|exact Hy]. }
    unfold bind at 1.
    pose proof (evolves_getPlaylist k w0 (S fuel) url w1 Hy) as Hg.
    destruct (getPlaylist env (S fuel) url w1) as [[chunks|err] w2|w2|w2];
      simpl in Hg; try (apply Hk; exact Hg).
    + unfold bind at 1.
      pose proof (evolves_processChunks k w0 chunks w2 Hg) as Hp.
      destruct (processChunks env chunks w2) as [[e|] w3|w3|w3];
        simpl in Hp; try (apply Hk; exact Hp).
      apply IH. destruct (isCompleted (dl w3)); [exact Hp|now apply evolves_sleep].
    + destruct (Contains err "No audio segments found" && negb htr) eqn:Ec.
      * apply andb_true_iff in Ec as [_ Eh]. destruct htr; [discriminate|].
        unfold bind.
        pose proof (evolves_switchToReplay k w0 w2 url Hg) as Hs.
        replace (k + 1)%nat with (S k) by lia.
        destruct (switchToReplay url w2) as [url' w3|w3|w3]; simpl in Hs; try exact Hs.
        specialize (IH (S k) url' 0 true w0 w3 Hs).
        cbn iota in IH. now rewrite Nat.add_0_r in IH.
      * destruct (rc + 1 >? MAX_RETRIES); [apply Hk; exact Hg|].
        apply IH. apply evolves_sleep. apply evolves_log; [discriminate|exact Hg].
Qed.

Lemma evolves_Start fuel url w :
  evolves env 1%nat w (world_of (Start env fuel url w)).
Proof.
  unfold Start. destruct (slice_to url _) as [base|]; [|apply evolves_refl].
  simpl. assert (H1 : evolves env 0%nat w (log LogStarting (with_dl (set_baseURL base) w))).
  { apply evolves_log; [discriminate|]. apply evolves_baseURL, evolves_refl. }
  destruct (writer (dl w)).
  - eapply evolves_trans; [exact H1|apply (evolves_refl env 0%nat)|lia].
  - apply (evolves_Start_loop fuel 0%nat url 0 false).
    apply evolves_log; [discriminate|exact H1].
Qed.

End Methods.

(** ** C5: the dedup ledger *)

Lemma ledger_run_marked m t m' r :
  ledger_run m t = Some m' -> default false (m !! r) = true ->
  (forall u, ~ In (EvAcquire r u) t) /\ default false (m' !! r) = true.
Proof.
  revert m; induction t as [|e t IH]; intros m Hrun Hr.
  - simpl in Hrun. injection Hrun as <-. split; [intros u []|exact Hr].
  - destruct e as [l|url|d|c cu|c]; simpl in Hrun;
      try (destruct (IH m Hrun Hr) as [Hn Hm]; split; [|exact Hm];
           intros u [Hu|Hu]; [discriminate|exact (Hn u Hu)]).
    + destruct (default false (m !! c)) eqn:Ec; [discriminate|].
      destruct (IH m Hrun Hr) as [Hn Hm]. split; [|exact Hm].
      intros u [Hu|Hu]; [|exact (Hn u Hu)].
      injection Hu as -> ->. congruence.
    + assert (Hr' : default false (<[c := true]> m !! r) = true).
      { destruct (decide (c = r)) as [->|Hne].
        - now rewrite lookup_insert_eq.
        - now rewrite lookup_insert_ne. }
      destruct (IH _ Hrun Hr') as [Hn Hm]. split; [|exact Hm].
      intros u [Hu|Hu]; [discriminate|exact (Hn u Hu)].
Qed.

Lemma ledger_run_after_mark m t1 r t2 m' :
  ledger_run m (t1 ++ EvMarked r :: t2) = Some m' ->
  (forall u, ~ In (EvAcquire r u) t2) /\ default false (m' !! r) = true.
Proof.
  rewrite ledger_run_app. destruct (ledger_run m t1) as [m1|]; [|discriminate].
  simpl. intros Hrun. apply (ledger_run_marked _ _ _ _ Hrun).
  now rewrite lookup_insert_eq.
Qed.

Lemma evolves_dedup env k w w' : evolves env k w w' -> dedup_respected w w'.
Proof.
  intros (t & T & L & _). exists t. split; [exact T|]. unfold seen. repeat split.
  - intros r u Hr. now apply (ledger_run_marked _ _ _ _ L Hr).
  - intros t1 r t2 u ->. now apply (ledger_run_after_mark _ _ _ _ _ L).
  - intros r Hr. now apply (ledger_run_marked _ _ _ _ L Hr).
  - intros r Hin. apply in_split in Hin as (t1 & t2 & ->).
    now apply (ledger_run_after_mark _ _ _ _ _ L).
Qed.

(** C5.  Within a session ([Start], from any state of the downloader,
    for any behaviour of the network, any cancellation and any number of
    loop iterations), and within any single pass of [processChunks] over
    a segment list: a reference that is marked in the ledger is never
    passed to [downloadChunk] again, also when it reappears in a later
    manifest; every mark stays, so the ledger only grows. *)
Theorem marked_segment_never_reacquired env fuel playlistURL chunks w :
  dedup_respected w (world_of (Start env fuel playlistURL w))
  /\ dedup_respected w (world_of (processChunks env chunks w)).
Proof.
  split.
  - apply (evolves_dedup env 1%nat), evolves_Start.
  - apply (evolves_dedup env 0%nat), evolves_processChunks, evolves_refl.
Qed.

(** ** C9: what a fetch changes *)

Lemma getPlaylist_frame env fuel :
  forall url w,
    let w' := world_of (getPlaylist env fuel url w) in
    (exists base completed,
        dl w' = set_baseURL base (set_isCompleted completed (dl w)))
    /\ sink w' = sink w /\ ticks w' = ticks w.
Proof.
  assert (Hid : forall d, d = set_baseURL (baseURL d) (set_isCompleted (isCompleted d) d))
    by (now intros []).
  induction fuel as [|fuel IH]; intros url w; simpl.
  - split; [|now split]. eexists _, _. apply Hid.
  - destruct (new_request_error env url); simpl.
    { split; [|now split]. eexists _, _. apply Hid. }
    destruct (client_do env (calls w) url) as [err|status content ce]; simpl.
    { split; [|now split]. eexists _, _. apply Hid. }
    destruct (negb (status =? StatusOK)); simpl.
    { split; [|now split]. eexists _, _. apply Hid. }
    destruct (scan_segments _ _) as [[chunks isChunk] completed].
    destruct (rebase _ chunks) as [base chunks'].
    destruct chunks' as [|c cs]; simpl.
    + destruct (find_playlist _); simpl.
      * match goal with |- context [getPlaylist env fuel ?u ?x] =>
          destruct (IH u x) as ((b & c & Hd) & Hs & Ht) end.
        rewrite Hd, Hs, Ht. split; [|now split]. now exists b, c.
      * split; [|now split]. now exists base, completed.
    + split; [|now split]. now exists base, completed.
Qed.

(** C9, as the code has it.  A fetch returns the segment list or an
    error and nothing else; the base URL and the completion flag are
    updated in place, in the downloader.  It changes no other field of
    the downloader (ledger, writer, stop channel) and not the output
    file. *)
Theorem getPlaylist_changes_only_base_and_completion env fuel playlistURL w :
  let w' := world_of (getPlaylist env fuel playlistURL w) in
  (exists base completed,
      dl w' = set_baseURL base (set_isCompleted completed (dl w)))
  /\ seenChunks (dl w') = seenChunks (dl w)
  /\ writer (dl w') = writer (dl w)
  /\ stopChan (dl w') = stopChan (dl w)
  /\ sink w' = sink w.
Proof.
  destruct (getPlaylist_frame env fuel playlistURL w) as ((b & c & Hd) & Hs & _).
  simpl. split; [now exists b, c|]. rewrite Hd. now repeat split.
Qed.

(** ** One successful fetch, step by step *)

Lemma getPlaylist_segments env fuel url w body ce chunks isChunk completed base c cs :
  new_request_error env url = None ->
  client_do env (calls w) url = Response StatusOK body ce ->
  scan_segments (ScanLines body) (isCompleted (dl w)) = (chunks, isChunk, completed) ->
  rebase (baseURL (dl w)) chunks = (base, c :: cs) ->
  getPlaylist env (S fuel) url w =
  Ret (inl (c :: cs))
      (log (LogFoundSegments (Z.of_nat (length (c :: cs)))) (scanned url completed base w)).
Proof.
  intros H1 H2 H3 H4. cbn [getPlaylist]. rewrite H1, H2. cbn -[scan_segments rebase].
  rewrite H3. cbn -[rebase]. rewrite H4. reflexivity.
Qed.

Lemma getPlaylist_no_segments env fuel url w body ce isChunk completed :
  new_request_error env url = None ->
  client_do env (calls w) url = Response StatusOK body ce ->
  scan_segments (ScanLines body) (isCompleted (dl w)) = ([], isChunk, completed) ->
  getPlaylist env (S fuel) url w =
  match find_playlist (ScanLines body) with
  | Some line =>
      getPlaylist env fuel (nested_path (baseURL (dl w)) line)
        (log (LogFoundPlaylist (nested_path (baseURL (dl w)) line))
             (scanned url completed (baseURL (dl w)) w))
  | None => Ret (inr no_segments_error) (scanned url completed (baseURL (dl w)) w)
  end.
Proof.
  intros H1 H2 H3. cbn [getPlaylist]. rewrite H1, H2. cbn -[scan_segments rebase].
  rewrite H3. reflexivity.
Qed.

(** ** C4: the end-of-list marker *)

Lemma scan_fold_endlist text lines st :
  In text lines ->
  Contains (TrimSpace text) "#EXT-X-ENDLIST" = true ->
  HasPrefix (TrimSpace text) "#EXTINF:" = false ->
  snd (fold_left scan_line lines st) = true.
Proof.
  intros Hin Hc Hp. revert st. induction lines as [|l lines IH]; intros st; [destruct Hin|].
  simpl. destruct Hin as [->|Hin]; [|now apply IH].
  apply scan_fold_completed. destruct st as [[chunks isChunk] completed]. simpl.
  destruct (String.eqb_spec (TrimSpace text) "") as [E|_].
  - rewrite E in Hc. discriminate.
  - rewrite Hp, Hc. now destruct (isChunk && _).
Qed.

(** C4, as the code has it.  When a manifest is fetched with status 200
    and one of the lines the scanner reads contains [#EXT-X-ENDLIST]
    and is not itself an [#EXTINF:] line, the completion flag is set
    after the fetch, wherever the line stands and whatever the fetch
    returns. *)
Theorem endlist_line_sets_completed env fuel playlistURL w body ce text :
  new_request_error env playlistURL = None ->
  client_do env (calls w) playlistURL = Response StatusOK body ce ->
  In text (ScanLines body) ->
  Contains (TrimSpace text) "#EXT-X-ENDLIST" = true ->
  HasPrefix (TrimSpace text) "#EXTINF:" = false ->
  isCompleted (dl (world_of (getPlaylist env (S fuel) playlistURL w))) = true.
Proof.
  intros H1 H2 Hin Hc Hp.
  destruct (scan_segments (ScanLines body) (isCompleted (dl w)))
    as [[chunks isChunk] completed] eqn:Es.
  assert (Hcompleted : completed = true).
  { pose proof (scan_fold_endlist text (ScanLines body)
                  ([], false, isCompleted (dl w)) Hin Hc Hp) as Hf.
    unfold scan_segments in Es. rewrite Es in Hf. exact Hf. }
  subst completed. destruct (rebase (baseURL (dl w)) chunks) as [base [|c cs]] eqn:Er.
  - assert (chunks = []) as ->.
    { destruct chunks as [|c0 cs0]; [reflexivity|]. simpl in Er.
      destruct (HasPrefix c0 "http"); [destruct (negb _)|]; discriminate. }
    rewrite (getPlaylist_no_segments _ _ _ _ _ _ _ _ H1 H2 Es).
    destruct (find_playlist (ScanLines body)); [|reflexivity].
    match goal with |- context [getPlaylist env fuel ?u ?x] =>
      destruct (evolves_getPlaylist env 0%nat x fuel u x (evolves_refl env 0%nat x))
        as (_ & _ & _ & _ & _ & _ & _ & Hmono & _) end.
    now apply Hmono.
  - now rewrite (getPlaylist_segments _ _ _ _ _ _ _ _ _ _ _ _ H1 H2 Es Er).
Qed.

(** ** C2: a nested playlist *)

Lemma scan_fold_no_announcement lines chunks completed :
  (forall text, In text lines -> HasPrefix (TrimSpace text) "#EXTINF:" = false) ->
  fst (fold_left scan_line lines (chunks, false, completed)) = (chunks, false).
Proof.
  revert completed. induction lines as [|l lines IH]; intros completed H; [reflexivity|].
  simpl. destruct (String.eqb _ ""); [apply IH; intros; apply H; now right|].
  rewrite (H l (or_introl eq_refl)). simpl. apply IH. intros; apply H; now right.
Qed.

Lemma find_playlist_none lines :
  (forall text, In text lines -> HasSuffix (TrimSpace text) ".m3u8" = true ->
                Contains (TrimSpace text) "master_playlist" = true) ->
  find_playlist lines = None.
Proof.
  induction lines as [|l lines IH]; intros H; [reflexivity|].
  simpl. destruct (HasSuffix _ ".m3u8") eqn:Es.
  - rewrite (H l (or_introl eq_refl) Es). simpl. apply IH. intros; apply H; auto. now right.
  - simpl. apply IH. intros; apply H; auto. now right.
Qed.

Lemma find_playlist_some lines line :
  find_playlist lines = Some line ->
  HasSuffix line ".m3u8" = true /\ Contains line "master_playlist" = false.
Proof.
  induction lines as [|l lines IH]; [discriminate|].
  simpl. destruct (HasSuffix _ ".m3u8" && negb _) eqn:E; [|exact IH].
  intros [= <-]. apply andb_true_iff in E as [E1 E2]. split; [exact E1|].
  now apply negb_true_iff.
Qed.

Lemma find_playlist_first earlier text later :
  (forall t, In t earlier -> HasSuffix (TrimSpace t) ".m3u8" = true ->
             Contains (TrimSpace t) "master_playlist" = true) ->
  HasSuffix (TrimSpace text) ".m3u8" = true ->
  Contains (TrimSpace text) "master_playlist" = false ->
  find_playlist (earlier ++ text :: later) = Some (TrimSpace text).
Proof.
  intros He Hs Hm. induction earlier as [|t earlier IH]; cbn [app find_playlist].
  - now rewrite Hs, Hm.
  - destruct (HasSuffix (TrimSpace t) ".m3u8") eqn:Et.
    + rewrite (He t (or_introl eq_refl) Et). cbn [negb andb].
      apply IH. intros; apply He; auto. now right.
    + cbn [andb]. apply IH. intros; apply He; auto. now right.
Qed.

(** C2, as the code has it.  For a manifest fetched with status 200
    that has no [#EXTINF:] line: when every line ending in [.m3u8]
    names [master_playlist], nothing more is fetched and the fetch
    fails with the no-segments error.  Otherwise the line followed is
    the first line of the body that ends in [.m3u8] and does not
    contain [master_playlist], whatever stands after it: it is taken as
    it is when it starts with [http] and appended to the base URL
    otherwise, and the result of the fetch is the result of fetching
    it. *)
Theorem nested_playlist_excludes_master env fuel playlistURL w body ce :
  new_request_error env playlistURL = None ->
  client_do env (calls w) playlistURL = Response StatusOK body ce ->
  (forall text, In text (ScanLines body) ->
                HasPrefix (TrimSpace text) "#EXTINF:" = false) ->
  exists completed,
    let w' := scanned playlistURL completed (baseURL (dl w)) w in
    ((forall text, In text (ScanLines body) ->
                   HasSuffix (TrimSpace text) ".m3u8" = true ->
                   Contains (TrimSpace text) "master_playlist" = true) ->
     getPlaylist env (S fuel) playlistURL w = Ret (inr no_segments_error) w'
     /\ requests (trace w') = S (requests (trace w)))
    /\ (forall earlier text later,
           ScanLines body = earlier ++ text :: later ->
           (forall t, In t earlier ->
                      HasSuffix (TrimSpace t) ".m3u8" = true ->
                      Contains (TrimSpace t) "master_playlist" = true) ->
           HasSuffix (TrimSpace text) ".m3u8" = true ->
           Contains (TrimSpace text) "master_playlist" = false ->
           let line := TrimSpace text in
           let playlistPath :=
             if HasPrefix line "http" then line else baseURL (dl w) +:+ "/" +:+ line in
           getPlaylist env (S fuel) playlistURL w =
           getPlaylist env fuel playlistPath (log (LogFoundPlaylist playlistPath) w'))
    /\ (forall line,
           find_playlist (ScanLines body) = Some line ->
           HasSuffix line ".m3u8" = true
           /\ Contains line "master_playlist" = false
           /\ getPlaylist env (S fuel) playlistURL w =
              getPlaylist env fuel (nested_path (baseURL (dl w)) line)
                (log (LogFoundPlaylist (nested_path (baseURL (dl w)) line)) w')).
Proof.
  intros H1 H2 Hno.
  destruct (scan_segments (ScanLines body) (isCompleted (dl w)))
    as [[chunks isChunk] completed] eqn:Es.
  pose proof (scan_fold_no_announcement (ScanLines body) [] (isCompleted (dl w)) Hno) as Hf.
  unfold scan_segments in Es. rewrite Es in Hf. simpl in Hf. injection Hf as -> ->.
  pose proof (getPlaylist_no_segments env fuel _ _ _ _ _ _ H1 H2 Es) as Hg.
  exists completed. split; [|split].
  - intros Hm. rewrite Hg, (find_playlist_none _ Hm). split; [reflexivity|].
    simpl. rewrite requests_app. simpl. lia.
  - intros earlier text later Hl He Hs Hm. cbv zeta.
    rewrite Hg, Hl, (find_playlist_first earlier text later He Hs Hm). reflexivity.
  - intros line Hl. destruct (find_playlist_some _ _ Hl) as [Ha Hb].
    rewrite Hg, Hl. now repeat split.
Qed.

(** ** C8: an absolute first segment *)

(** C8, as the code has it.  When the first collected reference starts
    with [http] and contains a [/], the base URL of the downloader
    becomes that reference up to its last [/], and every collected
    reference is returned as its [filepath.Base].  When the first
    reference does not start with [http], or contains no [/], nothing
    is rewritten: the references are returned as they were collected,
    whatever the later ones are, and the base URL stays. *)
Theorem absolute_first_segment_rebases
        env fuel playlistURL w body ce first rest isChunk completed :
  new_request_error env playlistURL = None ->
  client_do env (calls w) playlistURL = Response StatusOK body ce ->
  scan_segments (ScanLines body) (isCompleted (dl w)) = (first :: rest, isChunk, completed) ->
  (HasPrefix first "http" = true ->
   LastIndex first "/" <> -1 ->
   exists w',
     getPlaylist env (S fuel) playlistURL w = Ret (inl (map Base (first :: rest))) w'
     /\ slice_to first (LastIndex first "/") = Some (baseURL (dl w')))
  /\ (HasPrefix first "http" = false \/ LastIndex first "/" = -1 ->
      exists w',
        getPlaylist env (S fuel) playlistURL w = Ret (inl (first :: rest)) w'
        /\ baseURL (dl w') = baseURL (dl w))
  /\ (LastIndex first "/" <> -1 <-> Contains first "/" = true).
Proof.
  intros H1 H2 Hs. split; [|split].
  - intros Hp Hi.
    assert (Hr : rebase (baseURL (dl w)) (first :: rest)
                 = (keep (Z.to_nat (LastIndex first "/")) first, map Base (first :: rest))).
    { unfold rebase. rewrite Hp. apply Z.eqb_neq in Hi. now rewrite Hi. }
    eexists. split.
    + exact (getPlaylist_segments _ _ _ _ _ _ _ _ _ _ _ _ H1 H2 Hs Hr).
    + pose proof (LastIndex_bounds first "/"). unfold slice_to.
      destruct (Z.leb_spec 0 (LastIndex first "/")); [|lia].
      destruct (Z.leb_spec (LastIndex first "/") (len first)); [reflexivity|lia].
  - intros Hn.
    assert (Hr : rebase (baseURL (dl w)) (first :: rest) = (baseURL (dl w), first :: rest)).
    { unfold rebase. destruct (HasPrefix first "http"); [|reflexivity].
      destruct Hn as [Hn|Hn]; [discriminate|]. now rewrite Hn. }
    eexists. split.
    + exact (getPlaylist_segments _ _ _ _ _ _ _ _ _ _ _ _ H1 H2 Hs Hr).
    + reflexivity.
  - rewrite Contains_byte. split.
    + intros Hi. destruct (has_byte "/" first) eqn:E; [reflexivity|].
      now rewrite (LastIndex_no_byte _ _ E) in Hi.
    + intros E Hi. apply LastIndex_has_byte in E. lia.
Qed.

(** ** C3: segments in document order *)

Lemma fitting_all lines :
  (forall l, In l lines -> len l < MaxScanTokenSize) -> fitting lines = lines.
Proof.
  induction lines as [|l lines IH]; intros H; [reflexivity|].
  cbn [fitting]. destruct (Z.ltb_spec (len l) MaxScanTokenSize) as [_|Hge].
  - f_equal. apply IH. intros; apply H. now right.
  - specialize (H l (or_introl eq_refl)). lia.
Qed.

Lemma prefix_hash_EXTINF s : HasPrefix s "#" = false -> HasPrefix s "#EXTINF:" = false.
Proof.
  destruct s as [|a s]; [reflexivity|]. unfold HasPrefix. cbn [String.prefix].
  destruct (ascii_dec "#" a); [|reflexivity]. now destruct s.
Qed.

Lemma scan_fold_pairs pairs chunks completed :
  (forall p, In p pairs -> HasPrefix (line_text (fst p)) "#EXTINF:" = true) ->
  (forall p, In p pairs ->
             line_text (snd p) <> ""
             /\ HasPrefix (line_text (snd p)) "#" = false
             /\ Contains (line_text (snd p)) "#EXT-X-ENDLIST" = false) ->
  fold_left scan_line (map dropCR (pair_lines pairs)) (chunks, false, completed)
  = (chunks ++ references pairs, false, completed).
Proof.
  revert chunks. induction pairs as [|[a r] pairs IH]; intros chunks Ha Hr.
  - simpl. now rewrite app_nil_r.
  - specialize (Ha (a, r) (or_introl eq_refl)) as Ha1.
    destruct (Hr (a, r) (or_introl eq_refl)) as (Hr1 & Hr2 & Hr3).
    unfold line_text in *. simpl in Ha1, Hr1, Hr2, Hr3.
    cbn [pair_lines flat_map map fold_left app fst snd scan_line].
    destruct (String.eqb_spec (TrimSpace (dropCR a)) "") as [E|_].
    { rewrite E in Ha1. discriminate. }
    rewrite Ha1. cbn [scan_line].
    destruct (String.eqb_spec (TrimSpace (dropCR r)) "") as [E|_]; [contradiction|].
    rewrite (prefix_hash_EXTINF _ Hr2), Hr2, Hr3. cbn [andb negb].
    unfold pair_lines in IH. rewrite IH.
    + unfold references. simpl. now rewrite <- app_assoc.
    + intros; apply Ha; now right.
    + intros; apply Hr; now right.
Qed.

Lemma rebase_shape base chunks :
  length (snd (rebase base chunks)) = length chunks
  /\ (snd (rebase base chunks) = chunks \/ snd (rebase base chunks) = map Base chunks)
  /\ (forall first rest, chunks = first :: rest -> HasPrefix first "http" = false ->
                         rebase base chunks = (base, chunks)).
Proof.
  destruct chunks as [|c cs]; cbn [rebase snd].
  - repeat split; auto; discriminate.
  - destruct (HasPrefix c "http") eqn:Ep; [destruct (negb _)|]; cbn [snd];
      rewrite ?length_map; repeat split; auto; intros ? ? [= <- <-]; congruence.
Qed.

(** C3, as the code has it.  For a manifest fetched with status 200
    whose lines are N >= 1 pairs of an [#EXTINF:] line and a non-empty
    reference line that does not start with [#], every line shorter
    than the scanner's limit and no reference containing the
    end-of-list marker: the fetch returns exactly N references, in
    document order, each one the trimmed reference line (reduced to its
    base name when the first one is an absolute URL), and leaves the
    completion flag false. *)
Theorem segments_returned_in_order env fuel playlistURL w body ce pairs :
  new_request_error env playlistURL = None ->
  client_do env (calls w) playlistURL = Response StatusOK body ce ->
  split_LF "" body = pair_lines pairs ->
  pairs <> [] ->
  (forall l, In l (pair_lines pairs) -> len l < MaxScanTokenSize) ->
  (forall p, In p pairs -> HasPrefix (line_text (fst p)) "#EXTINF:" = true) ->
  (forall p, In p pairs ->
             line_text (snd p) <> ""
             /\ HasPrefix (line_text (snd p)) "#" = false
             /\ Contains (line_text (snd p)) "#EXT-X-ENDLIST" = false) ->
  isCompleted (dl w) = false ->
  exists refs w',
    getPlaylist env (S fuel) playlistURL w = Ret (inl refs) w'
    /\ length refs = length pairs
    /\ (refs = references pairs \/ refs = map Base (references pairs))
    /\ (forall first rest, references pairs = first :: rest ->
                           HasPrefix first "http" = false -> refs = references pairs)
    /\ isCompleted (dl w') = false.
Proof.
  intros H1 H2 Hlines Hne Hshort Ha Hr Hc.
  assert (Hs : scan_segments (ScanLines body) (isCompleted (dl w))
               = (references pairs, false, false)).
  { unfold scan_segments, ScanLines. rewrite Hlines, (fitting_all _ Hshort), Hc.
    now rewrite (scan_fold_pairs pairs [] false Ha Hr). }
  destruct (rebase_shape (baseURL (dl w)) (references pairs)) as (Hlen & Hshape & Hrel).
  destruct (rebase (baseURL (dl w)) (references pairs)) as [base refs] eqn:Er.
  simpl in Hlen, Hshape.
  assert (Hn : length refs = length pairs)
    by (rewrite Hlen; unfold references; apply length_map).
  destruct refs as [|c cs].
  { destruct pairs; [contradiction|discriminate]. }
  eexists _, _. split; [exact (getPlaylist_segments _ _ _ _ _ _ _ _ _ _ _ _ H1 H2 Hs Er)|].
  repeat split; auto.
  intros first rest Hf Hp. specialize (Hrel first rest Hf Hp). congruence.
Qed.

(** ** C6: the retry bound *)

Section Retries.

Variable env : Env.
Variable url : string.
Hypothesis quiet : never_closed env.
Hypothesis well_formed : new_request_error env url = None.

Lemma getPlaylist_transient fuel w e :
  transient_error (client_do env (calls w) url) = Some e ->
  getPlaylist env (S fuel) url w = Ret (inr e) (called url w).
Proof.
  intros H. cbn [getPlaylist]. rewrite well_formed.
  destruct (client_do env (calls w) url) as [err|status body ce]; simpl in *.
  - now injection H as ->.
  - destruct (negb (status =? StatusOK)); [now injection H as ->|discriminate].
Qed.

Lemma yield_quiet w : yield env w = Ret tt (tick w).
Proof. unfold yield. now rewrite quiet. Qed.

(** A failed attempt in the loop, when no switch to replay applies. *)
Lemma Start_loop_failure fuel rc htr w e :
  isCompleted (dl w) = false -> stopChan (dl w) = Open ->
  transient_error (client_do env (calls w) url) = Some e ->
  Contains e "No audio segments found" && negb htr = false ->
  Start_loop env (S fuel) url rc htr w =
  if rc + 1 >? MAX_RETRIES
  then Ret (Some (retries_exceeded e)) (called url (tick w))
  else Start_loop env fuel url (rc + 1) htr (retry_step url (rc + 1) e w).
Proof.
  intros Hc Hs He Hm. cbn [Start_loop]. rewrite Hc. unfold bind at 1.
  rewrite yield_quiet. cbn [tick dl]. rewrite Hs. unfold bind at 1.
  rewrite (getPlaylist_transient fuel (tick w) e He), Hm.
  destruct (rc + 1 >? MAX_RETRIES); reflexivity.
Qed.

Lemma after_retries_state rc errs w :
  let w' := after_retries url rc errs w in
  dl w' = dl w /\ sink w' = sink w
  /\ calls w' = (calls w + length errs)%nat
  /\ trace w' = trace w ++ retry_trace url rc errs.
Proof.
  revert rc w. induction errs as [|e errs IH]; intros rc w; simpl.
  - rewrite app_nil_r. repeat split; lia.
  - destruct (IH (rc + 1) (retry_step url (rc + 1) e w)) as (Hd & Hs & Hn & Ht).
    rewrite Hd, Hs, Hn, Ht. simpl. repeat split; [lia|].
    now rewrite <- !app_assoc.
Qed.

Lemma Start_loop_retries errs :
  forall fuel rc htr w,
    isCompleted (dl w) = false -> stopChan (dl w) = Open ->
    fetches_fail env url (calls w) errs ->
    Forall (fun e => Contains e "No audio segments found" && negb htr = false) errs ->
    rc + Z.of_nat (length errs) <= MAX_RETRIES ->
    Start_loop env (length errs + fuel) url rc htr w =
    Start_loop env fuel url (rc + Z.of_nat (length errs)) htr (after_retries url rc errs w).
Proof.
  induction errs as [|e errs IH]; intros fuel rc htr w Hc Hs Hf Hm Hrc.
  - simpl. now rewrite Z.add_0_r.
  - destruct Hf as [He Hf]. inversion Hm as [|? ? Hm1 Hm2]; subst.
    cbn [length Nat.add after_retries].
    rewrite (Start_loop_failure _ rc htr w e Hc Hs He Hm1).
    cbn [length] in Hrc. destruct (Z.gtb_spec (rc + 1) MAX_RETRIES) as [Hgt|_]; [lia|].
    rewrite (IH fuel (rc + 1) htr (retry_step url (rc + 1) e w));
      [f_equal; lia|exact Hc|exact Hs|exact Hf|exact Hm2|lia].
Qed.

End Retries.

Lemma slice_to_last_slash s :
  Contains s "/" = true ->
  slice_to s (LastIndex s "/") = Some (keep (Z.to_nat (LastIndex s "/")) s).
Proof.
  rewrite Contains_byte. intros H. apply LastIndex_has_byte in H.
  pose proof (LastIndex_bounds s "/"). unfold slice_to.
  destruct (Z.leb_spec 0 (LastIndex s "/")); [|lia].
  destruct (Z.leb_spec (LastIndex s "/") (len s)); [reflexivity|lia].
Qed.

(** C6.  With the retry bound 10: when the first eleven fetches of the
    manifest each fail with a transient error (the client fails or the
    status is not 200) whose text does not contain "No audio segments
    found", and nobody cancels, [Start] returns the error "Failed to
    get playlist, exceeded max retries: ..." wrapping the eleventh
    error.  It has then sent eleven requests, and logged and waited
    [RETRY_INTERVAL] after each of the first ten, not after the
    eleventh. *)
Theorem eleven_failures_are_fatal env fuel playlistURL w errs last :
  never_closed env ->
  new_request_error env playlistURL = None ->
  Contains playlistURL "/" = true ->
  writer (dl w) = fileWriter ->
  stopChan (dl w) = Open ->
  isCompleted (dl w) = false ->
  Z.of_nat (length errs) = MAX_RETRIES ->
  fetches_fail env playlistURL (calls w) (errs ++ [last]) ->
  Forall (fun e => Contains e "No audio segments found" = false) (errs ++ [last]) ->
  (11 <= fuel)%nat ->
  exists w',
    Start env fuel playlistURL w = Ret (Some (retries_exceeded last)) w'
    /\ trace w' = trace w
                  ++ [EvLog LogStarting; EvLog (LogOutputFile (f_name (sink w)))]
                  ++ retry_trace playlistURL 0 errs
                  ++ [EvGet playlistURL].
Proof.
  intros Hq Hreq Hslash Hw Hs Hc Hlen Hfail Hmagic Hfuel.
  unfold Start. rewrite (slice_to_last_slash _ Hslash).
  change (writer (dl (log LogStarting (with_dl (set_baseURL
            (keep (Z.to_nat (LastIndex playlistURL "/")) playlistURL)) w))))
    with (writer (dl w)).
  rewrite Hw.
  match goal with |- context [Start_loop _ _ _ _ _ ?x] => set (w0 := x) end.
  assert (Ht0 : trace w0 = trace w ++ [EvLog LogStarting;
                                       EvLog (LogOutputFile (f_name (sink w)))]).
  { subst w0. cbn [trace log emit with_dl sink]. now rewrite <- app_assoc. }
  assert (Hl : length errs = 10%nat) by (unfold MAX_RETRIES in Hlen; lia).
  replace fuel with (length errs + S (fuel - 11))%nat by lia.
  assert (Hf1 : fetches_fail env playlistURL (calls w0) errs
                /\ transient_error (client_do env (calls w0 + length errs) playlistURL)
                   = Some last).
  { change (calls w0) with (calls w). clear -Hfail. generalize dependent (calls w).
    induction errs as [|e errs IH]; intros n Hfail; simpl in *.
    - rewrite Nat.add_0_r. tauto.
    - destruct Hfail as [He Hf]. destruct (IH (S n) Hf) as [IH1 IH2]. split; [tauto|].
      now replace (n + S (length errs))%nat with (S n + length errs)%nat by lia. }
  destruct Hf1 as [Hf1 Hf2].
  apply Forall_app in Hmagic as [Hm1 Hm2]. inversion Hm2 as [|? ? Hm3 _]; subst.
  destruct (after_retries_state playlistURL 0 errs w0) as (Hd & _ & Hn & Ht).
  rewrite (Start_loop_retries env playlistURL Hq Hreq errs (S (fuel - 11)) 0 false w0
             Hc Hs Hf1).
  - rewrite (Start_loop_failure env playlistURL Hq Hreq _ _ false _ last).
    + destruct (Z.gtb_spec (0 + Z.of_nat (length errs) + 1) MAX_RETRIES) as [_|Hle];
        [|unfold MAX_RETRIES in *; lia].
      eexists. split; [reflexivity|]. cbn [called trace tick]. rewrite Ht, Ht0.
      now rewrite <- !app_assoc.
    + now rewrite Hd.
    + now rewrite Hd.
    + now rewrite Hn.
    + now rewrite Hm3.
  - revert Hm1. apply List.Forall_impl. intros e He. now rewrite He.
  - lia.
Qed.

(** ** C1: the switch to replay mode *)

Lemma evolves_switched env k w w' : evolves env k w w' -> switched_at_most k w w'.
Proof. intros (t & T & _ & S & _). now exists t. Qed.

(** C1, as the code has it.  Once replay mode has been attempted, a
    failed fetch, whatever its error, never switches modes again: it
    counts as one more failed attempt, which is fatal only when the
    retry counter thereby exceeds [MAX_RETRIES]; otherwise the error is
    logged, the driver waits [RETRY_INTERVAL] and polls again.  A whole
    session announces at most one switch. *)
Theorem replay_switch_at_most_once env fuel playlistURL retryCount w wy err w1 :
  isCompleted (dl w) = false ->
  yield env w = Ret tt wy ->
  stopChan (dl wy) = Open ->
  getPlaylist env (S fuel) playlistURL wy = Ret (inr err) w1 ->
  Start_loop env (S fuel) playlistURL retryCount true w =
    (if retryCount + 1 >? MAX_RETRIES
     then Ret (Some (retries_exceeded err)) w1
     else Start_loop env fuel playlistURL (retryCount + 1) true
            (sleep RETRY_INTERVAL (log (LogRetry (retryCount + 1) err) w1)))
  /\ switched_at_most 0 w (world_of (Start_loop env (S fuel) playlistURL retryCount true w))
  /\ (forall fuel' url' w',
         switched_at_most 1 w' (world_of (Start env fuel' url' w'))).
Proof.
  intros Hc Hy Hs Hg. split; [|split].
  - cbn [Start_loop]. rewrite Hc. unfold bind at 1. rewrite Hy, Hs. unfold bind at 1.
    rewrite Hg, andb_false_r. now destruct (retryCount + 1 >? MAX_RETRIES).
  - apply (evolves_switched env).
    apply (evolves_Start_loop env (S fuel) 0%nat playlistURL retryCount true w w).
    apply evolves_refl.
  - intros fuel' url' w'. apply (evolves_switched env), evolves_Start.
Qed.

(** ** C7: closing *)





(** ** Witnesses and counterexamples *)

Lemma marked_segment_never_reacquired_witness :
  dedup_respected (new_session "out.aac")
                  (world_of (Start growing_manifest 5 live_url (new_session "out.aac")))
  /\ dedup_respected (new_session "out.aac")
                     (world_of (processChunks growing_manifest ["seg1.aac"; "seg1.aac"]
                                              (new_session "out.aac"))).
Proof.
  exact (marked_segment_never_reacquired growing_manifest 5 live_url
           ["seg1.aac"; "seg1.aac"] (new_session "out.aac")).
Defined.

(** The second manifest lists [seg1.aac] again; it is acquired once. *)
Example growing_manifest_trace :
  trace (world_of (Start growing_manifest 5 live_url (new_session "out.aac")))
  = [EvLog LogStarting; EvLog (LogOutputFile "out.aac");
     EvGet live_url; EvLog (LogFoundSegments 1);
     EvAcquire "seg1.aac" "https://h/a/type=live/seg1.aac";
     EvGet "https://h/a/type=live/seg1.aac"; EvMarked "seg1.aac";
     EvSleep CHUNK_INTERVAL;
     EvGet live_url; EvLog (LogFoundSegments 2);
     EvAcquire "seg2.aac" "https://h/a/type=live/seg2.aac";
     EvGet "https://h/a/type=live/seg2.aac"; EvMarked "seg2.aac";
     EvLog LogCompleted].
Proof. vm_compute. reflexivity. Qed.

(** C9 as stated fails: the fetch of [absolute_segments] changes the
    base URL and the completion flag of the downloader in place. *)
Lemma getPlaylist_mutates_session :
  let w := new_session "out.aac" in
  let w' := world_of (getPlaylist absolute_segments 1 live_url w) in
  baseURL (dl w) = "" /\ baseURL (dl w') = "http://cdn/x"
  /\ isCompleted (dl w) = false /\ isCompleted (dl w') = true.
Proof. vm_compute. repeat split. Qed.

Lemma endlist_line_sets_completed_witness :
  isCompleted (dl (world_of (getPlaylist absolute_segments 1 live_url
                                         (new_session "out.aac")))) = true.
Proof.
  apply (endlist_line_sets_completed absolute_segments 0 live_url (new_session "out.aac")
           (manifest ["#EXTINF:1"; "http://cdn/x/seg1.aac";
                      "#EXTINF:1"; "http://cdn/x/seg2.aac"; "#EXT-X-ENDLIST"])
           None "#EXT-X-ENDLIST").
  - reflexivity.
  - reflexivity.
  - vm_compute. tauto.
  - reflexivity.
  - reflexivity.
Defined.

(** C4 as stated fails: a line that contains the marker, no completion. *)
Lemma endlist_on_announcement_line_ignored :
  let o := getPlaylist endlist_on_announcement 1 live_url (new_session "out.aac") in
  In "#EXTINF:1,#EXT-X-ENDLIST"
     (ScanLines (manifest ["#EXTINF:1,#EXT-X-ENDLIST"; "seg1.aac"]))
  /\ Contains "#EXTINF:1,#EXT-X-ENDLIST" "#EXT-X-ENDLIST" = true
  /\ result o = Some (inl ["seg1.aac"])
  /\ isCompleted (dl (world_of o)) = false.
Proof. vm_compute. tauto. Qed.

Lemma nested_playlist_excludes_master_witness :
  (exists w',
      getPlaylist only_master 1 live_url (new_session "out.aac")
      = Ret (inr no_segments_error) w')
  /\ (exists w',
         getPlaylist two_playlists 2 live_url based
         = getPlaylist two_playlists 1 "https://h/a/a.m3u8"
                       (log (LogFoundPlaylist "https://h/a/a.m3u8") w')).
Proof.
  split.
  - destruct (nested_playlist_excludes_master only_master 0 live_url (new_session "out.aac")
                (manifest ["#EXTM3U"; "master_playlist.m3u8"]) None eq_refl eq_refl)
      as (completed & Hmaster & _).
    + vm_compute. intros text [<-|[<-|[]]]; reflexivity.
    + eexists. apply Hmaster.
      vm_compute. intros text [<-|[<-|[]]]; intros; (reflexivity || discriminate).
  - destruct (nested_playlist_excludes_master two_playlists 1 live_url based
                (manifest ["#EXTM3U"; "master_playlist.m3u8"; "a.m3u8"; "b.m3u8"]) None
                eq_refl eq_refl)
      as (completed & _ & Hfirst & _).
    + vm_compute. intros text [<-|[<-|[<-|[<-|[]]]]]; reflexivity.
    + eexists.
      apply (Hfirst ["#EXTM3U"; "master_playlist.m3u8"] "a.m3u8" ["b.m3u8"]).
      * vm_compute. reflexivity.
      * vm_compute. intros t [<-|[<-|[]]]; intros; (reflexivity || discriminate).
      * vm_compute. reflexivity.
      * vm_compute. reflexivity.
Defined.

(** The nested playlist of [nested] is fetched, and its segments are
    the result. *)
Example nested_playlist_followed :
  let o := getPlaylist nested 2 live_url
                       (with_dl (set_baseURL "https://h/a") (new_session "out.aac")) in
  result o = Some (inl ["seg1.aac"])
  /\ trace (world_of o)
     = [EvGet live_url; EvLog (LogFoundPlaylist "https://h/a/playlist_16.m3u8");
        EvGet "https://h/a/playlist_16.m3u8"; EvLog (LogFoundSegments 1)].
Proof. vm_compute. split; reflexivity. Qed.

(** C2 as stated fails: the master playlist is not fetched, the fetch
    fails after one request. *)
Lemma master_playlist_not_fetched :
  let o := getPlaylist only_master 5 live_url (new_session "out.aac") in
  result o = Some (inr "No audio segments or valid playlist found")
  /\ trace (world_of o) = [EvGet live_url].
Proof. vm_compute. split; reflexivity. Qed.

Lemma absolute_first_segment_rebases_witness :
  (exists w',
      getPlaylist absolute_segments 1 live_url (new_session "out.aac")
      = Ret (inl ["seg1.aac"; "seg2.aac"]) w'
      /\ slice_to "http://cdn/x/seg1.aac" 12 = Some (baseURL (dl w')))
  /\ (exists w',
         getPlaylist absolute_second 1 live_url based
         = Ret (inl ["seg1.aac"; "http://cdn/x/seg2.aac"]) w'
         /\ baseURL (dl w') = baseURL (dl based)).
Proof.
  split.
  - apply (absolute_first_segment_rebases absolute_segments 0 live_url
             (new_session "out.aac")
             (manifest ["#EXTINF:1"; "http://cdn/x/seg1.aac";
                        "#EXTINF:1"; "http://cdn/x/seg2.aac"; "#EXT-X-ENDLIST"])
             None "http://cdn/x/seg1.aac" ["http://cdn/x/seg2.aac"] false true).
    + reflexivity.
    + reflexivity.
    + vm_compute. reflexivity.
    + reflexivity.
    + vm_compute. discriminate.
  - apply (absolute_first_segment_rebases absolute_second 0 live_url based
             (manifest ["#EXTINF:1"; "seg1.aac"; "#EXTINF:1"; "http://cdn/x/seg2.aac"])
             None "seg1.aac" ["http://cdn/x/seg2.aac"] false false).
    + reflexivity.
    + reflexivity.
    + vm_compute. reflexivity.
    + left. reflexivity.
Defined.

(** C8 as stated fails: an absolute reference that is not the first
    one is returned as it is, and the base URL stays. *)
Lemma absolute_second_segment_kept :
  let w := new_session "out.aac" in
  let o := getPlaylist absolute_second 1 live_url w in
  result o = Some (inl ["seg1.aac"; "http://cdn/x/seg2.aac"])
  /\ baseURL (dl (world_of o)) = baseURL (dl w).
Proof. vm_compute. split; reflexivity. Qed.

Lemma segments_returned_in_order_witness :
  exists refs w',
    getPlaylist two_segments 1 live_url (new_session "out.aac") = Ret (inl refs) w'
    /\ length refs = 2%nat
    /\ (refs = ["seg1.aac"; "seg2.aac"] \/ refs = map Base ["seg1.aac"; "seg2.aac"])
    /\ (forall first rest, ["seg1.aac"; "seg2.aac"] = first :: rest ->
                           HasPrefix first "http" = false ->
                           refs = ["seg1.aac"; "seg2.aac"])
    /\ isCompleted (dl w') = false.
Proof.
  apply (segments_returned_in_order two_segments 0 live_url (new_session "out.aac")
           (manifest ["#EXTINF:1"; "seg1.aac"; "#EXTINF:1"; "seg2.aac"]) None
           [("#EXTINF:1", "seg1.aac"); ("#EXTINF:1", "seg2.aac")]).
  - reflexivity.
  - reflexivity.
  - vm_compute. reflexivity.
  - discriminate.
  - intros l H. simpl in H. decompose [or] H; subst; try contradiction; reflexivity.
  - intros p H. simpl in H. decompose [or] H; subst; try contradiction; reflexivity.
  - intros p H. simpl in H.
    decompose [or] H; subst; try contradiction; vm_compute; repeat split; discriminate.
  - reflexivity.
Defined.

Lemma append_cons a s1 s2 : String a s1 +:+ s2 = String a (s1 +:+ s2).
Proof. reflexivity. Qed.

Lemma append_empty_r s : s +:+ "" = s.
Proof.
  induction s as [|a s IH]; [reflexivity|]. rewrite append_cons. now f_equal.
Qed.

Lemma append_assoc s1 s2 s3 : (s1 +:+ s2) +:+ s3 = s1 +:+ (s2 +:+ s3).
Proof.
  induction s1 as [|a s1 IH]; [reflexivity|]. rewrite !append_cons. now f_equal.
Qed.

Lemma len_append s1 s2 : len (s1 +:+ s2) = len s1 + len s2.
Proof.
  unfold len. induction s1 as [|a s1 IH]; [reflexivity|].
  rewrite append_cons. cbn [String.length]. lia.
Qed.

Lemma len_replicate_byte n c : len (replicate_byte n c) = Z.of_nat n.
Proof. unfold len. induction n as [|n IH]; simpl String.length; lia. Qed.

Lemma has_byte_replicate_byte n c b :
  Ascii.eqb c b = false -> has_byte b (replicate_byte n c) = false.
Proof. intros H. induction n as [|n IH]; simpl; [reflexivity|]. now rewrite H. Qed.

Lemma split_LF_line l : forall cur rest,
  has_byte LF l = false ->
  split_LF cur (l +:+ String LF rest) = (cur +:+ l) :: split_LF "" rest.
Proof.
  induction l as [|a l IH]; intros cur rest H.
  - change ("" +:+ String LF rest) with (String LF rest). cbn [split_LF].
    rewrite Ascii.eqb_refl. now rewrite append_empty_r.
  - simpl in H. apply orb_false_iff in H as [Ha Hl].
    rewrite append_cons. cbn [split_LF]. rewrite Ha, (IH _ _ Hl), append_assoc.
    reflexivity.
Qed.

(** The lines of a text in which every line is followed by a line
    feed are those lines. *)
Lemma split_LF_manifest lines :
  (forall l, In l lines -> has_byte LF l = false) ->
  split_LF "" (manifest lines) = lines.
Proof.
  induction lines as [|l lines IH]; intros H; [reflexivity|].
  cbn [manifest]. rewrite split_LF_line by (apply H; now left).
  change ("" +:+ l) with l. f_equal. apply IH. intros; apply H. now right.
Qed.

(** A line of [MaxScanTokenSize] bytes or more ends the scan. *)
Lemma overlong_line_stops_scan n rest :
  MaxScanTokenSize <= Z.of_nat n ->
  ScanLines (("#EXTINF:" +:+ replicate_byte n "a") +:+ String LF rest) = [].
Proof.
  intros Hn. unfold ScanLines. rewrite split_LF_line.
  - cbn [fitting]. rewrite len_append, len_append, len_replicate_byte.
    change (len "") with 0. change (len "#EXTINF:") with 8.
    destruct (Z.ltb_spec (0 + (8 + Z.of_nat n)) MaxScanTokenSize); [lia|reflexivity].
  - rewrite has_byte_app, has_byte_replicate_byte; reflexivity.
Qed.

Lemma long_manifest_lines : ScanLines long_manifest = [].
Proof.
  unfold long_manifest, long_announcement. apply overlong_line_stops_scan.
  rewrite Z2Nat.id; [lia|discriminate].
Qed.

(** C3 as stated fails: for N = 0 the fetch fails instead of returning
    no reference; and one pair whose first line fills the scanner's
    buffer yields no reference either. *)
Lemma no_pair_or_overlong_line_fails :
  (split_LF "" "" = pair_lines []
   /\ result (getPlaylist (script [ok ""]) 1 live_url (new_session "out.aac"))
      = Some (inr "No audio segments or valid playlist found"))
  /\ (long_manifest = manifest [long_announcement; "seg1.aac"]
      /\ HasPrefix long_announcement "#EXTINF:" = true
      /\ result (getPlaylist overlong_line 1 live_url (new_session "out.aac"))
         = Some (inr "No audio segments or valid playlist found")).
Proof.
  split; [split; reflexivity|]. split; [reflexivity|]. split; [reflexivity|].
  rewrite (getPlaylist_no_segments overlong_line 0 live_url (new_session "out.aac")
             long_manifest None false false eq_refl eq_refl).
  - now rewrite long_manifest_lines.
  - now rewrite long_manifest_lines.
Qed.

Lemma eleven_failures_are_fatal_witness :
  exists w',
    Start unreachable 11 live_url (new_session "out.aac")
    = Ret (Some "Failed to get playlist, exceeded max retries: connection refused") w'
    /\ trace w' = [EvLog LogStarting; EvLog (LogOutputFile "out.aac")]
                  ++ retry_trace live_url 0 (repeat "connection refused" 10)
                  ++ [EvGet live_url].
Proof.
  apply (eleven_failures_are_fatal unreachable 11 live_url (new_session "out.aac")
           (repeat "connection refused" 10) "connection refused").
  - intros n. reflexivity.
  - reflexivity.
  - reflexivity.
  - reflexivity.
  - reflexivity.
  - reflexivity.
  - reflexivity.
  - simpl. repeat split; reflexivity.
  - repeat constructor.
  - lia.
Defined.

(** [after_switch] is where the session of [empty_after_replay] stands
    after its first fetch. *)
Example empty_after_replay_switches :
  Start empty_after_replay 5 live_url (new_session "out.aac")
  = Start_loop empty_after_replay 4 replay_url 0 true after_switch.
Proof. vm_compute. reflexivity. Qed.

Lemma replay_switch_at_most_once_witness :
  Start_loop empty_after_replay 4 replay_url 0 true after_switch =
    (if 0 + 1 >? MAX_RETRIES
     then Ret (Some (retries_exceeded no_segments_error))
              (scanned replay_url false "https://h/a/type=replay" (tick after_switch))
     else Start_loop empty_after_replay 3 replay_url (0 + 1) true
            (sleep RETRY_INTERVAL
               (log (LogRetry (0 + 1) no_segments_error)
                    (scanned replay_url false "https://h/a/type=replay" (tick after_switch)))))
  /\ switched_at_most 0 after_switch
       (world_of (Start_loop empty_after_replay 4 replay_url 0 true after_switch)).
Proof.
  destruct (replay_switch_at_most_once empty_after_replay 3 replay_url 0
              after_switch (tick after_switch) no_segments_error
              (scanned replay_url false "https://h/a/type=replay" (tick after_switch)))
    as (H1 & H2 & _).
  - reflexivity.
  - reflexivity.
  - reflexivity.
  - vm_compute. reflexivity.
  - split; [exact H1|exact H2].
Defined.

(** C1 as stated fails: the second of two fetches that find no segments
    is not fatal (and the first did not switch modes); and after the
    switch to replay a fetch that finds no segments is retried.  Both
    sessions end normally. *)
Lemma second_no_segments_error_is_retried :
  (let o := Start two_empty_manifests 5 live_url (new_session "out.aac") in
   result o = Some None
   /\ trace (world_of o)
      = [EvLog LogStarting; EvLog (LogOutputFile "out.aac");
         EvGet live_url; EvLog (LogRetry 1 no_segments_error); EvSleep RETRY_INTERVAL;
         EvGet live_url; EvLog (LogRetry 2 no_segments_error); EvSleep RETRY_INTERVAL;
         EvGet live_url; EvLog (LogFoundSegments 1);
         EvAcquire "seg1.aac" "https://h/a/type=live/seg1.aac";
         EvGet "https://h/a/type=live/seg1.aac"; EvMarked "seg1.aac";
         EvLog LogCompleted])
  /\ (let o := Start empty_after_replay 5 live_url (new_session "out.aac") in
      let replay_url := "https://h/a/type=replay/master_playlist.m3u8?x=1" in
      result o = Some None
      /\ trace (world_of o)
         = [EvLog LogStarting; EvLog (LogOutputFile "out.aac");
            EvGet live_url; EvLog LogSwitching; EvLog (LogNewURL replay_url);
            EvGet replay_url; EvLog (LogRetry 1 no_segments_error); EvSleep RETRY_INTERVAL;
            EvGet replay_url; EvLog (LogFoundSegments 1);
            EvAcquire "seg1.aac" "https://h/a/type=replay/seg1.aac";
            EvGet "https://h/a/type=replay/seg1.aac"; EvMarked "seg1.aac";
            EvLog LogCompleted]).
Proof. vm_compute. repeat split. Qed.



(** ** The library functions on the strings of the scenarios *)

Example TrimSpace_unicode :
  TrimSpace (byte 227 +:+ byte 128 +:+ byte 128 +:+ "  a b"
             +:+ byte 194 +:+ byte 160 +:+ byte 226 +:+ byte 128 +:+ byte 131
             +:+ byte 13) = "a b"
  /\ TrimSpace (byte 160 +:+ "a") = byte 160 +:+ "a".
Proof. vm_compute. split; reflexivity. Qed.

Example Base_examples :
  Base "http://a/b/seg1.aac" = "seg1.aac" /\ Base "a/b/" = "b"
  /\ Base "///" = "/" /\ Base "x" = "x" /\ Base "" = ".".
Proof. vm_compute. repeat split. Qed.

Example fmt_d_examples : fmt_d 404 = "404" /\ fmt_d (-3) = "-3" /\ fmt_d 0 = "0".
Proof. vm_compute. repeat split. Qed.

Example Index_examples :
  LastIndex "a/b/c" "/" = 3 /\ LastIndex "abc" "/" = -1 /\ LastIndex "abc" "" = 3
  /\ Index "abcabc" "ca" = 2 /\ LastIndex "" "" = 0.
Proof. vm_compute. repeat split. Qed.

(** The rewrite scenario of the specification. *)
Example switchToReplay_scenario :
  result (switchToReplay live_url (new_session "out.aac")) = Some replay_url.
Proof. vm_compute. reflexivity. Qed.

(** The text of the fetcher's own error is not one the driver takes for
    "no segments". *)
Example no_segments_error_text :
  Contains no_segments_error "No audio segments found" = false.
Proof. vm_compute. reflexivity. Qed.

(** The scanner's lines: carriage returns dropped, empty lines kept, no
    line after the last line feed. *)
Example ScanLines_example :
  ScanLines ("a" +:+ String CR (String LF (String LF ("b" +:+ String LF ""))))
  = ["a"; ""; "b"].
Proof. vm_compute. reflexivity. Qed.

(** The complete scenario of the specification: both segments are
    acquired, then the session is completed. *)
Example complete_scenario :
  let o := Start (script [ok (manifest ["#EXTINF:1"; "seg1.aac"; "#EXTINF:1"; "seg2.aac";
                                        "#EXT-X-ENDLIST"]); ok "s1"; ok "s2"])
                 2 live_url (new_session "out.aac") in
  result o = Some None
  /\ f_data (sink (world_of o)) = "s1s2"
  /\ isCompleted (dl (world_of o)) = true.
Proof. vm_compute. repeat split. Qed.

(** * Further properties of the downloader *)

(** ** No panic *)

Lemma evolves_writer env k w w' : evolves env k w w' -> writer (dl w') = writer (dl w).
Proof. now intros (t & _ & _ & _ & _ & W & _). Qed.

Lemma evolves_closed_stays env k w w' :
  evolves env k w w' -> f_closed (sink w) = true -> f_closed (sink w') = true.
Proof. now intros (t & _ & _ & _ & _ & _ & _ & _ & _ & D & _). Qed.

Lemma Close_returns w : exists w', Close w = Ret tt w'.
Proof.
  unfold Close. destruct (stopChan (dl w)); cbn [close_chan];
    match goal with |- context [writer ?d] => destruct (writer d) end; eauto.
Qed.

Lemma yield_returns env w : exists w', yield env w = Ret tt w'.
Proof.
  unfold yield. destruct (close_called env (ticks w)); [apply Close_returns|eauto].
Qed.

Lemma getPlaylist_no_panic env fuel :
  forall url w, no_panic (getPlaylist env fuel url w).
Proof.
  induction fuel as [|fuel IH]; intros url w; [exact I|].
  cbn [getPlaylist]. destruct (new_request_error env url); [exact I|].
  destruct (client_do env (calls w) url) as [err|status content ce]; [exact I|].
  destruct (negb (status =? StatusOK)); [exact I|].
  destruct (scan_segments _ _) as [[chunks isChunk] completed].
  destruct (rebase _ chunks) as [base [|c cs]]; [|exact I].
  destruct (find_playlist _); [apply IH|exact I].
Qed.

Lemma downloadChunk_no_panic env url w :
  writer (dl w) = fileWriter -> no_panic (downloadChunk env url w).
Proof.
  intros Hw. unfold downloadChunk. destruct (new_request_error env url); [exact I|].
  destruct (client_do env (calls w) url) as [err|status body ce]; [exact I|].
  destruct (negb (status =? StatusOK)); [exact I|].
  unfold bind.
  pose proof (evolves_yield env 0%nat _ _ (evolves_refl env 0%nat (called url w))) as Hy.
  destruct (yield_returns env (called url w)) as (w1 & E). rewrite E in *. simpl in Hy.
  apply evolves_writer in Hy. unfold io_Copy. destruct (String.eqb body ""); [exact I|].
  rewrite Hy. change (writer (dl (called url w))) with (writer (dl w)). rewrite Hw.
  now destruct (f_closed (sink w1)).
Qed.

Lemma processChunks_no_panic env chunks :
  forall w, writer (dl w) = fileWriter -> no_panic (processChunks env chunks w).
Proof.
  induction chunks as [|chunk rest IH]; intros w Hw; [exact I|].
  cbn [processChunks]. unfold bind at 1.
  pose proof (evolves_yield env 0%nat _ _ (evolves_refl env 0%nat w)) as Hy.
  destruct (yield_returns env w) as (w1 & E). rewrite E in *. simpl in Hy.
  apply evolves_writer in Hy. rewrite Hw in Hy.
  destruct (stopChan (dl w1)); [|exact I].
  destruct (seen (dl w1) chunk); [now apply IH|].
  unfold bind.
  set (w2 := emit (EvAcquire chunk (join_url (baseURL (dl w1)) chunk)) w1).
  pose proof (downloadChunk_no_panic env (join_url (baseURL (dl w1)) chunk) w2 Hy) as Hn.
  pose proof (evolves_downloadChunk env 0%nat w2 w2 (join_url (baseURL (dl w1)) chunk)
                (evolves_refl env 0%nat w2)) as Hd.
  destruct (downloadChunk env _ w2) as [[e|] w3|w3|w3]; simpl in Hd; try exact Hn;
    apply evolves_writer in Hd; change (writer (dl w2)) with (writer (dl w1)) in Hd;
    rewrite Hy in Hd.
  - destruct (Contains e "file already closed"); [exact I|]. now apply IH.
  - now apply IH.
Qed.

Lemma HasPrefix_split s p : HasPrefix s p = true -> s = p +:+ skip (String.length p) s.
Proof.
  unfold HasPrefix. revert s. induction p as [|a p IH]; intros s H; [reflexivity|].
  destruct s as [|b s]; [discriminate|]. cbn [String.prefix] in H.
  destruct (ascii_dec a b) as [->|]; [|discriminate].
  rewrite append_cons. cbn [String.length skip]. f_equal. now apply IH.
Qed.

Lemma has_byte_Replace1_keeps c s old new :
  has_byte c s = true -> has_byte c old = false ->
  has_byte c (Replace1 s old new) = true.
Proof.
  intros Hs Hold. induction s as [|a s IH]; [discriminate|].
  cbn [Replace1]. destruct (HasPrefix (String a s) old) eqn:Ep.
  - rewrite (HasPrefix_split _ _ Ep), has_byte_app, Hold in Hs. simpl in Hs.
    rewrite has_byte_app, Hs. apply orb_true_r.
  - simpl in *. destruct (Ascii.eqb a c); [reflexivity|]. simpl in *. auto.
Qed.

Lemma switchToReplay_returns url w :
  Contains url "/" = true ->
  exists url' w',
    switchToReplay url w = Ret url' w' /\ Contains url' "/" = true
    /\ writer (dl w') = writer (dl w).
Proof.
  intros H. unfold switchToReplay.
  match goal with |- context [LogNewURL ?x] => set (r := x) end.
  assert (Hr : Contains r "/" = true).
  { subst r. rewrite Contains_byte in *.
    assert (H1 : has_byte "/" (Replace1 url "type=live" "type=replay") = true)
      by (now apply has_byte_Replace1_keeps).
    destruct (Contains _ "dynamic_playlist.m3u8"); [|exact H1].
    now apply has_byte_Replace1_keeps. }
  rewrite (slice_to_last_slash _ Hr). eexists _, _. split; [reflexivity|]. now split.
Qed.

Lemma Start_loop_no_panic env fuel :
  forall url rc htr w,
    Contains url "/" = true -> writer (dl w) = fileWriter ->
    no_panic (Start_loop env fuel url rc htr w).
Proof.
  induction fuel as [|fuel IH]; intros url rc htr w Hu Hw; [exact I|].
  cbn [Start_loop]. destruct (isCompleted (dl w)); [exact I|].
  unfold bind at 1.
  pose proof (evolves_yield env 0%nat _ _ (evolves_refl env 0%nat w)) as Hy.
  destruct (yield_returns env w) as (w1 & E). rewrite E in *. simpl in Hy.
  apply evolves_writer in Hy. rewrite Hw in Hy.
  destruct (stopChan (dl w1)); [|exact I].
  unfold bind at 1.
  pose proof (getPlaylist_no_panic env (S fuel) url w1) as Hn.
  pose proof (evolves_getPlaylist env 0%nat w1 (S fuel) url w1 (evolves_refl env 0%nat w1))
    as Hg.
  destruct (getPlaylist env (S fuel) url w1) as [[chunks|err] w2|w2|w2];
    simpl in Hg; try exact Hn; apply evolves_writer in Hg; rewrite Hy in Hg.
  - unfold bind at 1.
    pose proof (processChunks_no_panic env chunks w2 Hg) as Hp.
    pose proof (evolves_processChunks env 0%nat w2 chunks w2 (evolves_refl env 0%nat w2))
      as Hq.
    destruct (processChunks env chunks w2) as [[e|] w3|w3|w3];
      simpl in Hq; try exact Hp. apply evolves_writer in Hq. rewrite Hg in Hq.
    apply IH; [exact Hu|]. now destruct (isCompleted (dl w3)).
  - destruct (Contains err "No audio segments found" && negb htr).
    + unfold bind.
      destruct (switchToReplay_returns url w2 Hu) as (url' & w3 & Es & Hu' & Hw3).
      rewrite Es. apply IH; [exact Hu'|congruence].
    + destruct (rc + 1 >? MAX_RETRIES); [exact I|]. now apply IH.
Qed.

(** [Start] panics only for a playlist URL without [/] (or a nil
    writer): with a [/] in the URL and a writer, no network behaviour
    and no cancellation makes it panic, however long it runs. *)
Theorem Start_never_panics_with_slash env fuel playlistURL w :
  Contains playlistURL "/" = true ->
  writer (dl w) = fileWriter ->
  no_panic (Start env fuel playlistURL w).
Proof.
  intros Hu Hw. unfold Start. rewrite (slice_to_last_slash _ Hu).
  change (writer (dl (log LogStarting (with_dl (set_baseURL
            (keep (Z.to_nat (LastIndex playlistURL "/")) playlistURL)) w))))
    with (writer (dl w)).
  rewrite Hw. now apply Start_loop_no_panic.
Qed.

Lemma Start_never_panics_with_slash_witness :
  no_panic (Start growing_manifest 5 live_url (new_session "out.aac")).
Proof.
  apply (Start_never_panics_with_slash growing_manifest 5 live_url (new_session "out.aac"));
    reflexivity.
Defined.

(** ** What is written and what is marked *)

Section Accounted.

Variable env : Env.

Lemma accounted_refl w : accounted env w w.
Proof.
  exists [], "". rewrite app_nil_r, append_empty_r.
  repeat split; auto. intros r [].
Qed.

Lemma accounted_trans w w1 w2 :
  accounted env w w1 -> accounted env w1 w2 -> accounted env w w2.
Proof.
  intros (t1 & d1 & T1 & N1 & D1 & C1 & F1 & M1) (t2 & d2 & T2 & N2 & D2 & C2 & F2 & M2).
  exists (t1 ++ t2), (d1 +:+ d2).
  rewrite T2, T1, D2, D1, app_assoc, append_assoc. repeat split; auto; try lia.
  - intros H. now rewrite (C1 H), (C2 (F1 H)).
  - intros r Hin. apply in_app_or in Hin as [Hin|Hin].
    + destruct (M1 r Hin) as (n & u & body & Hn & Hr & Ha).
      exists n, u, body. repeat split; auto; try lia. apply in_or_app. now left.
    + destruct (M2 r Hin) as (n & u & body & Hn & Hr & Ha).
      exists n, u, body. repeat split; auto; try lia. apply in_or_app. now right.
Qed.

(** A step that puts no mark and writes nothing. *)
Lemma accounted_step w0 w w' t :
  accounted env w0 w ->
  trace w' = trace w ++ t ->
  (forall r, ~ In (EvMarked r) t) ->
  (calls w <= calls w')%nat ->
  f_data (sink w') = f_data (sink w) ->
  (f_closed (sink w) = true -> f_closed (sink w') = true) ->
  accounted env w0 w'.
Proof.
  intros H T M N D F. apply (accounted_trans w0 w w' H).
  exists t, "". rewrite append_empty_r. repeat split; auto.
  intros r Hin. now destruct (M r).
Qed.

Lemma accounted_emit w0 w e :
  (forall r, e <> EvMarked r) ->
  accounted env w0 w -> accounted env w0 (emit e w).
Proof.
  intros He H. apply (accounted_step w0 w _ [e] H); auto.
  intros r [Hr|[]]. now apply (He r).
Qed.

Lemma accounted_called w0 w url :
  accounted env w0 w -> accounted env w0 (called url w).
Proof.
  intros H. apply (accounted_step w0 w _ [EvGet url] H); auto.
  - intros r [Hr|[]]. discriminate.
  - simpl. lia.
Qed.

Lemma accounted_with_dl w0 w f :
  accounted env w0 w -> accounted env w0 (with_dl f w).
Proof.
  intros H. apply (accounted_step w0 w _ [] H); auto. now rewrite app_nil_r.
Qed.

Lemma accounted_yield w0 w :
  accounted env w0 w -> accounted env w0 (world_of (yield env w)).
Proof.
  intros H. unfold yield, Close.
  destruct (close_called env (ticks w)); [|apply (accounted_step w0 w _ [] H); auto;
                                           simpl; now rewrite app_nil_r].
  destruct (stopChan (dl (tick w))); cbn [close_chan];
    match goal with |- context [writer ?d] => destruct (writer d) end;
    apply (accounted_step w0 w _ [] H); auto; simpl; now rewrite app_nil_r.
Qed.

Lemma accounted_io_Copy w0 w body ce :
  accounted env w0 w -> accounted env w0 (world_of (io_Copy body ce w)).
Proof.
  intros H. unfold io_Copy. destruct (String.eqb body ""); [exact H|].
  destruct (writer (dl w)); [exact H|]. destruct (f_closed (sink w)) eqn:Ec; [exact H|].
  apply (accounted_trans w0 w _ H). exists [], body. simpl. rewrite app_nil_r, Ec.
  repeat split; auto; try discriminate. intros r [].
Qed.

Lemma accounted_getPlaylist w0 fuel :
  forall url w,
    accounted env w0 w -> accounted env w0 (world_of (getPlaylist env fuel url w)).
Proof.
  induction fuel as [|fuel IH]; intros url w H; [exact H|].
  cbn [getPlaylist]. destruct (new_request_error env url); [exact H|].
  destruct (client_do env (calls w) url) as [err|status content ce];
    [now apply accounted_called|].
  destruct (negb (status =? StatusOK)); [now apply accounted_called|].
  destruct (scan_segments _ _) as [[chunks isChunk] completed].
  destruct (rebase _ chunks) as [base chunks'].
  assert (H3 : accounted env w0
                 (with_dl (set_baseURL base)
                    (with_dl (set_isCompleted completed) (called url w))))
    by (now apply accounted_with_dl, accounted_with_dl, accounted_called).
  destruct chunks' as [|c cs].
  - destruct (find_playlist _); [|exact H3].
    apply IH. apply accounted_emit; [discriminate|exact H3].
  - simpl. apply accounted_emit; [discriminate|exact H3].
Qed.

Lemma accounted_downloadChunk w0 w url :
  accounted env w0 w -> accounted env w0 (world_of (downloadChunk env url w)).
Proof.
  intros H. unfold downloadChunk. destruct (new_request_error env url); [exact H|].
  destruct (client_do env (calls w) url) as [err|status body ce];
    [now apply accounted_called|].
  destruct (negb (status =? StatusOK)); [now apply accounted_called|].
  unfold bind.
  pose proof (accounted_yield w0 _ (accounted_called w0 w url H)) as Hy.
  destruct (yield env (called url w)) as [[] w1|w1|w1]; simpl in Hy; try exact Hy.
  now apply accounted_io_Copy.
Qed.

Lemma yield_effect w :
  exists w1,
    yield env w = Ret tt w1 /\ trace w1 = trace w /\ calls w1 = calls w
    /\ f_data (sink w1) = f_data (sink w)
    /\ (f_closed (sink w) = true -> f_closed (sink w1) = true).
Proof.
  unfold yield, Close. destruct (close_called env (ticks w)).
  - destruct (stopChan (dl (tick w))); cbn [close_chan];
      match goal with |- context [writer ?d] => destruct (writer d) end;
      eexists; (split; [reflexivity|]); now repeat split.
  - eexists; (split; [reflexivity|]); now repeat split.
Qed.

(** A download that succeeds: the request was answered with status 200
    and its body streamed without error. *)
Lemma downloadChunk_success url w w' :
  downloadChunk env url w = Ret None w' ->
  exists body d,
    client_do env (calls w) url = Response StatusOK body None
    /\ trace w' = trace w ++ [EvGet url]
    /\ calls w' = S (calls w)
    /\ f_data (sink w') = f_data (sink w) +:+ d
    /\ (f_closed (sink w) = true -> d = "")
    /\ (f_closed (sink w) = true -> f_closed (sink w') = true).
Proof.
  unfold downloadChunk. destruct (new_request_error env url); [discriminate|].
  destruct (client_do env (calls w) url) as [err|status body ce]; [discriminate|].
  destruct (Z.eqb_spec status StatusOK) as [->|]; [|discriminate]. cbn [negb].
  unfold bind. destruct (yield_effect (called url w)) as (w1 & Ey & Ht & Hn & Hd & Hc).
  rewrite Ey. unfold io_Copy. destruct (String.eqb body "").
  - intros [= -> <-]. exists body, "". rewrite append_empty_r. now repeat split.
  - destruct (writer (dl w1)); [discriminate|].
    destruct (f_closed (sink w1)) eqn:Ec; [discriminate|].
    intros [= -> <-]. exists body, body. cbn [with_sink sink f_data f_closed trace calls].
    rewrite Hd, Ec. repeat split; auto; intros H; apply Hc in H; congruence.
Qed.

Lemma accounted_processChunks w0 chunks :
  forall w,
    accounted env w0 w -> accounted env w0 (world_of (processChunks env chunks w)).
Proof.
  induction chunks as [|chunk rest IH]; intros w H; [exact H|].
  cbn [processChunks]. unfold bind at 1.
  pose proof (accounted_yield w0 w H) as Hy.
  destruct (yield env w) as [[] w1|w1|w1]; simpl in Hy; try exact Hy.
  destruct (stopChan (dl w1)); [|exact Hy].
  destruct (seen (dl w1) chunk); [now apply IH|].
  unfold bind. set (u := join_url (baseURL (dl w1)) chunk).
  pose proof (accounted_downloadChunk w0 _ u
                (accounted_emit w0 w1 (EvAcquire chunk u) ltac:(discriminate) Hy)) as Hd.
  destruct (downloadChunk env u (emit (EvAcquire chunk u) w1)) as [[e|] w3|w3|w3] eqn:E;
    simpl in Hd; try exact Hd.
  - destruct (Contains e "file already closed"); [exact Hd|].
    apply IH. apply accounted_emit; [discriminate|exact Hd].
  - apply IH. apply (accounted_trans w0 w1 _ Hy).
    destruct (downloadChunk_success _ _ _ E) as (body & d & Hr & Ht & Hn & Hdat & Hc & Hf).
    exists [EvAcquire chunk u; EvGet u; EvMarked chunk], d.
    cbn [emit with_dl trace calls sink] in *. rewrite Ht, Hn, Hdat, <- !app_assoc.
    repeat split; auto.
    intros r [Hr'|[Hr'|[Hr'|[]]]]; try discriminate. injection Hr' as <-.
    exists (calls w1), u, body. repeat split; auto. now left.
Qed.

Lemma accounted_switchToReplay w0 w url :
  accounted env w0 w -> accounted env w0 (world_of (switchToReplay url w)).
Proof.
  intros H. unfold switchToReplay.
  match goal with |- context [LogNewURL ?x] => set (r := x) end.
  assert (H1 : accounted env w0 (log (LogNewURL r) (log LogSwitching w)))
    by (apply accounted_emit; [discriminate|]; apply accounted_emit; [discriminate|exact H]).
  destruct (slice_to r _); [|exact H1]. now apply accounted_with_dl.
Qed.

Lemma accounted_Start_loop fuel :
  forall url rc htr w0 w,
    accounted env w0 w ->
    accounted env w0 (world_of (Start_loop env fuel url rc htr w)).
Proof.
  induction fuel as [|fuel IH]; intros url rc htr w0 w H; [exact H|].
  cbn [Start_loop]. destruct (isCompleted (dl w)).
  { apply accounted_emit; [discriminate|exact H]. }
  unfold bind at 1. pose proof (accounted_yield w0 w H) as Hy.
  destruct (yield env w) as [[] w1|w1|w1]; simpl in Hy; try exact Hy.
  destruct (stopChan (dl w1)).
  2:{ apply accounted_emit; [discriminate|exact Hy]. }
  unfold bind at 1. pose proof (accounted_getPlaylist w0 (S fuel) url w1 Hy) as Hg.
  destruct (getPlaylist env (S fuel) url w1) as [[chunks|err] w2|w2|w2];
    simpl in Hg; try exact Hg.
  - unfold bind at 1. pose proof (accounted_processChunks w0 chunks w2 Hg) as Hp.
    destruct (processChunks env chunks w2) as [[e|] w3|w3|w3]; simpl in Hp; try exact Hp.
    apply IH. destruct (isCompleted (dl w3)); [exact Hp|].
    apply accounted_emit; [discriminate|exact Hp].
  - destruct (Contains err "No audio segments found" && negb htr).
    + unfold bind. pose proof (accounted_switchToReplay w0 w2 url Hg) as Hs.
      destruct (switchToReplay url w2) as [url' w3|w3|w3]; simpl in Hs; try exact Hs.
      now apply IH.
    + destruct (rc + 1 >? MAX_RETRIES); [exact Hg|].
      apply IH. apply accounted_emit; [discriminate|].
      apply accounted_emit; [discriminate|exact Hg].
Qed.

Lemma accounted_Start fuel url w :
  accounted env w (world_of (Start env fuel url w)).
Proof.
  unfold Start. destruct (slice_to url _) as [base|]; [|apply accounted_refl].
  assert (H1 : accounted env w (log LogStarting (with_dl (set_baseURL base) w))).
  { apply accounted_emit; [discriminate|]. apply accounted_with_dl, accounted_refl. }
  match goal with |- context [writer ?d] => destruct (writer d) end; [exact H1|].
  apply accounted_Start_loop. apply accounted_emit; [discriminate|exact H1].
Qed.

End Accounted.

Lemma ledger_run_origin m t m' r :
  ledger_run m t = Some m' -> default false (m' !! r) = true ->
  default false (m !! r) = true \/ In (EvMarked r) t.
Proof.
  revert m. induction t as [|e t IH]; intros m Hrun Hr.
  - injection Hrun as <-. now left.
  - destruct e as [l|url|d|c cu|c]; simpl in Hrun;
      try (destruct (IH m Hrun Hr); [now left|right; now right]).
    + destruct (default false (m !! c)); [discriminate|].
      destruct (IH m Hrun Hr); [now left|right; now right].
    + destruct (IH _ Hrun Hr) as [H|H]; [|right; now right].
      destruct (decide (c = r)) as [->|Hne]; [right; now left|].
      rewrite lookup_insert_ne in H by exact Hne. now left.
Qed.

(** No reference enters the ledger without a successful download: a
    reference marked after a session ([Start], or one pass of
    [processChunks]) was marked before it, or [downloadChunk] was
    called for it and one of the session's requests for that URL was
    answered with status 200 and streamed without error. *)
Theorem marked_only_after_successful_download env fuel playlistURL chunks w :
  let justified (w' : World) :=
    exists t,
      trace w' = trace w ++ t
      /\ forall r, seen (dl w') r = true ->
           seen (dl w) r = true
           \/ exists n u body,
                (calls w <= n < calls w')%nat
                /\ client_do env n u = Response StatusOK body None
                /\ In (EvAcquire r u) t in
  justified (world_of (Start env fuel playlistURL w))
  /\ justified (world_of (processChunks env chunks w)).
Proof.
  assert (H : forall k w', evolves env k w w' -> accounted env w w' ->
              exists t,
                trace w' = trace w ++ t
                /\ forall r, seen (dl w') r = true ->
                     seen (dl w) r = true
                     \/ exists n u body,
                          (calls w <= n < calls w')%nat
                          /\ client_do env n u = Response StatusOK body None
                          /\ In (EvAcquire r u) t).
  { intros k w' (t & T & L & _) (t' & d & T' & _ & _ & _ & _ & M).
    assert (t' = t) as -> by (rewrite T in T'; now apply app_inv_head in T').
    exists t. split; [exact T|]. intros r Hr. unfold seen in *.
    destruct (ledger_run_origin _ _ _ r L Hr) as [Hm|Hm]; [now left|right; now apply M]. }
  split.
  - apply (H 1%nat); [apply evolves_Start|apply accounted_Start].
  - apply (H 0%nat); [apply evolves_processChunks, evolves_refl
                     |apply accounted_processChunks, accounted_refl].
Qed.

Lemma marked_only_after_successful_download_witness :
  let justified (w' : World) :=
    exists t,
      trace w' = trace (new_session "out.aac") ++ t
      /\ forall r, seen (dl w') r = true ->
           seen (dl (new_session "out.aac")) r = true
           \/ exists n u body,
                (calls (new_session "out.aac") <= n < calls w')%nat
                /\ client_do flaky n u = Response StatusOK body None
                /\ In (EvAcquire r u) t in
  justified (world_of (Start flaky 5 live_url (new_session "out.aac")))
  /\ justified (world_of (processChunks flaky ["seg1.aac"] (new_session "out.aac"))).
Proof.
  exact (marked_only_after_successful_download flaky 5 live_url ["seg1.aac"]
           (new_session "out.aac")).
Defined.

(** The output file is only ever appended to, and never written once it
    is closed: after a session its content is the content before
    followed by what the session wrote. *)
Theorem sink_is_append_only env fuel playlistURL w :
  let w' := world_of (Start env fuel playlistURL w) in
  exists d,
    f_data (sink w') = f_data (sink w) +:+ d
    /\ (f_closed (sink w) = true -> f_data (sink w') = f_data (sink w)).
Proof.
  destruct (accounted_Start env fuel playlistURL w) as (t & d & _ & _ & D & C & _).
  exists d. split; [exact D|]. intros Hc. cbv zeta. rewrite D, (C Hc).
  apply append_empty_r.
Qed.

Lemma sink_is_append_only_witness :
  let w' := world_of (Start growing_manifest 5 live_url (new_session "out.aac")) in
  exists d,
    f_data (sink w') = f_data (sink (new_session "out.aac")) +:+ d
    /\ (f_closed (sink (new_session "out.aac")) = true ->
        f_data (sink w') = f_data (sink (new_session "out.aac"))).
Proof.
  exact (sink_is_append_only growing_manifest 5 live_url (new_session "out.aac")).
Defined.

(** ** What [Start] returns *)

Lemma processChunks_returns_nil env chunks :
  forall w e w', processChunks env chunks w = Ret e w' -> e = None.
Proof.
  induction chunks as [|chunk rest IH]; intros w e w'.
  - now intros [= <- _].
  - cbn [processChunks]. unfold bind at 1.
    destruct (yield env w) as [[] w1|w1|w1]; try discriminate.
    destruct (stopChan (dl w1)); [|now intros [= <- _]].
    destruct (seen (dl w1) chunk); [apply IH|].
    unfold bind. destruct (downloadChunk env _ _) as [[e'|] w2|w2|w2]; try discriminate.
    + destruct (Contains e' "file already closed"); [now intros [= <- _]|apply IH].
    + apply IH.
Qed.

Lemma Start_loop_result env fuel :
  forall url rc htr w r w',
    Start_loop env fuel url rc htr w = Ret r w' ->
    match r with
    | None => isCompleted (dl w') = true \/ stopChan (dl w') = Closed
    | Some e => exists err, e = retries_exceeded err
    end.
Proof.
  induction fuel as [|fuel IH]; intros url rc htr w r w'; [discriminate|].
  cbn [Start_loop]. destruct (isCompleted (dl w)) eqn:Ec.
  { intros [= <- <-]. now left. }
  unfold bind at 1. destruct (yield env w) as [[] w1|w1|w1]; try discriminate.
  destruct (stopChan (dl w1)) eqn:Es.
  2:{ intros [= <- <-]. now right. }
  unfold bind at 1.
  destruct (getPlaylist env (S fuel) url w1) as [[chunks|err] w2|w2|w2]; try discriminate.
  - unfold bind at 1.
    destruct (processChunks env chunks w2) as [[e|] w3|w3|w3] eqn:Ep; try discriminate.
    + pose proof (processChunks_returns_nil _ _ _ _ _ Ep). discriminate.
    + apply IH.
  - destruct (Contains err "No audio segments found" && negb htr).
    + unfold bind. destruct (switchToReplay url w2) as [url' w3|w3|w3]; try discriminate.
      apply IH.
    + destruct (rc + 1 >? MAX_RETRIES); [|apply IH].
      intros [= <- <-]. now exists err.
Qed.

(** Whatever the network does, [Start] returns nil only when the stream
    is completed or the session has been stopped, and its only error is
    "Failed to get playlist, exceeded max retries: ...": a failed
    segment never ends the session with an error. *)
Theorem Start_returns_nil_or_retries_exceeded env fuel playlistURL w r w' :
  Start env fuel playlistURL w = Ret r w' ->
  match r with
  | None => isCompleted (dl w') = true \/ stopChan (dl w') = Closed
  | Some e => exists err, e = retries_exceeded err
  end.
Proof.
  unfold Start. destruct (slice_to playlistURL _); [|discriminate].
  match goal with |- context [writer ?d] => destruct (writer d) end; [discriminate|].
  apply Start_loop_result.
Qed.

Lemma Start_returns_nil_or_retries_exceeded_witness :
  match @None string with
  | None => isCompleted (dl (world_of (Start growing_manifest 5 live_url
                                             (new_session "out.aac")))) = true
            \/ stopChan (dl (world_of (Start growing_manifest 5 live_url
                                             (new_session "out.aac")))) = Closed
  | Some e => exists err, e = retries_exceeded err
  end.
Proof.
  apply (Start_returns_nil_or_retries_exceeded growing_manifest 5 live_url
           (new_session "out.aac") None
           (world_of (Start growing_manifest 5 live_url (new_session "out.aac")))).
  vm_compute. reflexivity.
Defined.

(** ** Only consecutive failures count *)

Section Consecutive.

Variable env : Env.
Variable url : string.
Hypothesis quiet : never_closed env.
Hypothesis well_formed : new_request_error env url = None.

(** A successful poll, nobody cancelling: the segments are processed,
    the retry counter starts again from 0. *)
Lemma Start_loop_success fuel rc htr w chunks w1 w2 :
  isCompleted (dl w) = false -> stopChan (dl w) = Open ->
  getPlaylist env (S fuel) url (tick w) = Ret (inl chunks) w1 ->
  processChunks env chunks w1 = Ret None w2 ->
  Start_loop env (S fuel) url rc htr w =
  Start_loop env fuel url 0 htr (if isCompleted (dl w2) then w2 else sleep CHUNK_INTERVAL w2).
Proof.
  intros Hc Hs Hg Hp. cbn [Start_loop]. rewrite Hc. unfold bind at 1.
  rewrite (yield_quiet env quiet). cbn [tick dl]. rewrite Hs. unfold bind at 1.
  rewrite Hg. unfold bind at 1. now rewrite Hp.
Qed.

End Consecutive.

(** The retry bound applies to consecutive failures only: up to 10
    failed fetches, then a fetch that returns segments, then up to 10
    failed fetches again leave the driver polling, with the counter at
    the number of failures since the success. *)
Theorem success_restarts_the_retry_count
        env fuel playlistURL htr w errs1 chunks w1 w2 errs2 :
  never_closed env ->
  new_request_error env playlistURL = None ->
  isCompleted (dl w) = false -> stopChan (dl w) = Open ->
  Z.of_nat (length errs1) <= MAX_RETRIES ->
  Z.of_nat (length errs2) <= MAX_RETRIES ->
  Forall (fun e => Contains e "No audio segments found" && negb htr = false)
         (errs1 ++ errs2) ->
  fetches_fail env playlistURL (calls w) errs1 ->
  getPlaylist env (S (length errs2 + fuel)) playlistURL
              (tick (after_retries playlistURL 0 errs1 w)) = Ret (inl chunks) w1 ->
  processChunks env chunks w1 = Ret None w2 ->
  isCompleted (dl w2) = false ->
  fetches_fail env playlistURL (calls w2) errs2 ->
  Start_loop env (length errs1 + S (length errs2 + fuel)) playlistURL 0 htr w =
  Start_loop env fuel playlistURL (Z.of_nat (length errs2)) htr
             (after_retries playlistURL 0 errs2 (sleep CHUNK_INTERVAL w2)).
Proof.
  intros Hq Hreq Hc Hs Hl1 Hl2 Hm Hf1 Hg Hp Hc2 Hf2.
  apply Forall_app in Hm as [Hm1 Hm2].
  rewrite (Start_loop_retries env playlistURL Hq Hreq errs1 _ 0 htr w Hc Hs Hf1 Hm1)
    by lia.
  destruct (after_retries_state playlistURL 0 errs1 w) as (Hd1 & _ & _ & _).
  rewrite (Start_loop_success env playlistURL Hq _ _ htr _ chunks w1 w2);
    [|now rewrite Hd1|now rewrite Hd1|exact Hg|exact Hp].
  rewrite Hc2.
  assert (Hs2 : stopChan (dl w2) = Open).
  { pose proof (evolves_getPlaylist env 0%nat _ (S (length errs2 + fuel)) playlistURL _
                  (evolves_refl env 0%nat (tick (after_retries playlistURL 0 errs1 w))))
      as Eg.
    rewrite Hg in Eg. simpl in Eg.
    pose proof (evolves_processChunks env 0%nat w1 chunks w1 (evolves_refl env 0%nat w1))
      as Ep.
    rewrite Hp in Ep. simpl in Ep.
    destruct Eg as (_ & _ & _ & _ & _ & _ & _ & _ & _ & _ & Qg).
    destruct Ep as (_ & _ & _ & _ & _ & _ & _ & _ & _ & _ & Qp).
    destruct (Qg Hq) as (Eg1 & _), (Qp Hq) as (Ep1 & _).
    rewrite Ep1, Eg1. cbn [tick dl]. now rewrite Hd1. }
  now rewrite (Start_loop_retries env playlistURL Hq Hreq errs2 fuel 0 htr
                 (sleep CHUNK_INTERVAL w2) Hc2 Hs2 Hf2 Hm2) by lia.
Qed.

Lemma success_restarts_the_retry_count_witness :
  Start_loop flaky (length ["connection refused"] + S (length ["connection refused"] + 0))
             live_url 0 false (new_session "out.aac")
  = Start_loop flaky 0 live_url (Z.of_nat (length ["connection refused"])) false
      (after_retries live_url 0 ["connection refused"]
                     (sleep CHUNK_INTERVAL flaky_processed)).
Proof.
  apply (success_restarts_the_retry_count flaky 0 live_url false (new_session "out.aac")
           ["connection refused"] ["seg1.aac"] flaky_fetched flaky_processed
           ["connection refused"]).
  - intros n. reflexivity.
  - reflexivity.
  - reflexivity.
  - reflexivity.
  - vm_compute. discriminate.
  - vm_compute. discriminate.
  - repeat constructor.
  - simpl. split; [reflexivity|exact I].
  - vm_compute. reflexivity.
  - vm_compute. reflexivity.
  - vm_compute. reflexivity.
  - vm_compute. split; [reflexivity|exact I].
Defined.

(** ** An ended stream without segments *)

(** When a manifest fetched with status 200 has no [#EXTINF:] line and
    no nested playlist but carries the end-of-list marker, the fetch
    fails with the no-segments error and yet sets the completion flag:
    the driver logs one failed attempt, waits [RETRY_INTERVAL] and then
    ends the session as completed (nil), without fetching again. *)
Theorem ended_stream_without_segments_completes
        env fuel playlistURL retryCount hasTriedReplay w body ce text :
  never_closed env ->
  new_request_error env playlistURL = None ->
  isCompleted (dl w) = false -> stopChan (dl w) = Open ->
  retryCount < MAX_RETRIES ->
  client_do env (calls w) playlistURL = Response StatusOK body ce ->
  (forall l, In l (ScanLines body) -> HasPrefix (TrimSpace l) "#EXTINF:" = false) ->
  (forall l, In l (ScanLines body) -> HasSuffix (TrimSpace l) ".m3u8" = true ->
             Contains (TrimSpace l) "master_playlist" = true) ->
  In text (ScanLines body) ->
  Contains (TrimSpace text) "#EXT-X-ENDLIST" = true ->
  Start_loop env (S (S fuel)) playlistURL retryCount hasTriedReplay w =
  Ret None
      (log LogCompleted
         (sleep RETRY_INTERVAL
            (log (LogRetry (retryCount + 1) no_segments_error)
                 (scanned playlistURL true (baseURL (dl w)) (tick w))))).
Proof.
  intros Hq Hreq Hc Hs Hrc Hr Hno Hm Hin Hend.
  assert (Hscan : scan_segments (ScanLines body) (isCompleted (dl (tick w)))
                  = ([], false, true)).
  { unfold scan_segments.
    pose proof (scan_fold_no_announcement (ScanLines body) [] (isCompleted (dl (tick w)))
                  Hno) as H1.
    pose proof (scan_fold_endlist text (ScanLines body)
                  ([], false, isCompleted (dl (tick w))) Hin Hend (Hno text Hin)) as H2.
    destruct (fold_left scan_line _ _) as [[chunks isChunk] completed].
    simpl in H1, H2. now injection H1 as -> ->; subst. }
  assert (Hg : getPlaylist env (S (S fuel)) playlistURL (tick w)
               = Ret (inr no_segments_error)
                     (scanned playlistURL true (baseURL (dl w)) (tick w))).
  { rewrite (getPlaylist_no_segments env (S fuel) playlistURL (tick w) body ce false true
               Hreq Hr Hscan).
    now rewrite (find_playlist_none _ Hm). }
  cbn [Start_loop]. rewrite Hc. unfold bind at 1. rewrite (yield_quiet env Hq).
  cbn [tick dl]. rewrite Hs. unfold bind at 1. rewrite Hg.
  change (Contains no_segments_error "No audio segments found") with false.
  cbn [andb]. destruct (Z.gtb_spec (retryCount + 1) MAX_RETRIES) as [Hgt|_]; [lia|].
  reflexivity.
Qed.

Lemma ended_stream_without_segments_completes_witness :
  Start_loop ended_empty 2 live_url 0 false (new_session "out.aac") =
  Ret None
      (log LogCompleted
         (sleep RETRY_INTERVAL
            (log (LogRetry (0 + 1) no_segments_error)
                 (scanned live_url true (baseURL (dl (new_session "out.aac")))
                          (tick (new_session "out.aac")))))).
Proof.
  apply (ended_stream_without_segments_completes ended_empty 0 live_url 0 false
           (new_session "out.aac") (manifest ["#EXTM3U"; "#EXT-X-ENDLIST"]) None
           "#EXT-X-ENDLIST").
  - intros n. reflexivity.
  - reflexivity.
  - reflexivity.
  - reflexivity.
  - reflexivity.
  - reflexivity.
  - vm_compute. intros l [<-|[<-|[]]]; reflexivity.
  - vm_compute. intros l [<-|[<-|[]]]; intros; discriminate.
  - vm_compute. tauto.
  - reflexivity.
Defined.

(** ** The switch to replay on a URL without the live markers *)

Lemma Index_negative_cons a s sub :
  Index (String a s) sub < 0 ->
  HasPrefix (String a s) sub = false /\ Index s sub < 0.
Proof.
  cbn [Index]. destruct (HasPrefix (String a s) sub); [lia|].
  destruct (Z.ltb_spec (Index s sub) 0); [now split|].
  pose proof (Index_lower s sub). lia.
Qed.

Lemma Replace1_absent s old new :
  Contains s old = false -> Replace1 s old new = s.
Proof.
  unfold Contains. intros H. apply Z.leb_gt in H.
  induction s as [|a s IH].
  - cbn [Index] in H. cbn [Replace1]. now destruct (HasPrefix "" old).
  - destruct (Index_negative_cons _ _ _ H) as [Hp Hs]. cbn [Replace1]. rewrite Hp.
    f_equal. now apply IH.
Qed.

(** On a playlist URL that contains neither [type=live] nor
    [dynamic_playlist.m3u8], the switch to replay mode rewrites
    nothing: the driver goes on polling the same URL, with the same
    base URL recomputed from it. *)
Theorem switchToReplay_without_markers_keeps_url playlistURL w :
  Contains playlistURL "type=live" = false ->
  Contains playlistURL "dynamic_playlist.m3u8" = false ->
  Contains playlistURL "/" = true ->
  switchToReplay playlistURL w =
  Ret playlistURL
      (with_dl (set_baseURL (keep (Z.to_nat (LastIndex playlistURL "/")) playlistURL))
               (log (LogNewURL playlistURL) (log LogSwitching w))).
Proof.
  intros H1 H2 H3. unfold switchToReplay.
  rewrite (Replace1_absent _ _ _ H1), H2, (slice_to_last_slash _ H3). reflexivity.
Qed.

Lemma switchToReplay_without_markers_keeps_url_witness :
  switchToReplay "https://h/a/playlist.m3u8" (new_session "out.aac") =
  Ret "https://h/a/playlist.m3u8"
      (with_dl (set_baseURL (keep (Z.to_nat (LastIndex "https://h/a/playlist.m3u8" "/"))
                                  "https://h/a/playlist.m3u8"))
               (log (LogNewURL "https://h/a/playlist.m3u8")
                    (log LogSwitching (new_session "out.aac")))).
Proof.
  apply (switchToReplay_without_markers_keeps_url "https://h/a/playlist.m3u8"
           (new_session "out.aac")); reflexivity.
Defined.

(** ** Playlists that name playlists without end *)

(** [getPlaylist] has no bound on the nesting of playlists: when every
    response is a manifest without [#EXTINF:] line that names a nested
    playlist, it never returns; after any number of nested fetches it
    is still fetching, one request per level. *)
Theorem getPlaylist_follows_playlists_without_bound env fuel playlistURL w :
  (forall url, new_request_error env url = None) ->
  (forall n url, exists body ce,
      client_do env n url = Response StatusOK body ce
      /\ (forall l, In l (ScanLines body) -> HasPrefix (TrimSpace l) "#EXTINF:" = false)
      /\ find_playlist (ScanLines body) <> None) ->
  exists w',
    getPlaylist env fuel playlistURL w = OutOfFuel w'
    /\ calls w' = (calls w + fuel)%nat.
Proof.
  intros Hreq Hresp. revert playlistURL w.
  induction fuel as [|fuel IH]; intros url w.
  - exists w. split; [reflexivity|lia].
  - destruct (Hresp (calls w) url) as (body & ce & Hr & Hno & Hnest).
    pose proof (scan_fold_no_announcement (ScanLines body) [] (isCompleted (dl w)) Hno)
      as Hf.
    destruct (scan_segments (ScanLines body) (isCompleted (dl w)))
      as [[chunks isChunk] completed] eqn:Es.
    unfold scan_segments in Es. rewrite Es in Hf. simpl in Hf. injection Hf as -> ->.
    rewrite (getPlaylist_no_segments env fuel url w body ce false completed
               (Hreq url) Hr Es).
    destruct (find_playlist (ScanLines body)) as [line|]; [|contradiction].
    match goal with |- context [getPlaylist env fuel ?u ?x] =>
      destruct (IH u x) as (w' & E & Hn) end.
    exists w'. split; [exact E|]. rewrite Hn. cbn [log emit scanned with_dl called calls].
    lia.
Qed.

Lemma getPlaylist_follows_playlists_without_bound_witness :
  exists w',
    getPlaylist playlist_loop 7 live_url (new_session "out.aac") = OutOfFuel w'
    /\ calls w' = (calls (new_session "out.aac") + 7)%nat.
Proof.
  apply (getPlaylist_follows_playlists_without_bound playlist_loop 7 live_url
           (new_session "out.aac")).
  - intros url. reflexivity.
  - intros n url. exists (manifest ["#EXTM3U"; "loop.m3u8"]), None.
    split; [reflexivity|]. split.
    + vm_compute. intros l [<-|[<-|[]]]; reflexivity.
    + vm_compute. discriminate.
Defined.

(** * The space identifier and the output file name *)

Example extractSpaceID_examples :
  extractSpaceID "https://twitter.com/i/spaces/1OdKrXYZ-peek?s=20" = Some "1OdKrXYZ-peek"
  /\ extractSpaceID "https://x.com/i/spaces/1OdKrXYZ/peek" = Some "1OdKrXYZ"
  /\ extractSpaceID "https://x.com/i/status/1" = Some ""
  /\ fileName_of "https://twitter.com/i/spaces/1OdKrXYZ-peek?s=20" = Some "1OdKrXYZ.aac"
  /\ fileName_of "https://x.com/i/status/1" = Some "recording.aac"
  /\ Split "a/spaces/b/spaces/c" "/spaces/" = ["a"; "b"; "c"]
  /\ Split "" "/" = [""]
  /\ ReplaceAll "a-peek-peekb" "-peek" "" = "ab".
Proof. vm_compute. repeat split. Qed.

Section SplitLemmas.

Lemma HasPrefix_length s p :
  HasPrefix s p = true -> (String.length p <= String.length s)%nat.
Proof.
  unfold HasPrefix. revert s. induction p as [|a p IH]; intros s H; [simpl; lia|].
  destruct s as [|b s]; [discriminate|]. cbn [String.prefix] in H.
  destruct (ascii_dec a b); [|discriminate]. specialize (IH s H). simpl. lia.
Qed.

Lemma Index_upper s sub :
  0 <= Index s sub -> Index s sub + len sub <= len s.
Proof.
  unfold len. induction s as [|a s IH]; cbn [Index].
  - destruct (HasPrefix "" sub) eqn:E; [|lia]. apply HasPrefix_length in E. lia.
  - destruct (HasPrefix (String a s) sub) eqn:E.
    + apply HasPrefix_length in E. lia.
    + destruct (Z.ltb_spec (Index s sub) 0); [lia|]. intros _.
      cbn [String.length]. lia.
Qed.

Lemma Index_empty sub a : Index "" (String a sub) = -1.
Proof. reflexivity. Qed.

Lemma Split_go_head fuel s sep :
  exists rest,
    Split_go (S fuel) s sep
    = (if Index s sep <? 0 then s else keep (Z.to_nat (Index s sep)) s) :: rest.
Proof.
  cbn [Split_go]. destruct (Index s sep <? 0); eauto.
Qed.

Lemma Index_byte_before c s :
  (if Index s (String c "") <? 0 then s else keep (Z.to_nat (Index s (String c ""))) s)
  = before c s.
Proof.
  induction s as [|a s IH]; [reflexivity|].
  cbn [Index before]. rewrite prefix_byte. destruct (Ascii.eqb a c); [reflexivity|].
  pose proof (Index_lower s (String c "")).
  destruct (Z.ltb_spec (Index s (String c "")) 0) as [Hlt|Hge].
  - cbn. now rewrite <- IH.
  - destruct (Z.ltb_spec (Index s (String c "") + 1) 0); [lia|].
    replace (Z.to_nat (Index s (String c "") + 1))
      with (S (Z.to_nat (Index s (String c "")))) by lia.
    cbn [keep]. now rewrite <- IH.
Qed.

(** The first part of a split at a single byte. *)
Lemma Split_byte_first c s : index (Split s (String c "")) 0 = Some (before c s).
Proof.
  unfold Split. destruct s as [|a s]; [reflexivity|]. cbn [String.length].
  destruct (Split_go_head (String.length s) (String a s) (String c "")) as (rest & ->).
  cbn [index nth_error]. now rewrite Index_byte_before.
Qed.

(** Cutting [s] at an occurrence of a separator that starts with [c]
    does not change what stands before the first [c]. *)
Lemma before_keep_Index c sep s :
  0 <= Index s (String c sep) ->
  before c (keep (Z.to_nat (Index s (String c sep))) s) = before c s.
Proof.
  induction s as [|a s IH]; [intros H; rewrite Index_empty in H; lia|].
  cbn [Index]. destruct (HasPrefix (String a s) (String c sep)) eqn:E.
  - intros _. unfold HasPrefix in E. cbn [String.prefix] in E.
    destruct (ascii_dec c a) as [<-|]; [|discriminate].
    cbn. now rewrite Ascii.eqb_refl.
  - pose proof (Index_lower s (String c sep)).
    destruct (Z.ltb_spec (Index s (String c sep)) 0) as [Hlt|Hge]; [lia|]. intros _.
    replace (Z.to_nat (Index s (String c sep) + 1))
      with (S (Z.to_nat (Index s (String c sep)))) by lia.
    cbn [keep before]. destruct (Ascii.eqb a c); [reflexivity|]. now rewrite IH.
Qed.

Lemma first_path_element_before s :
  first_path_element s = Some (before "?" (before "/" s)).
Proof.
  unfold first_path_element. rewrite Split_byte_first. apply Split_byte_first.
Qed.

(** The parts of a URL that contains the separator: what stands before
    its first occurrence, then a part that agrees with the rest of the
    URL up to the first [c], the byte the separator starts with. *)
Lemma Split_second c sep s :
  Contains s (String c sep) = true ->
  exists p rest,
    Split s (String c sep)
    = keep (Z.to_nat (Index s (String c sep))) s :: p :: rest
    /\ before c p = before c (after_first (String c sep) s).
Proof.
  unfold Contains, Split. intros H. apply Z.leb_le in H.
  pose proof (Index_upper _ _ H) as Hu. unfold len in Hu.
  destruct s as [|a s]; [rewrite Index_empty in H; lia|].
  cbn [String.length Split_go] in *.
  destruct (Z.ltb_spec (Index (String a s) (String c sep)) 0) as [|_]; [lia|].
  change (after_first (String c sep) (String a s))
    with (skip (Z.to_nat (Index (String a s) (String c sep)) + S (String.length sep))
               (String a s)).
  set (r := skip _ (String a s)).
  destruct (String.length s) as [|f] eqn:El.
  - exists r, []. split; reflexivity.
  - destruct (Split_go_head f r (String c sep)) as (rest & ->).
    eexists _, rest. split; [reflexivity|].
    destruct (Z.ltb_spec (Index r (String c sep)) 0); [reflexivity|].
    now apply before_keep_Index.
Qed.

Lemma Split_absent s sep : Contains s sep = false -> Split s sep = [s].
Proof.
  unfold Contains, Split. intros H. apply Z.leb_gt in H.
  destruct (String.length s); [reflexivity|]. cbn [Split_go].
  destruct (Z.ltb_spec (Index s sep) 0); [reflexivity|lia].
Qed.

End SplitLemmas.

Lemma extractSpaceID_is_the_first_path_element_aux spaceURL :
  Contains spaceURL "/spaces/" = true ->
  extractSpaceID spaceURL = Some (space_id spaceURL).
Proof.
  intros E. unfold extractSpaceID. rewrite E.
  destruct (Split_second "/" "spaces/" spaceURL E) as (p & rest & -> & Hp).
  cbn [length index nth_error]. destruct (Z.ltb_spec 1 (Z.of_nat (S (S (length rest)))));
    [|lia].
  rewrite first_path_element_before. unfold space_id. now rewrite Hp.
Qed.

(** [extractSpaceID] never panics.  For a URL that contains [/spaces/]
    it returns what follows the first [/spaces/] up to the next [/] or
    [?] (later occurrences of [/spaces/] do not matter); for any other
    URL it returns the empty string. *)
Theorem extractSpaceID_is_the_first_path_element spaceURL :
  extractSpaceID spaceURL
  = Some (if Contains spaceURL "/spaces/" then space_id spaceURL else "").
Proof.
  destruct (Contains spaceURL "/spaces/") eqn:E.
  - now apply extractSpaceID_is_the_first_path_element_aux.
  - unfold extractSpaceID. now rewrite E.
Qed.

Lemma fileName_of_value spaceURL :
  fileName_of spaceURL
  = Some (if Contains spaceURL "/spaces/"
          then ReplaceAll (space_id spaceURL) "-peek" "" +:+ ".aac"
          else "recording.aac").
Proof.
  unfold fileName_of. destruct (Contains spaceURL "/spaces/") eqn:E.
  - destruct (Split_second "/" "spaces/" spaceURL E) as (p & rest & -> & Hp).
    cbn [length index nth_error].
    destruct (Z.ltb_spec 1 (Z.of_nat (S (S (length rest))))); [|lia].
    rewrite first_path_element_before. unfold space_id. now rewrite Hp.
  - now rewrite (Split_absent _ _ E).
Qed.

(** [CreateFileWriter] never panics; it names the output file
    [recording.aac] for a URL without [/spaces/], and otherwise after
    the identifier that [extractSpaceID] returns for the same URL, with
    every [-peek] removed and [.aac] appended. *)
Theorem fileName_of_follows_extractSpaceID spaceURL :
  (Contains spaceURL "/spaces/" = false -> fileName_of spaceURL = Some "recording.aac")
  /\ (Contains spaceURL "/spaces/" = true ->
      exists spaceID,
        extractSpaceID spaceURL = Some spaceID
        /\ fileName_of spaceURL = Some (ReplaceAll spaceID "-peek" "" +:+ ".aac")).
Proof.
  rewrite fileName_of_value. split; intros E; rewrite E; [reflexivity|].
  exists (space_id spaceURL). split; [|reflexivity].
  now apply extractSpaceID_is_the_first_path_element_aux.
Qed.

Lemma fileName_of_follows_extractSpaceID_witness :
  exists spaceID,
    extractSpaceID "https://twitter.com/i/spaces/1OdKrXYZ-peek?s=20" = Some spaceID
    /\ fileName_of "https://twitter.com/i/spaces/1OdKrXYZ-peek?s=20"
       = Some (ReplaceAll spaceID "-peek" "" +:+ ".aac").
Proof.
  apply (fileName_of_follows_extractSpaceID
           "https://twitter.com/i/spaces/1OdKrXYZ-peek?s=20").
  reflexivity.
Defined.

Lemma has_byte_before_self c s : has_byte c (before c s) = false.
Proof.
  induction s as [|a s IH]; [reflexivity|]. cbn [before].
  destruct (Ascii.eqb a c) eqn:E; [reflexivity|]. simpl. now rewrite E.
Qed.

Lemma has_byte_before c c' s :
  has_byte c s = false -> has_byte c (before c' s) = false.
Proof.
  induction s as [|a s IH]; [reflexivity|]. simpl. intros H.
  apply orb_false_iff in H as [Ha Hs]. destruct (Ascii.eqb a c'); [reflexivity|].
  simpl. now rewrite Ha, IH.
Qed.

Lemma has_byte_keep c n s : has_byte c s = false -> has_byte c (keep n s) = false.
Proof.
  revert s. induction n as [|n IH]; intros [|a s] H; simpl; auto.
  simpl in H. apply orb_false_iff in H as [Ha Hs]. now rewrite Ha, IH.
Qed.

Lemma has_byte_ReplaceAll_go c fuel :
  forall s old new,
    has_byte c s = false -> has_byte c new = false ->
    has_byte c (ReplaceAll_go fuel s old new) = false.
Proof.
  induction fuel as [|fuel IH]; intros s old new Hs Hn; [exact Hs|].
  cbn [ReplaceAll_go]. destruct (Index s old <? 0); [exact Hs|].
  rewrite !has_byte_app, Hn, (has_byte_keep _ _ _ Hs). simpl.
  apply IH; [now apply has_byte_skip|exact Hn].
Qed.

Lemma space_id_bytes spaceURL :
  has_byte "/" (space_id spaceURL) = false /\ has_byte "?" (space_id spaceURL) = false.
Proof.
  unfold space_id. split.
  - apply has_byte_before, has_byte_before_self.
  - apply has_byte_before_self.
Qed.



(** * The API client *)

Example QueryEscape_examples :
  QueryEscape ("a b&c=d/e" +:+ dq +:+ "{}~" +:+ String LF "") = "a+b%26c%3Dd%2Fe%22%7B%7D~%0A"
  /\ Values_Encode (Values_Add "b" "2" (Values_Add "a" "1" (Values_Add "b" "x y" [])))
     = "a=1&b=x+y&b=2".
Proof. vm_compute. split; reflexivity. Qed.

Section Api.

Variable api : ApiEnv.

(** [FetchSpaceData] sends one request when it returns the metadata,
    and never more than one. *)
Lemma FetchSpaceData_requests spaceID w r w1 :
  FetchSpaceData api spaceID w = (r, w1) ->
  (w1 = w \/ w1 = w ++ [space_data_url spaceID])
  /\ (forall space, r = inl space -> w1 = w ++ [space_data_url spaceID]).
Proof.
  unfold FetchSpaceData. destruct (api_new_request_error api _).
  { intros [= <- <-]. split; [now left|discriminate]. }
  assert (H : forall x : gmap string JSON + string,
             (x, w ++ [space_data_url spaceID]) = (r, w1) ->
             (w1 = w \/ w1 = w ++ [space_data_url spaceID])
             /\ (forall space, r = inl space -> w1 = w ++ [space_data_url spaceID])).
  { intros x [= <- <-]. split; [now right|reflexivity]. }
  destruct (api_do api (length w) _) as [err|status body [err|]]; try apply H.
  destruct (json_Unmarshal api body) as [err|result]; try apply H.
  destruct (as_object (result !! "data")) as [data|]; try apply H.
  destruct (as_object (data !! "audioSpace")) as [audioSpace|]; try apply H.
  destruct (as_object (audioSpace !! "metadata")) as [metadata|]; apply H.
Qed.

Lemma request_stream_status_location mediaKey w location w' :
  request_stream_status api mediaKey w = (inl location, w') ->
  exists body result source,
    w' = w ++ [stream_status_url mediaKey]
    /\ api_do api (length w) (stream_status_url mediaKey) = ApiResponse StatusOK body None
    /\ json_Unmarshal api body = inr result
    /\ result !! "source" = Some (JObject source)
    /\ source !! "location" = Some (JString location).
Proof.
  unfold request_stream_status. destruct (api_new_request_error api _); [discriminate|].
  destruct (api_do api (length w) _) as [err|status body [err|]] eqn:Ed; try discriminate.
  destruct (Z.eqb_spec status StatusOK) as [->|]; [|discriminate]. cbn [negb].
  destruct (json_Unmarshal api body) as [err|result] eqn:Ej; [discriminate|].
  destruct (result !! "source") as [[| | | | |source]|] eqn:Es; try discriminate.
  cbn [as_object].
  destruct (source !! "location") as [[| | |s| |]|] eqn:El; try discriminate.
  intros [= <- <-]. now exists body, result, source.
Qed.

End Api.

(** [GetStreamURL] returns a location only in one way: the metadata
    request succeeded, the space is not an ended space whose replay
    flag is the boolean false, and the request for the stream status of
    its media key (or, without one, its broadcast id) was answered with
    status 200 by a JSON object whose [source.location] is that string.
    It has then sent exactly these two requests. *)
Theorem GetStreamURL_location_comes_from_the_status_answer api spaceID w location w' :
  GetStreamURL api spaceID w = (inl location, w') ->
  exists space mediaKey body result source,
    FetchSpaceData api spaceID w = (inl space, w ++ [space_data_url spaceID])
    /\ space_media_key space = Some mediaKey
    /\ ~ (space_state space = Some "Ended"
          /\ space !! "is_space_available_for_replay" = Some (JBool false))
    /\ w' = w ++ [space_data_url spaceID; stream_status_url mediaKey]
    /\ api_do api (S (length w)) (stream_status_url mediaKey)
       = ApiResponse StatusOK body None
    /\ json_Unmarshal api body = inr result
    /\ result !! "source" = Some (JObject source)
    /\ source !! "location" = Some (JString location).
Proof.
  unfold GetStreamURL.
  destruct (FetchSpaceData api spaceID w) as [[space|err] w1] eqn:Ef; [|discriminate].
  destruct (FetchSpaceData_requests api _ _ _ _ Ef) as [_ Hw]. specialize (Hw space eq_refl).
  subst w1. destruct (space_state space) as [state|] eqn:Est; [|discriminate].
  destruct (String.eqb state "Ended" && negb (isReplayAvailable space)) eqn:Ee;
    [discriminate|].
  destruct (space_media_key space) as [mediaKey|] eqn:Ek; [|discriminate].
  intros Hs.
  destruct (request_stream_status_location api _ _ _ _ Hs)
    as (body & result & source & -> & Hdo & Hj & Hsrc & Hloc).
  exists space, mediaKey, body, result, source. repeat split; auto.
  - intros [H1 H2]. rewrite Est in H1. injection H1 as ->.
    unfold isReplayAvailable in Ee. rewrite H2 in Ee. discriminate.
  - now rewrite <- app_assoc.
  - rewrite length_app in Hdo. simpl in Hdo.
    now replace (length w + 1)%nat with (S (length w)) in Hdo by lia.
Qed.

Lemma GetStreamURL_location_comes_from_the_status_answer_witness :
  exists space mediaKey body result source,
    FetchSpaceData (api_of running_space 200 "https://h/a/type=live/playlist.m3u8") "1Od" []
    = (inl space, [] ++ [space_data_url "1Od"])
    /\ space_media_key space = Some mediaKey
    /\ ~ (space_state space = Some "Ended"
          /\ space !! "is_space_available_for_replay" = Some (JBool false))
    /\ [space_data_url "1Od"; stream_status_url "28_1"]
       = [] ++ [space_data_url "1Od"; stream_status_url mediaKey]
    /\ api_do (api_of running_space 200 "https://h/a/type=live/playlist.m3u8")
              (S (length (@nil string))) (stream_status_url mediaKey)
       = ApiResponse StatusOK body None
    /\ json_Unmarshal (api_of running_space 200 "https://h/a/type=live/playlist.m3u8") body
       = inr result
    /\ result !! "source" = Some (JObject source)
    /\ source !! "location" = Some (JString "https://h/a/type=live/playlist.m3u8").
Proof.
  apply (GetStreamURL_location_comes_from_the_status_answer
           (api_of running_space 200 "https://h/a/type=live/playlist.m3u8") "1Od" []
           "https://h/a/type=live/playlist.m3u8"
           [space_data_url "1Od"; stream_status_url "28_1"]).
  vm_compute. reflexivity.
Defined.

(** For a space whose state (or, without one, status) is ["Ended"],
    only a replay flag that is the boolean false makes [GetStreamURL]
    refuse, with no request for the stream; a missing flag, or one that
    is not a boolean, counts as available and the stream status is
    requested for the media key. *)
Theorem ended_space_needs_replay_flag_false api spaceID w space w1 :
  FetchSpaceData api spaceID w = (inl space, w1) ->
  space_state space = Some "Ended" ->
  (space !! "is_space_available_for_replay" = Some (JBool false) ->
   GetStreamURL api spaceID w = (inr ended_no_replay_error, w1)
   /\ w1 = w ++ [space_data_url spaceID])
  /\ (as_bool (space !! "is_space_available_for_replay") <> Some false ->
      forall mediaKey, space_media_key space = Some mediaKey ->
        GetStreamURL api spaceID w = request_stream_status api mediaKey w1).
Proof.
  intros Ef Es. unfold GetStreamURL. rewrite Ef, Es. unfold isReplayAvailable. split.
  - intros Hf. rewrite Hf. cbn. split; [reflexivity|].
    destruct (FetchSpaceData_requests api _ _ _ _ Ef) as [_ Hw]. now apply (Hw space).
  - intros Hf mediaKey Hk. rewrite Hk.
    destruct (as_bool (space !! "is_space_available_for_replay")) as [[|]|];
      try reflexivity. contradiction.
Qed.

Lemma ended_space_needs_replay_flag_false_witness :
  GetStreamURL (api_of ended_space 200 "https://h/a/playlist.m3u8") "1Od" []
  = (inr ended_no_replay_error, [space_data_url "1Od"])
  /\ [space_data_url "1Od"] = [] ++ [space_data_url "1Od"].
Proof.
  apply (ended_space_needs_replay_flag_false
           (api_of ended_space 200 "https://h/a/playlist.m3u8") "1Od" [] ended_space
           [space_data_url "1Od"]).
  - vm_compute. reflexivity.
  - vm_compute. reflexivity.
  - vm_compute. reflexivity.
Defined.

(** An ended space without replay flag is resolved like a running one. *)
Example ended_unflagged_space_is_resolved :
  GetStreamURL (api_of ended_unflagged_space 200 "https://h/a/playlist.m3u8") "1Od" []
  = (inl "https://h/a/playlist.m3u8", [space_data_url "1Od"; stream_status_url "1yN"]).
Proof. vm_compute. reflexivity. Qed.

(** ** The query of the metadata request *)

Lemma upperhex_unreserved n : unreserved (upperhex n) = true.
Proof. do 17 (destruct n as [|n]; [reflexivity|]). reflexivity. Qed.

Lemma unreserved_differs a c : unreserved a = true -> unreserved c = false -> Ascii.eqb a c = false.
Proof.
  intros Ha Hc. destruct (Ascii.eqb_spec a c) as [->|]; [congruence|reflexivity].
Qed.

Lemma has_byte_escape_byte c a :
  unreserved c = false -> c <> "%"%char -> c <> "+"%char ->
  has_byte c (escape_byte a) = false.
Proof.
  intros Hc Hp Hq. unfold escape_byte. destruct (unreserved a) eqn:Ha.
  - cbn [has_byte]. now rewrite (unreserved_differs _ _ Ha Hc).
  - destruct (Ascii.eqb a " ").
    + change (has_byte c "+") with (Ascii.eqb "+" c || false).
      destruct (Ascii.eqb_spec "+" c); [congruence|reflexivity].
    + cbn [has_byte]. rewrite !(unreserved_differs _ _ (upperhex_unreserved _) Hc).
      destruct (Ascii.eqb_spec "%" c); [congruence|reflexivity].
Qed.

Lemma has_byte_QueryEscape c s :
  unreserved c = false -> c <> "%"%char -> c <> "+"%char ->
  has_byte c (QueryEscape s) = false.
Proof.
  intros Hc Hp Hq. induction s as [|a s IH]; [reflexivity|].
  cbn [QueryEscape]. now rewrite has_byte_app, has_byte_escape_byte, IH.
Qed.

(** Whatever the space identifier, the URL of the metadata request is
    the endpoint followed by the two parameters [features] and
    [variables], and the identifier cannot add to them: the encoded
    value of [variables], which holds it, consists of letters, digits
    and [- _ . ~ % +] only (no [&], [=], [#], [?] or [/]). *)
Theorem space_data_url_escapes_the_identifier spaceID c :
  unreserved c = false -> c <> "%"%char -> c <> "+"%char ->
  space_data_url spaceID
  = "https://twitter.com/i/api/graphql/xjTKygiBMpX44KU8ywLohQ/AudioSpaceById"
    +:+ "?features=" +:+ QueryEscape features
    +:+ "&variables=" +:+ QueryEscape (variables spaceID)
  /\ has_byte c (QueryEscape (variables spaceID)) = false.
Proof.
  intros Hc Hp Hq. split; [|now apply has_byte_QueryEscape].
  unfold space_data_url. generalize (variables spaceID) as v. generalize features as f.
  intros f v. reflexivity.
Qed.

Lemma space_data_url_escapes_the_identifier_witness :
  has_byte "&" (QueryEscape (variables "1Od&x=1")) = false.
Proof.
  apply (space_data_url_escapes_the_identifier "1Od&x=1" "&"%char);
    [reflexivity|discriminate|discriminate].
Defined.

(** * Further properties of segment acquisition *)

Section Acquisition.

Variable env : Env.
Hypothesis quiet : never_closed env.

Lemma downloadChunk_streams url w body ce :
  new_request_error env url = None ->
  client_do env (calls w) url = Response StatusOK body ce ->
  writer (dl w) = fileWriter -> f_closed (sink w) = false ->
  downloadChunk env url w = Ret ce (written body (tick (called url w))).
Proof.
  intros Hreq Hr Hw Hc. unfold downloadChunk. rewrite Hreq, Hr. cbn [Z.eqb negb].
  change (negb (StatusOK =? StatusOK)) with false. cbv iota. unfold bind.
  rewrite (yield_quiet env quiet). unfold io_Copy, written.
  destruct (String.eqb body ""); [reflexivity|].
  change (writer (dl (tick (called url w)))) with (writer (dl w)).
  change (f_closed (sink (tick (called url w)))) with (f_closed (sink w)).
  now rewrite Hw, Hc.
Qed.

Lemma downloadChunk_closed_sink url w body ce :
  new_request_error env url = None ->
  client_do env (calls w) url = Response StatusOK body ce ->
  body <> "" ->
  writer (dl w) = fileWriter -> f_closed (sink w) = true ->
  downloadChunk env url w
  = Ret (Some ("write " +:+ f_name (sink w) +:+ ": file already closed"))
        (tick (called url w)).
Proof.
  intros Hreq Hr Hb Hw Hc. unfold downloadChunk. rewrite Hreq, Hr.
  change (negb (StatusOK =? StatusOK)) with false. cbv iota. unfold bind.
  rewrite (yield_quiet env quiet). unfold io_Copy.
  destruct (String.eqb_spec body ""); [contradiction|].
  change (writer (dl (tick (called url w)))) with (writer (dl w)).
  change (f_closed (sink (tick (called url w)))) with (f_closed (sink w)).
  now rewrite Hw, Hc.
Qed.

End Acquisition.

Lemma Index_app_right a b sub : 0 <= Index b sub -> 0 <= Index (a +:+ b) sub.
Proof.
  intros H. induction a as [|c a IH]; [exact H|].
  rewrite append_cons. cbn [Index]. destruct (HasPrefix _ sub); [lia|].
  destruct (Z.ltb_spec (Index (a +:+ b) sub) 0); lia.
Qed.

Lemma Contains_app_right a b sub :
  Contains b sub = true -> Contains (a +:+ b) sub = true.
Proof.
  unfold Contains. intros H. apply Z.leb_le in H. apply Z.leb_le.
  now apply Index_app_right.
Qed.

(** A closed output file ends the pass: when the segment to acquire
    arrives (status 200, a body that is not empty) and the sink is
    already closed, [processChunks] returns nil at once; the segment is
    not marked and the segments after it are not requested. *)
Theorem closed_sink_ends_the_pass env chunk rest w body ce :
  never_closed env ->
  stopChan (dl w) = Open -> seen (dl w) chunk = false ->
  writer (dl w) = fileWriter -> f_closed (sink w) = true ->
  new_request_error env (join_url (baseURL (dl w)) chunk) = None ->
  client_do env (calls w) (join_url (baseURL (dl w)) chunk) = Response StatusOK body ce ->
  body <> "" ->
  processChunks env (chunk :: rest) w
  = Ret None (tick (called (join_url (baseURL (dl w)) chunk)
                      (emit (EvAcquire chunk (join_url (baseURL (dl w)) chunk)) (tick w)))).
Proof.
  intros Hq Hs Hseen Hw Hc Hreq Hr Hb. cbn [processChunks]. unfold bind at 1.
  rewrite (yield_quiet env Hq). cbn [tick dl]. rewrite Hs, Hseen. unfold bind.
  rewrite (downloadChunk_closed_sink env Hq (join_url (baseURL (dl w)) chunk)
             (emit (EvAcquire chunk (join_url (baseURL (dl w)) chunk)) (tick w))
             body ce Hreq Hr Hb Hw Hc).
  rewrite Contains_app_right; [reflexivity|]. apply Contains_app_right. reflexivity.
Qed.

Lemma closed_sink_ends_the_pass_witness :
  processChunks (script [ok "d1"; ok "d2"]) ["seg1.aac"; "seg2.aac"]
                (with_sink file_Close (new_session "out.aac"))
  = Ret None
        (tick (called (join_url (baseURL (dl (with_sink file_Close (new_session "out.aac"))))
                                "seg1.aac")
                 (emit (EvAcquire "seg1.aac"
                          (join_url (baseURL (dl (with_sink file_Close
                                                     (new_session "out.aac"))))
                                    "seg1.aac"))
                       (tick (with_sink file_Close (new_session "out.aac")))))).
Proof.
  apply (closed_sink_ends_the_pass (script [ok "d1"; ok "d2"]) "seg1.aac" ["seg2.aac"]
           (with_sink file_Close (new_session "out.aac")) "d1" None);
    try reflexivity.
  - intros n. reflexivity.
  - discriminate.
Defined.

(** The bytes of a failed download stay in the file.  When a segment
    arrives with status 200 but its streaming ends in an error after
    the bytes [part], these bytes have been appended and the segment is
    not marked; the next pass requests it again and appends what it
    then receives, so the file holds [part] followed by the whole
    segment. *)
Theorem failed_download_leaves_its_bytes env chunk w part err whole :
  never_closed env ->
  stopChan (dl w) = Open -> seen (dl w) chunk = false ->
  writer (dl w) = fileWriter -> f_closed (sink w) = false ->
  new_request_error env (join_url (baseURL (dl w)) chunk) = None ->
  client_do env (calls w) (join_url (baseURL (dl w)) chunk)
  = Response StatusOK part (Some err) ->
  Contains err "file already closed" = false ->
  client_do env (S (calls w)) (join_url (baseURL (dl w)) chunk)
  = Response StatusOK whole None ->
  exists w1 w2,
    processChunks env [chunk] w = Ret None w1
    /\ processChunks env [chunk] w1 = Ret None w2
    /\ seen (dl w1) chunk = false
    /\ f_data (sink w1) = f_data (sink w) +:+ part
    /\ seen (dl w2) chunk = true
    /\ f_data (sink w2) = f_data (sink w) +:+ part +:+ whole.
Proof.
  intros Hq Hs Hseen Hw Hc Hreq Hr1 He Hr2.
  assert (Hdata : forall body x, f_data (sink (written body x)) = f_data (sink x) +:+ body).
  { intros body x. unfold written. destruct (String.eqb_spec body "") as [->|];
      [now rewrite append_empty_r|reflexivity]. }
  assert (Hdl : forall body x, dl (written body x) = dl x)
    by (intros body x; unfold written; now destruct (String.eqb body "")).
  assert (Hcalls : forall body x, calls (written body x) = calls x)
    by (intros body x; unfold written; now destruct (String.eqb body "")).
  assert (Hclosed : forall body x, f_closed (sink (written body x)) = f_closed (sink x))
    by (intros body x; unfold written; now destruct (String.eqb body "")).
  set (u := join_url (baseURL (dl w)) chunk) in *.
  set (w1 := log (LogChunkFailed err)
               (written part (tick (called u (emit (EvAcquire chunk u) (tick w)))))).
  assert (E1 : processChunks env [chunk] w = Ret None w1).
  { cbn [processChunks]. unfold bind at 1. rewrite (yield_quiet env Hq).
    cbn [tick dl]. rewrite Hs, Hseen. unfold bind. fold u.
    rewrite (downloadChunk_streams env Hq u (emit (EvAcquire chunk u) (tick w))
               part (Some err) Hreq Hr1 Hw Hc), He.
    reflexivity. }
  assert (Hd1 : dl w1 = dl w) by (subst w1; cbn [log emit dl]; now rewrite Hdl).
  set (w2 := marked chunk
               (written whole (tick (called u (emit (EvAcquire chunk u) (tick w1)))))).
  assert (E2 : processChunks env [chunk] w1 = Ret None w2).
  { cbn [processChunks]. unfold bind at 1. rewrite (yield_quiet env Hq).
    cbn [tick dl]. rewrite Hd1, Hs, Hseen. unfold bind. fold u.
    rewrite (downloadChunk_streams env Hq u (emit (EvAcquire chunk u) (tick w1))
               whole None); [reflexivity|exact Hreq| | |].
    - subst w1. cbn [emit tick calls log]. rewrite Hcalls. exact Hr2.
    - cbn [emit tick dl]. now rewrite Hd1.
    - subst w1. cbn [emit tick sink log]. now rewrite Hclosed. }
  exists w1, w2. repeat split; auto.
  - now rewrite Hd1.
  - subst w1. cbn [log emit sink]. now rewrite Hdata.
  - subst w2. unfold marked, seen. cbn [emit with_dl dl set_seenChunks seenChunks].
    now rewrite lookup_insert_eq.
  - subst w2 w1. unfold marked. cbn [emit with_dl sink log tick called].
    rewrite Hdata. cbn [emit with_dl sink log tick called]. rewrite Hdata.
    cbn [emit with_dl sink log tick called]. now rewrite append_assoc.
Qed.

Lemma failed_download_leaves_its_bytes_witness :
  exists w1 w2,
    processChunks cut_off ["seg1.aac"] (new_session "out.aac") = Ret None w1
    /\ processChunks cut_off ["seg1.aac"] w1 = Ret None w2
    /\ seen (dl w1) "seg1.aac" = false
    /\ f_data (sink w1) = f_data (sink (new_session "out.aac")) +:+ "par"
    /\ seen (dl w2) "seg1.aac" = true
    /\ f_data (sink w2) = f_data (sink (new_session "out.aac")) +:+ "par" +:+ "partial".
Proof.
  apply (failed_download_leaves_its_bytes cut_off "seg1.aac" (new_session "out.aac")
           "par" "unexpected EOF" "partial"); try reflexivity.
  intros n. reflexivity.
Defined.

(** * The switch to replay mode needs the network's words *)

Section Phrase.

Variable env : Env.

Hypothesis request_errors :
  forall url e, new_request_error env url = Some e ->
                Contains e "No audio segments found" = false.
Hypothesis client_errors :
  forall n url e, client_do env n url = DoError e ->
                  Contains e "No audio segments found" = false.
Hypothesis status_errors :
  forall n url status body ce,
    client_do env n url = Response status body ce -> status <> StatusOK ->
    Contains (http_error status body) "No audio segments found" = false.

Lemma getPlaylist_error_text fuel :
  forall url w e w',
    getPlaylist env fuel url w = Ret (inr e) w' ->
    Contains e "No audio segments found" = false.
Proof.
  induction fuel as [|fuel IH]; intros url w e w'; [discriminate|].
  cbn [getPlaylist].
  destruct (new_request_error env url) as [err|] eqn:Er.
  { intros [= <- _]. now apply (request_errors url). }
  destruct (client_do env (calls w) url) as [err|status content ce] eqn:Ed.
  { intros [= <- _]. now apply (client_errors (calls w) url). }
  destruct (Z.eqb_spec status StatusOK) as [->|Hs]; cbn [negb].
  2:{ intros [= <- _]. now apply (status_errors (calls w) url status content ce). }
  destruct (scan_segments _ _) as [[chunks isChunk] completed].
  destruct (rebase _ chunks) as [base [|c chunks']]; [|discriminate].
  destruct (find_playlist _) as [line|]; [apply IH|].
  intros [= <- _]. reflexivity.
Qed.

Lemma Start_loop_never_switches fuel :
  forall url retryCount hasTriedReplay w0 w,
    evolves env 0%nat w0 w ->
    evolves env 0%nat w0 (world_of (Start_loop env fuel url retryCount hasTriedReplay w)).
Proof.
  induction fuel as [|fuel IH]; intros url rc htr w0 w H; [exact H|].
  cbn [Start_loop]. destruct (isCompleted (dl w)).
  { simpl. apply evolves_log; [discriminate|exact H]. }
  unfold bind at 1.
  pose proof (evolves_yield env 0%nat w0 w H) as Hy.
  destruct (yield env w) as [[] w1|w1|w1]; simpl in Hy; try exact Hy.
  destruct (stopChan (dl w1)).
  2:{ simpl. apply evolves_log; [discriminate|exact Hy]. }
  unfold bind at 1.
  pose proof (evolves_getPlaylist env 0%nat w0 (S fuel) url w1 Hy) as Hg.
  pose proof (getPlaylist_error_text (S fuel) url w1) as He.
  destruct (getPlaylist env (S fuel) url w1) as [[chunks|err] w2|w2|w2];
    simpl in Hg; try exact Hg.
  - unfold bind at 1.
    pose proof (evolves_processChunks env 0%nat w0 chunks w2 Hg) as Hp.
    destruct (processChunks env chunks w2) as [[e|] w3|w3|w3];
      simpl in Hp; try exact Hp.
    apply IH. destruct (isCompleted (dl w3)); [exact Hp|now apply evolves_sleep].
  - rewrite (He err w2 eq_refl). cbn [andb].
    destruct (rc + 1 >? MAX_RETRIES); [exact Hg|].
    apply IH. apply evolves_sleep. apply evolves_log; [discriminate|exact Hg].
Qed.

End Phrase.

Lemma switches_none t : switches t = 0%nat -> ~ In (EvLog LogSwitching) t.
Proof.
  induction t as [|e t IH]; [intros _ []|].
  intros H [->|Hin]; [discriminate|].
  apply IH; [|exact Hin]. destruct e as [[]| | | |]; simpl in H; congruence.
Qed.

(** The driver looks for "No audio segments found" in the error of a
    failed fetch, and the fetcher's own error reads "No audio segments
    or valid playlist found": the switch to replay mode is never caused
    by a manifest without segments.  When none of the error texts that
    come from the network (a request that cannot be built, a failed
    request, an answer with another status than 200 and its body)
    contains the phrase, a session never switches to replay mode,
    whatever the manifests are and however long it runs. *)
Theorem replay_switch_needs_the_phrase_from_the_network env fuel playlistURL w :
  (forall url e, new_request_error env url = Some e ->
                 Contains e "No audio segments found" = false) ->
  (forall n url e, client_do env n url = DoError e ->
                   Contains e "No audio segments found" = false) ->
  (forall n url status body ce,
      client_do env n url = Response status body ce -> status <> StatusOK ->
      Contains (http_error status body) "No audio segments found" = false) ->
  exists t,
    trace (world_of (Start env fuel playlistURL w)) = trace w ++ t
    /\ ~ In (EvLog LogSwitching) t.
Proof.
  intros H1 H2 H3.
  assert (H : evolves env 0%nat w (world_of (Start env fuel playlistURL w))).
  { unfold Start. destruct (slice_to playlistURL _) as [base|]; [|apply evolves_refl].
    simpl.
    assert (H0 : evolves env 0%nat w (log LogStarting (with_dl (set_baseURL base) w))).
    { apply evolves_log; [discriminate|]. apply evolves_baseURL, evolves_refl. }
    destruct (writer (dl w)); [exact H0|].
    apply (Start_loop_never_switches env H1 H2 H3).
    apply evolves_log; [discriminate|exact H0]. }
  destruct H as (t & Ht & _ & Hs & _). exists t. split; [exact Ht|].
  apply switches_none. lia.
Qed.

Lemma replay_switch_needs_the_phrase_from_the_network_witness :
  exists t,
    trace (world_of (Start two_empty_manifests 5 live_url (new_session "out.aac")))
    = trace (new_session "out.aac") ++ t
    /\ ~ In (EvLog LogSwitching) t.
Proof.
  apply (replay_switch_needs_the_phrase_from_the_network
           two_empty_manifests 5 live_url (new_session "out.aac")).
  - intros url e. discriminate.
  - intros n url e.
    do 4 (destruct n as [|n]; [discriminate|]).
    intros H. destruct n; cbn in H; injection H as <-; reflexivity.
  - intros n url status body ce.
    do 4 (destruct n as [|n]; [intros [= <- _ _]; now intros []|]).
    destruct n; discriminate.
Defined.

(** * The command line: [main] *)

Lemma GetStreamURL_requests api spaceID w location w' :
  GetStreamURL api spaceID w = (inl location, w') ->
  exists mediaKey, w' = w ++ [space_data_url spaceID; stream_status_url mediaKey].
Proof.
  unfold GetStreamURL.
  destruct (FetchSpaceData api spaceID w) as [[space|err] w1] eqn:Ef; [|discriminate].
  destruct (FetchSpaceData_requests api _ _ _ _ Ef) as [_ Hw]. specialize (Hw space eq_refl).
  subst w1. destruct (space_state space) as [state|]; [|discriminate].
  destruct (String.eqb state "Ended" && negb (isReplayAvailable space)); [discriminate|].
  destruct (space_media_key space) as [mediaKey|]; [|discriminate].
  intros Hs.
  destruct (request_stream_status_location api _ _ _ _ Hs) as (_ & _ & _ & -> & _).
  exists mediaKey. now rewrite <- app_assoc.
Qed.

Lemma extractSpaceID_returns spaceURL : exists spaceID, extractSpaceID spaceURL = Some spaceID.
Proof.
  destruct (Contains spaceURL "/spaces/") eqn:E.
  - eexists. now apply extractSpaceID_is_the_first_path_element_aux.
  - exists "". unfold extractSpaceID. now rewrite E.
Qed.

(** The file name for a URL from which [extractSpaceID] gets an
    identifier that is not empty. *)
Lemma fileName_of_identified spaceURL spaceID :
  extractSpaceID spaceURL = Some spaceID -> spaceID <> "" ->
  fileName_of spaceURL = Some (ReplaceAll spaceID "-peek" "" +:+ ".aac")
  /\ Contains (ReplaceAll spaceID "-peek" "" +:+ ".aac") "/" = false.
Proof.
  intros He Hn. destruct (Contains spaceURL "/spaces/") eqn:E.
  - rewrite (extractSpaceID_is_the_first_path_element_aux _ E) in He.
    injection He as <-. rewrite fileName_of_value, E. split; [reflexivity|].
    rewrite Contains_byte, has_byte_app. unfold ReplaceAll.
    rewrite has_byte_ReplaceAll_go; [reflexivity| |reflexivity].
    apply space_id_bytes.
  - unfold extractSpaceID in He. rewrite E in He. now injection He as <-.
Qed.

Lemma Start_without_slash env fuel url w :
  Contains url "/" = false -> Start env fuel url w = Panic w.
Proof.
  rewrite Contains_byte. intros H. unfold Start.
  now rewrite (LastIndex_no_byte _ _ H).
Qed.

Lemma Start_with_slash env fuel url fileName :
  Contains url "/" = true -> no_panic (Start env fuel url (new_session fileName)).
Proof.
  intros Hu. unfold Start. rewrite (slice_to_last_slash _ Hu).
  now apply Start_loop_no_panic.
Qed.

Lemma main_download_crashes env fuel url fileName :
  fst (main_download env fuel url fileName) = Crashed <-> Contains url "/" = false.
Proof.
  unfold main_download. destruct (Contains url "/") eqn:E.
  - pose proof (Start_with_slash env fuel url fileName E) as H.
    destruct (Start env fuel url (new_session fileName)) as [[e|] w|w|w];
      simpl in *; split; try discriminate; contradiction.
  - now rewrite (Start_without_slash _ _ _ _ E).
Qed.

Lemma run_deferred_name w : f_name (sink (run_deferred w)) = f_name (sink w).
Proof.
  unfold run_deferred, Close.
  destruct (stopChan (dl w)); cbn [close_chan];
    change (writer (dl (with_dl (set_stopChan Closed) w))) with (writer (dl w));
    destruct (writer (dl w)); reflexivity.
Qed.

(** The shape of [main] for a command line of two words. *)
Lemma main_two_words env fuel prog spaceURL spaceID :
  extractSpaceID spaceURL = Some spaceID -> spaceID <> "" ->
  main env fuel [prog; spaceURL]
  = match GetStreamURL (main_api env) spaceID [] with
    | (inr err, requests) => gave_up (MsgStreamURLFailed err) requests
    | (inl playlistURL, requests) =>
      match create_error env (ReplaceAll spaceID "-peek" "" +:+ ".aac") with
      | Some err => gave_up (MsgCreateFailed err) requests
      | None =>
        let '(status, w) :=
          main_download (main_net env) fuel playlistURL
                        (ReplaceAll spaceID "-peek" "" +:+ ".aac") in
        {| exit_status := status; message := None; api_requests := requests;
           created := Some (ReplaceAll spaceID "-peek" "" +:+ ".aac");
           session := Some w |}
      end
    end.
Proof.
  intros He Hn. destruct (fileName_of_identified _ _ He Hn) as [Hf _].
  unfold main. cbn [length Z.of_nat Pos.of_succ_nat Pos.succ Z.eqb Pos.eqb negb index nth_error].
  rewrite He. destruct (String.eqb_spec spaceID ""); [contradiction|].
  destruct (GetStreamURL (main_api env) spaceID []) as [[location|err] requests];
    [|reflexivity].
  now rewrite Hf.
Qed.

(** What [main] does in all other cases: it prints a message and
    leaves with status 1. *)
Lemma main_other_words env fuel args :
  (forall prog spaceURL spaceID,
      args = [prog; spaceURL] -> extractSpaceID spaceURL = Some spaceID -> spaceID = "") ->
  exists msg, main env fuel args = gave_up msg [].
Proof.
  intros H. unfold main.
  destruct (Z.eqb_spec (Z.of_nat (length args)) 2) as [E|E]; [|now exists MsgUsage].
  destruct args as [|prog [|spaceURL [|x args]]]; simpl in E; try lia.
  cbn [negb index nth_error].
  destruct (extractSpaceID_returns spaceURL) as (spaceID & He). rewrite He.
  rewrite (H prog spaceURL spaceID eq_refl He). now exists MsgNoSpaceID.
Qed.

(** The cases of [main]. *)
Lemma main_cases env fuel args :
  (exists msg requests, main env fuel args = gave_up msg requests)
  \/ exists prog spaceURL spaceID location mediaKey,
       args = [prog; spaceURL]
       /\ extractSpaceID spaceURL = Some spaceID /\ spaceID <> ""
       /\ GetStreamURL (main_api env) spaceID []
          = (inl location, [space_data_url spaceID; stream_status_url mediaKey])
       /\ fileName_of spaceURL = Some (ReplaceAll spaceID "-peek" "" +:+ ".aac")
       /\ Contains (ReplaceAll spaceID "-peek" "" +:+ ".aac") "/" = false
       /\ create_error env (ReplaceAll spaceID "-peek" "" +:+ ".aac") = None
       /\ main env fuel args
          = {| exit_status :=
                 fst (main_download (main_net env) fuel location
                                    (ReplaceAll spaceID "-peek" "" +:+ ".aac"));
               message := None;
               api_requests := [space_data_url spaceID; stream_status_url mediaKey];
               created := Some (ReplaceAll spaceID "-peek" "" +:+ ".aac");
               session :=
                 Some (snd (main_download (main_net env) fuel location
                                          (ReplaceAll spaceID "-peek" "" +:+ ".aac"))) |}.
Proof.
  destruct (Z.eqb_spec (Z.of_nat (length args)) 2) as [E|E].
  2:{ left. exists MsgUsage, []. unfold main.
      now destruct (Z.eqb_spec (Z.of_nat (length args)) 2). }
  destruct args as [|prog [|spaceURL [|x args]]]; simpl in E; try lia.
  destruct (extractSpaceID_returns spaceURL) as (spaceID & He).
  destruct (String.eqb_spec spaceID "") as [->|Hn].
  { left. exists MsgNoSpaceID, []. unfold main. cbn [negb index nth_error length].
    now rewrite He. }
  rewrite (main_two_words env fuel prog spaceURL spaceID He Hn).
  destruct (fileName_of_identified _ _ He Hn) as [Hf Hs].
  destruct (GetStreamURL (main_api env) spaceID []) as [[location|err] requests] eqn:Eg.
  2:{ left. now exists (MsgStreamURLFailed err), requests. }
  destruct (GetStreamURL_requests _ _ _ _ _ Eg) as (mediaKey & ->).
  destruct (create_error env _) as [err|] eqn:Ec.
  { left. now eexists (MsgCreateFailed err), _. }
  right. exists prog, spaceURL, spaceID, location, mediaKey.
  repeat split; auto.
  now destruct (main_download _ _ _ _).
Qed.

(** [main] creates the output file only after the API has given a
    location, with exactly two requests: the file is named after the
    identifier of the space, with every [-peek] removed and [.aac]
    appended, its name contains no [/], and the download is started.
    The default name [recording.aac] of [CreateFileWriter] is never
    used: without an identifier [main] has left before. *)
Theorem main_names_the_file_after_the_space env fuel args fileName :
  created (main env fuel args) = Some fileName ->
  exists prog spaceURL spaceID location mediaKey w,
    args = [prog; spaceURL]
    /\ extractSpaceID spaceURL = Some spaceID /\ spaceID <> ""
    /\ fileName_of spaceURL = Some fileName
    /\ fileName = ReplaceAll spaceID "-peek" "" +:+ ".aac"
    /\ Contains fileName "/" = false
    /\ GetStreamURL (main_api env) spaceID []
       = (inl location, [space_data_url spaceID; stream_status_url mediaKey])
    /\ api_requests (main env fuel args)
       = [space_data_url spaceID; stream_status_url mediaKey]
    /\ session (main env fuel args) = Some w
    /\ f_name (sink w) = fileName.
Proof.
  destruct (main_cases env fuel args)
    as [(msg & requests & ->)
       |(prog & spaceURL & spaceID & location & mediaKey
         & -> & He & Hn & Hg & Hf & Hs & Hc & ->)]; [discriminate|].
  cbn [created api_requests session]. intros [= <-].
  eexists prog, spaceURL, spaceID, location, mediaKey, _.
  repeat split; auto.
  unfold main_download.
  pose proof (evolves_Start (main_net env) fuel location
                (new_session (ReplaceAll spaceID "-peek" "" +:+ ".aac")))
    as (t & _ & _ & _ & _ & _ & Hname & _).
  destruct (Start _ _ _ _) as [[e|] w|w|w]; cbn [snd world_of] in *; try exact Hname.
  - now rewrite run_deferred_name.
  - now rewrite run_deferred_name.
Qed.

Lemma main_names_the_file_after_the_space_witness :
  exists prog spaceURL spaceID location mediaKey w,
    ["space-download"; "https://twitter.com/i/spaces/1OdKrXYZ-peek?s=20"] = [prog; spaceURL]
    /\ extractSpaceID spaceURL = Some spaceID /\ spaceID <> ""
    /\ fileName_of spaceURL = Some "1OdKrXYZ.aac"
    /\ "1OdKrXYZ.aac" = ReplaceAll spaceID "-peek" "" +:+ ".aac"
    /\ Contains "1OdKrXYZ.aac" "/" = false
    /\ GetStreamURL (main_api recording) spaceID []
       = (inl location, [space_data_url spaceID; stream_status_url mediaKey])
    /\ api_requests (main recording 5 ["space-download";
                                       "https://twitter.com/i/spaces/1OdKrXYZ-peek?s=20"])
       = [space_data_url spaceID; stream_status_url mediaKey]
    /\ session (main recording 5 ["space-download";
                                  "https://twitter.com/i/spaces/1OdKrXYZ-peek?s=20"])
       = Some w
    /\ f_name (sink w) = "1OdKrXYZ.aac".
Proof.
  apply (main_names_the_file_after_the_space recording 5
           ["space-download"; "https://twitter.com/i/spaces/1OdKrXYZ-peek?s=20"]
           "1OdKrXYZ.aac").
  vm_compute. reflexivity.
Defined.

(** [main] does not panic before the output file exists: whatever the
    command line and whatever the API answers, when no file has been
    created [main] has printed a message and left with status 1,
    without starting a download. *)
Theorem main_without_file_leaves_with_a_message env fuel args :
  created (main env fuel args) = None ->
  exit_status (main env fuel args) = Exit1
  /\ message (main env fuel args) <> None
  /\ session (main env fuel args) = None.
Proof.
  destruct (main_cases env fuel args)
    as [(msg & requests & ->)
       |(prog & spaceURL & spaceID & location & mediaKey
         & -> & He & Hn & Hg & Hf & Hs & Hc & ->)]; [|discriminate].
  intros _. now repeat split.
Qed.

Lemma main_without_file_leaves_with_a_message_witness :
  exit_status (main recording 5 ["space-download"; "https://x.com/i/status/1"]) = Exit1
  /\ message (main recording 5 ["space-download"; "https://x.com/i/status/1"]) <> None
  /\ session (main recording 5 ["space-download"; "https://x.com/i/status/1"]) = None.
Proof.
  apply (main_without_file_leaves_with_a_message recording 5
           ["space-download"; "https://x.com/i/status/1"]).
  vm_compute. reflexivity.
Defined.

(** The only panic of the program.  [main] crashes exactly when the
    command line has two words, the URL has an identifier, the API
    gives a location, the output file can be created, and the location
    contains no [/].  The file then exists, empty; the deferred calls
    have closed it, and no request for a playlist has been sent. *)
Theorem main_crashes_only_on_location_without_slash env fuel args :
  (exit_status (main env fuel args) = Crashed <->
   exists prog spaceURL spaceID location requests fileName,
     args = [prog; spaceURL]
     /\ extractSpaceID spaceURL = Some spaceID /\ spaceID <> ""
     /\ GetStreamURL (main_api env) spaceID [] = (inl location, requests)
     /\ fileName_of spaceURL = Some fileName
     /\ create_error env fileName = None
     /\ Contains location "/" = false)
  /\ (exit_status (main env fuel args) = Crashed ->
      exists fileName w,
        created (main env fuel args) = Some fileName
        /\ session (main env fuel args) = Some w
        /\ f_data (sink w) = "" /\ f_closed (sink w) = true
        /\ trace w = [] /\ calls w = 0%nat).
Proof.
  destruct (main_cases env fuel args)
    as [(msg & requests & E)
       |(prog & spaceURL & spaceID & location & mediaKey
         & -> & He & Hn & Hg & Hf & Hs & Hc & E)].
  - split; [split|]; try (rewrite E; discriminate).
    intros (prog & spaceURL & spaceID & location & requests' & fileName
            & -> & He & Hn & Hg & Hf & Hc & Hl).
    destruct (fileName_of_identified _ _ He Hn) as [Hf' _].
    rewrite Hf' in Hf. injection Hf as <-.
    rewrite (main_two_words env fuel prog spaceURL spaceID He Hn), Hg, Hc in E.
    unfold main_download in E. rewrite (Start_without_slash _ _ _ _ Hl) in E.
    discriminate.
  - rewrite E. cbn [exit_status created session]. rewrite main_download_crashes.
    split; [split|].
    + intros Hl. eexists prog, spaceURL, spaceID, location, _, _.
      repeat split; eauto.
    + intros (prog' & spaceURL' & spaceID' & location' & requests' & fileName
              & [= <- <-] & He' & _ & Hg' & _ & _ & Hl).
      rewrite He in He'. injection He' as <-. rewrite Hg in Hg'. now injection Hg' as <-.
    + intros Hl. eexists _, _. split; [reflexivity|]. split; [reflexivity|].
      unfold main_download. rewrite (Start_without_slash _ _ _ _ Hl).
      cbn [snd]. now repeat split.
Qed.

Lemma main_crashes_only_on_location_without_slash_witness :
  exit_status (main bad_location 5 ["space-download";
                                    "https://twitter.com/i/spaces/1OdKrXYZ-peek?s=20"])
  = Crashed.
Proof.
  apply (main_crashes_only_on_location_without_slash bad_location 5
           ["space-download"; "https://twitter.com/i/spaces/1OdKrXYZ-peek?s=20"]).
  exists "space-download", "https://twitter.com/i/spaces/1OdKrXYZ-peek?s=20",
         "1OdKrXYZ-peek", "playlist.m3u8",
         [space_data_url "1OdKrXYZ-peek"; stream_status_url "28_1"], "1OdKrXYZ.aac".
  repeat split; try discriminate; vm_compute; reflexivity.
Defined.

Lemma Start_result env fuel url w r w' :
  Start env fuel url w = Ret r w' ->
  match r with
  | None => isCompleted (dl w') = true \/ stopChan (dl w') = Closed
  | Some e => exists err, e = retries_exceeded err
  end.
Proof.
  unfold Start. destruct (slice_to url _); [|discriminate].
  match goal with |- context [writer ?d] => destruct (writer d) end; [discriminate|].
  apply Start_loop_result.
Qed.

(** When nobody stops the session, [main] leaves with status 0 only
    after the end-of-list marker has been seen: the session is
    completed, and the deferred calls have closed the stop channel and
    the output file, the file twice.  With status 1 after a download
    has been started, the session is not completed, the last line
    logged is the failure with the text "exceeded max retries", and the
    file is left open. *)
Theorem main_status_tells_how_the_download_ended env fuel args w :
  never_closed (main_net env) ->
  session (main env fuel args) = Some w ->
  match exit_status (main env fuel args) with
  | Exit0 => isCompleted (dl w) = true /\ stopChan (dl w) = Closed
             /\ f_closed (sink w) = true /\ f_close_calls (sink w) = 2%nat
  | Exit1 => exists t err,
               trace w = t ++ [EvLog (LogDownloadFailed (retries_exceeded err))]
               /\ stopChan (dl w) = Open /\ f_closed (sink w) = false
  | Crashed => trace w = []
  | Running => stopChan (dl w) = Open /\ f_closed (sink w) = false
  end.
Proof.
  intros Hq.
  destruct (main_cases env fuel args)
    as [(msg & requests & ->)
       |(prog & spaceURL & spaceID & location & mediaKey
         & -> & He & Hn & Hg & Hf & Hs & Hc & ->)]; [discriminate|].
  cbn [exit_status session]. intros [= <-]. unfold main_download.
  set (fileName := ReplaceAll spaceID "-peek" "" +:+ ".aac").
  pose proof (evolves_Start (main_net env) fuel location (new_session fileName))
    as (t & Ht & _ & _ & _ & Hw & _ & _ & _ & _ & Hk).
  destruct (Hk Hq) as (Hstop & Hclosed & Hcalls). clear Hk.
  cbn [new_session dl sink stopChan NewHLSDownloader f_closed f_close_calls writer]
    in Hstop, Hclosed, Hcalls, Hw.
  pose proof (Start_result (main_net env) fuel location (new_session fileName)) as Hr.
  pose proof (Start_with_slash (main_net env) fuel location fileName) as Hp.
  destruct (Start _ _ _ _) as [[e|] w|w|w] eqn:Es; cbn [fst snd world_of] in *.
  - destruct (Hr _ _ eq_refl) as (err & ->). exists (trace w), err. now repeat split.
  - destruct (Hr _ _ eq_refl) as [Hc'|Hc']; [|congruence].
    unfold run_deferred, Close. rewrite Hstop. cbn [close_chan world_of].
    change (writer (dl (with_dl (set_stopChan Closed) w))) with (writer (dl w)).
    rewrite Hw. cbn. rewrite Hcalls, Hc'. now repeat split.
  - destruct (Contains location "/") eqn:El; [now destruct (Hp eq_refl)|].
    rewrite (Start_without_slash _ _ _ _ El) in Es. now injection Es as <-.
  - now split.
Qed.

Lemma main_status_tells_how_the_download_ended_witness :
  match exit_status (main recording 5 ["space-download";
                                       "https://twitter.com/i/spaces/1OdKrXYZ-peek?s=20"])
  with
  | Exit0 => isCompleted (dl recorded) = true /\ stopChan (dl recorded) = Closed
             /\ f_closed (sink recorded) = true /\ f_close_calls (sink recorded) = 2%nat
  | Exit1 => exists t err,
               trace recorded = t ++ [EvLog (LogDownloadFailed (retries_exceeded err))]
               /\ stopChan (dl recorded) = Open /\ f_closed (sink recorded) = false
  | Crashed => trace recorded = []
  | Running => stopChan (dl recorded) = Open /\ f_closed (sink recorded) = false
  end.
Proof.
  apply (main_status_tells_how_the_download_ended recording 5
           ["space-download"; "https://twitter.com/i/spaces/1OdKrXYZ-peek?s=20"] recorded).
  - intros n. reflexivity.
  - vm_compute. reflexivity.
Defined.

Example recording_ends_with_status_0 :
  exit_status (main recording 5 ["space-download";
                                 "https://twitter.com/i/spaces/1OdKrXYZ-peek?s=20"]) = Exit0
  /\ f_data (sink recorded) = "data".
Proof. vm_compute. split; reflexivity. Qed.

(** * Further properties of the session and of the API client *)

(** Once the stop channel is closed, a pass over the segments does
    nothing: [processChunks] returns nil at its first check, whatever
    the list, without a request, without a mark and without writing. *)
Theorem stopped_pass_requests_nothing env chunks w :
  stopChan (dl w) = Closed ->
  exists w',
    processChunks env chunks w = Ret None w'
    /\ trace w' = trace w /\ calls w' = calls w
    /\ seenChunks (dl w') = seenChunks (dl w)
    /\ f_data (sink w') = f_data (sink w).
Proof.
  intros Hs. destruct chunks as [|chunk rest]; [now exists w|].
  cbn [processChunks]. unfold bind.
  destruct (yield_effect env w) as (w1 & Ey & Ht & Hc & Hd & _).
  pose proof (evolves_yield env 0%nat w w (evolves_refl env 0%nat w)) as Hy.
  rewrite Ey in *. cbn [world_of] in Hy.
  destruct Hy as (t & Ht' & Hl & _ & _ & _ & _ & _ & Hstop & _).
  rewrite (Hstop Hs). exists w1. repeat split; auto.
  rewrite Ht in Ht'. rewrite <- (app_nil_r (trace w)) in Ht' at 1.
  apply app_inv_head in Ht'. subst t. cbn in Hl. now injection Hl as <-.
Qed.

Lemma stopped_pass_requests_nothing_witness :
  exists w',
    processChunks growing_manifest ["seg1.aac"; "seg2.aac"] stopped = Ret None w'
    /\ trace w' = trace stopped /\ calls w' = calls stopped
    /\ seenChunks (dl w') = seenChunks (dl stopped)
    /\ f_data (sink w') = f_data (sink stopped).
Proof.
  apply (stopped_pass_requests_nothing growing_manifest ["seg1.aac"; "seg2.aac"] stopped).
  reflexivity.
Defined.

(** [FetchSpaceData] does not look at the status of the answer: with
    every status replaced by any other one it returns the same result.
    The request for the stream status does: an answer that gives a
    location with status 200 gives the error "HTTP error: ..." with any
    other status. *)
Theorem FetchSpaceData_does_not_look_at_the_status api status spaceID w :
  FetchSpaceData (with_status status api) spaceID w = FetchSpaceData api spaceID w
  /\ forall mediaKey location w',
       status <> StatusOK ->
       request_stream_status api mediaKey w = (inl location, w') ->
       exists body,
         request_stream_status (with_status status api) mediaKey w
         = (inr (http_error status body), w').
Proof.
  split.
  - unfold FetchSpaceData. cbn [with_status api_new_request_error api_do json_Unmarshal].
    destruct (api_new_request_error api _); [reflexivity|].
    now destruct (api_do api (length w) _) as [err|st body [err|]].
  - intros mediaKey location w' Hs H.
    destruct (request_stream_status_location api _ _ _ _ H)
      as (body & result & source & -> & Hdo & _).
    exists body. unfold request_stream_status in *.
    cbn [with_status api_new_request_error api_do json_Unmarshal].
    destruct (api_new_request_error api _); [discriminate|]. rewrite Hdo.
    now destruct (Z.eqb_spec status StatusOK).
Qed.

Lemma FetchSpaceData_does_not_look_at_the_status_witness :
  exists body,
    request_stream_status (with_status 403 (api_of running_space 200 live_url)) "28_1"
                          [space_data_url "1Od"]
    = (inr (http_error 403 body), [space_data_url "1Od"; stream_status_url "28_1"]).
Proof.
  apply (proj2 (FetchSpaceData_does_not_look_at_the_status
                  (api_of running_space 200 live_url) 403 "1Od" [space_data_url "1Od"])
               "28_1" live_url).
  - discriminate.
  - vm_compute. reflexivity.
Defined.

(** With status 403 on both answers, the metadata are still accepted
    and only the stream status is refused. *)
Example forbidden_metadata_are_accepted :
  fst (GetStreamURL (with_status 403 (api_of running_space 200 live_url)) "1Od" [])
  = inr (http_error 403 "stream")
  /\ length (snd (GetStreamURL (with_status 403 (api_of running_space 200 live_url))
                               "1Od" [])) = 2%nat.
Proof. vm_compute. split; reflexivity. Qed.
